(** * BBone-to-XFL converter: the flattening core of the two converter scripts

    The development embeds the pure part of [bbone_to_xfl_symbols.py]
    (world-transform flattening, shared-animation substitution, draw order,
    bitmap lookup) and of [bbone_to_xfl.py] (name normalisation, per-frame
    piece map, label spans, origin/scale composition) and proves the
    properties the converter's specification states about them.

    Numbers are IEEE-754 doubles ([PrimFloat.float]), as Python's [float].
    A decoded JSON document is a value of [json]; a Python [dict] that the
    scripts build themselves is an insertion-ordered association list.
    An exception is a [Raise] result, [sys.exit] an [Exit] outcome. *)

From Stdlib Require Import Floats.PrimFloat.
From Stdlib Require Import String Ascii List ZArith Lia Bool Arith.
From Stdlib Require Import DecimalString.
Import ListNotations.

Local Open Scope list_scope.

(* ------------------------------------------------------------------ *)
(** ** Python results *)

Inductive exn : Set :=
| AttributeError
| TypeError
| ValueError
| IndexError
| KeyError
| RecursionError.

Inductive result (A : Type) : Type :=
| Ok (a : A)
| Raise (e : exn).

Arguments Ok {A} a.
Arguments Raise {A} e.

Definition bind {A B : Type} (c : result A) (k : A -> result B) : result B :=
  match c with
  | Ok a => k a
  | Raise e => Raise e
  end.

Notation "x <- c ;; k" := (bind c (fun x => k))
  (at level 61, c at next level, right associativity).

(** What a run of a script's [main] ends in. *)
Inductive outcome (A : Type) : Type :=
| Done (a : A)
| Exit (code : Z)
| Raised (e : exn).

Arguments Done {A} a.
Arguments Exit {A} code.
Arguments Raised {A} e.

(* ------------------------------------------------------------------ *)
(** ** Strings

    A Python [str] is a [string] whose characters are the code points
    below 256. *)

Definition backslash : ascii := "092"%char.

Fixpoint replace_char (a b : ascii) (s : string) : string :=
  match s with
  | EmptyString => EmptyString
  | String c s' => String (if Ascii.eqb c a then b else c) (replace_char a b s')
  end.

(** [str.lower] on one code point: A-Z, and the Latin-1 capitals. *)
Definition lower_char (c : ascii) : ascii :=
  let n := nat_of_ascii c in
  if ((65 <=? n) && (n <=? 90))%nat
     || ((192 <=? n) && (n <=? 222) && negb (n =? 215))%nat
  then ascii_of_nat (n + 32)
  else c.

Fixpoint lower (s : string) : string :=
  match s with
  | EmptyString => EmptyString
  | String c s' => String (lower_char c) (lower s')
  end.

(** [c.isspace()] for a code point below 256. *)
Definition is_space (c : ascii) : bool :=
  let n := nat_of_ascii c in
  (((9 <=? n) && (n <=? 13)) || ((28 <=? n) && (n <=? 32))
   || (n =? 133) || (n =? 160))%nat.

Fixpoint lstrip (s : string) : string :=
  match s with
  | EmptyString => EmptyString
  | String c s' => if is_space c then lstrip s' else s
  end.

(** Drops the trailing white space: a character stays when it is not a
    space or something is left after it. *)
Fixpoint rstrip (s : string) : string :=
  match s with
  | EmptyString => EmptyString
  | String c s' =>
      match rstrip s' with
      | EmptyString => if is_space c then EmptyString else String c EmptyString
      | r => String c r
      end
  end.

(** [s.strip()] *)
Definition strip (s : string) : string := rstrip (lstrip s).

Fixpoint contains_char (a : ascii) (s : string) : bool :=
  match s with
  | EmptyString => false
  | String c s' => Ascii.eqb c a || contains_char a s'
  end.

(** [s.split(a)[-1]]: what follows the last [a], all of [s] without one. *)
Fixpoint after_last (a : ascii) (s : string) : string :=
  match s with
  | EmptyString => EmptyString
  | String c s' =>
      if contains_char a s' then after_last a s'
      else if Ascii.eqb c a then s' else s
  end.

(** [sub in s] *)
Fixpoint contains (sub s : string) : bool :=
  String.prefix sub s
  || match s with
     | EmptyString => false
     | String _ s' => contains sub s'
     end.

Fixpoint endswith (suf s : string) : bool :=
  String.eqb suf s
  || match s with
     | EmptyString => false
     | String _ s' => endswith suf s'
     end.

(** [s[:-n]] *)
Definition drop_last (n : nat) (s : string) : string :=
  String.substring 0 (String.length s - n) s.

Definition str_truthy (s : string) : bool :=
  match s with
  | EmptyString => false
  | _ => true
  end.

(* ------------------------------------------------------------------ *)
(** ** Insertion-ordered dictionaries *)

Section Dict.
Context {K V : Type} (keq : K -> K -> bool).

Fixpoint dict_get (k : K) (d : list (K * V)) : option V :=
  match d with
  | [] => None
  | (k', v) :: d' => if keq k' k then Some v else dict_get k d'
  end.

Definition dict_mem (k : K) (d : list (K * V)) : bool :=
  match dict_get k d with
  | Some _ => true
  | None => false
  end.

(** [d[k] = v]: in place when [k] is a key, appended otherwise. *)
Fixpoint dict_set (k : K) (v : V) (d : list (K * V)) : list (K * V) :=
  match d with
  | [] => [(k, v)]
  | (k', v') :: d' =>
      if keq k' k then (k', v) :: d' else (k', v') :: dict_set k v d'
  end.

Definition dict_keys (d : list (K * V)) : list K := map fst d.
End Dict.

Abbreviation sget := (dict_get String.eqb).
Abbreviation sset := (dict_set String.eqb).
Abbreviation smem := (dict_mem String.eqb).
Abbreviation nget := (dict_get Nat.eqb).
Abbreviation nset := (dict_set Nat.eqb).
Abbreviation nmem := (dict_mem Nat.eqb).

(* ------------------------------------------------------------------ *)
(** ** Decoded JSON *)

(** A decoded number is the double it denotes.  An integer literal beyond
    the range of a double, on which [float()] raises [OverflowError], has
    no counterpart here: the statements below are about data without one. *)

#[warnings="-register-all"]
Inductive json : Type :=
| JNull
| JBool (b : bool)
| JNum (x : float)
| JStr (s : string)
| JList (l : list json)
| JDict (d : list (string * json)).

Definition float_truthy (x : float) : bool := negb (PrimFloat.eqb x 0%float).

(** [bool(v)] *)
Definition truthy (v : json) : bool :=
  match v with
  | JNull => false
  | JBool b => b
  | JNum x => float_truthy x
  | JStr s => str_truthy s
  | JList l => match l with [] => false | _ => true end
  | JDict d => match d with [] => false | _ => true end
  end.

(** [a or b] *)
Definition py_or (a b : json) : json := if truthy a then a else b.

(** [o.get(k)]: only a dict has the method; [None] is [JNull]. *)
Definition py_get (o : json) (k : string) : result (option json) :=
  match o with
  | JDict d => Ok (sget k d)
  | _ => Raise AttributeError
  end.

(** [o.get(k, dflt)] *)
Definition get_or (o : json) (k : string) (dflt : json) : result json :=
  v <- py_get o k ;;
  Ok (match v with Some x => x | None => dflt end).

(** [isinstance(v, list)], with the elements. *)
Definition as_list (v : json) : option (list json) :=
  match v with
  | JList l => Some l
  | _ => None
  end.

(** The elements a [for] loop over [v] visits: a dict yields its keys, a
    string its characters, anything else that is not a list is not
    iterable. *)
Definition iterate (v : json) : result (list json) :=
  match v with
  | JList l => Ok l
  | JDict d => Ok (map (fun kv => JStr (fst kv)) d)
  | JStr s => Ok (map (fun c => JStr (String c EmptyString)) (list_ascii_of_string s))
  | _ => Raise TypeError
  end.

(* ------------------------------------------------------------------ *)
(** ** Affine matrices ([bbone_to_xfl_symbols.py], math / utils) *)

Local Open Scope float_scope.

(** The 6-tuple [(a, b, c, d, tx, ty)]; field [i] is index [i]. *)
Record affine : Type := Affine {
  m_a : float; m_b : float; m_c : float; m_d : float;
  m_tx : float; m_ty : float
}.

Definition mul (a b : affine) : affine :=
  Affine (m_a a * m_a b + m_c a * m_b b)
         (m_b a * m_a b + m_d a * m_b b)
         (m_a a * m_c b + m_c a * m_d b)
         (m_b a * m_c b + m_d a * m_d b)
         (m_a a * m_tx b + m_c a * m_ty b + m_tx a)
         (m_b a * m_tx b + m_d a * m_ty b + m_ty a).

(** [mat()] with its default arguments. *)
Definition mat : affine := Affine 1 0 0 1 0 0.

Definition sanitize (s : string) : string := replace_char "."%char "_"%char s.

(** [sanitize(v)] on an arbitrary object: only a [str] has [replace]. *)
Definition sanitize_obj (v : json) : result string :=
  match v with
  | JStr s => Ok (sanitize s)
  | _ => Raise AttributeError
  end.

Section Flattening.

(** Python's [float] on a [str] (the builtin's parser); [None] is its
    [ValueError]. *)
Variable float_of_str : string -> option float.

(** [float(v)] *)
Definition to_float (v : json) : result float :=
  match v with
  | JNum x => Ok x
  | JBool b => Ok (if b then 1 else 0)
  | JStr s => match float_of_str s with
              | Some x => Ok x
              | None => Raise ValueError
              end
  | JNull | JList _ | JDict _ => Raise TypeError
  end.

(** [float(o.get(k, dflt))] *)
Definition float_field (o : json) (k : string) (dflt : float) : result float :=
  v <- get_or o k (JNum dflt) ;;
  to_float v.

(** The [shared] table as [main] reads it, and the outer frame index. *)
Variable shared : json.

(** [shared.get(key)]: a list or a dict is not hashable; the keys of a
    decoded JSON object are strings, so no other object is one. *)
Definition shared_get (key : json) : result json :=
  match shared with
  | JDict d =>
      match key with
      | JStr s => Ok (match sget s d with Some v => v | None => JNull end)
      | JList _ | JDict _ => Raise TypeError
      | _ => Ok JNull
      end
  | _ => Raise AttributeError
  end.

(** The children a node is walked into at outer frame [fi]: lines
    425-430 of [compose_list], and the same lines 146-151 of
    [dfs_draw_order]'s [walk]. *)
Definition effective_kids (node : json) (fi : nat) : result json :=
  kids <- get_or node "children" JNull ;;
  ref <- get_or node "references_shared_animation" JNull ;;
  if truthy ref then
    sa <- shared_get ref ;;
    match sa with
    | JList ((_ :: _) as l) =>
        let fr := py_or (nth (fi mod length l) l JNull) (JDict []) in
        get_or fr "children" kids
    | _ => Ok kids
    end
  else Ok kids.

(** [if isinstance(kids, list): for ch in kids: ...] *)
Definition walked (kids : json) : list json :=
  match as_list kids with
  | Some l => l
  | None => []
  end.

(** The head of [compose_list]: name, local matrix and alpha multiplier. *)
Definition node_local (bone : json) : result (json * affine * float) :=
  name <- get_or bone "name" (JStr EmptyString) ;;
  M0 <- get_or bone "matrix" (JDict []) ;;
  let M := py_or M0 (JDict []) in
  a <- float_field M "a" 1 ;;
  b <- float_field M "b" 0 ;;
  c <- float_field M "c" 0 ;;
  d <- float_field M "d" 1 ;;
  tx <- float_field M "tx" 0 ;;
  ty <- float_field M "ty" 0 ;;
  color <- get_or bone "color" JNull ;;
  am <- float_field (py_or color (JDict [])) "alphaMultiplier" 1 ;;
  Ok (name, Affine a b c d tx ty, am).

(** A flattened record [(name, world, alpha)]. *)
Definition flat : Type := json * affine * float.

(** [compose_list(bone, pw, pa, fi)]; [depth] is the number of nested
    calls the interpreter still allows. *)
Fixpoint compose_list (depth : nat) (bone : json) (pw : affine) (pa : float)
         (fi : nat) : result (list flat) :=
  match depth with
  | O => Raise RecursionError
  | S depth' =>
      nla <- node_local bone ;;
      let '(name, local, am) := nla in
      let world := mul pw local in
      let alpha := am * pa in
      kids <- effective_kids bone fi ;;
      rest <- (fix each (l : list json) : result (list flat) :=
                 match l with
                 | [] => Ok []
                 | ch :: l' =>
                     o <- compose_list depth' ch world alpha fi ;;
                     r <- each l' ;;
                     Ok (o ++ r)
                 end) (walked kids) ;;
      Ok ((name, world, alpha) :: rest)
  end.

(** The loop over the children, as a function of its own. *)
Fixpoint compose_each (depth : nat) (l : list json) (pw : affine) (pa : float)
         (fi : nat) : result (list flat) :=
  match l with
  | [] => Ok []
  | ch :: l' =>
      o <- compose_list depth ch pw pa fi ;;
      r <- compose_each depth l' pw pa fi ;;
      Ok (o ++ r)
  end.

(** [walk(node, fi)] of [dfs_draw_order], returning what it appends to
    [order]. *)
Fixpoint walk (depth : nat) (node : json) (fi : nat) : result (list string) :=
  match depth with
  | O => Raise RecursionError
  | S depth' =>
      nm <- get_or node "name" (JStr EmptyString) ;;
      n <- sanitize_obj nm ;;
      kids <- effective_kids node fi ;;
      rest <- (fix each (l : list json) : result (list string) :=
                 match l with
                 | [] => Ok []
                 | ch :: l' =>
                     o <- walk depth' ch fi ;;
                     r <- each l' ;;
                     Ok (o ++ r)
                 end) (walked kids) ;;
      Ok (if str_truthy n then n :: rest else rest)
  end.

Fixpoint walk_each (depth : nat) (l : list json) (fi : nat) : result (list string) :=
  match l with
  | [] => Ok []
  | ch :: l' =>
      o <- walk depth ch fi ;;
      r <- walk_each depth l' fi ;;
      Ok (o ++ r)
  end.

(** [dfs_draw_order(frames, shared)] *)
Definition dfs_draw_order (depth : nat) (frames : list json) : result (list string) :=
  match frames with
  | [] => Ok []
  | f0 :: _ =>
      roots <- get_or f0 "children" (JList []) ;;
      l <- iterate roots ;;
      walk_each depth l 0
  end.

End Flattening.

(* ------------------------------------------------------------------ *)
(** ** Bitmap lookup ([bbone_to_xfl_symbols.py]) *)

Local Open Scope string_scope.

(** [idx.setdefault(k, p)] *)
Definition setdefault (k p : string) (idx : list (string * string)) : list (string * string) :=
  if smem k idx then idx else idx ++ [(k, p)].

(** [build_png_index]: a PNG is named by its stem, [files] are the stems in
    the order the directory lists them.  The five spellings of one stem
    are entered in the order the source writes them; they all map to the
    same file, so the order inside one group does not change what
    [find_png_for_name] returns. *)
Definition build_png_index (files : list string) : list (string * string) :=
  fold_left
    (fun idx s =>
       fold_left (fun idx k => setdefault k s idx)
         [s; lower s; replace_char "."%char "_"%char s;
          replace_char "_"%char "."%char s;
          replace_char "."%char "_"%char (lower s)] idx)
    files [].

(** The substring test of the fallback loop. *)
Definition loosely_matches (low k : string) : bool :=
  contains low (lower k) || contains (lower k) low.

Definition find_png_for_name (name : string) (idx : list (string * string)) : option string :=
  match sget name idx with
  | Some p => Some p
  | None =>
      let key := replace_char "."%char "_"%char name in
      match sget key idx with
      | Some p => Some p
      | None =>
          let low := lower name in
          match sget low idx with
          | Some p => Some p
          | None =>
              option_map snd (find (fun kp => loosely_matches low (fst kp)) idx)
          end
      end
  end.

(* ------------------------------------------------------------------ *)
(** ** The stage timeline ([main] of [bbone_to_xfl_symbols.py]) *)

(** A slot of [layer_frames[key]]. *)
Record entry : Type := Entry {
  e_name : string;
  e_m : affine;
  e_alpha : float
}.

(** [layer_frames]: layer key -> frame index -> slot. *)
Definition layer_table : Type := list (string * list (nat * entry)).

(** A [DOMSymbolInstance] of the stage: its matrix, and the alpha of its
    [Color] child when it has one. *)
Record stage_instance : Type := StageInstance {
  si_item : string;
  si_matrix : affine;
  si_alpha : option float
}.

(** A [DOMFrame] of a stage layer. *)
Record stage_frame : Type := StageFrame {
  sf_index : nat;
  sf_duration : nat;
  sf_element : option stage_instance
}.

(** What [main] writes: the image symbols (file stem and matrix), the sprite
    wrappers, and the stage layers top first.  The numbers are the floats
    the XML writers receive; the six-decimal text they format them to is
    not part of the record. *)
Record stage : Type := Stage {
  st_images : list (string * affine);
  st_sprites : list (string * string);
  st_layers : list (string * list stage_frame)
}.

Section Main.

Variable float_of_str : string -> option float.
Variable shared : json.
Variable depth : nat.

(** [float(st.get(k, dflt) or dflt)] *)
Definition plist_float (st : json) (k : string) (dflt : float) : result float :=
  v <- get_or st k (JNum dflt) ;;
  to_float float_of_str (py_or v (JNum dflt)).

(** Lines 401-409: the image symbols and [name_to_image]; [names] is
    [sorted(names)]. *)
Fixpoint image_symbols (plist : list (string * json)) (idx : list (string * string))
         (names : list string) (imgs : list (string * affine))
         (n2i : list (string * string))
  : result (list (string * affine) * list (string * string)) :=
  match names with
  | [] => Ok (imgs, n2i)
  | n :: names' =>
      match find_png_for_name n idx with
      | None => image_symbols plist idx names' imgs n2i
      | Some png =>
          let st := match sget n plist with Some e => e | None => JDict [] end in
          ox <- plist_float st "origin_x" 0 ;;
          oy <- plist_float st "origin_y" 0 ;;
          sx <- plist_float st "scale_x" 1 ;;
          sy <- plist_float st "scale_y" 1 ;;
          image_symbols plist idx names'
            (imgs ++ [(png, Affine sx 0 0 sy ox oy)])
            (sset n ("image/" ++ png) n2i)
      end
  end.

(** [{sanitize(n): {} for n in name_to_image}] *)
Definition init_layer_frames (n2i : list (string * string)) : layer_table :=
  fold_left (fun lf n => sset (sanitize n) [] lf) (dict_keys n2i) [].

(** Lines 439-441 for one flattened record. *)
Definition record_flat (fi : nat) (lf : layer_table) (t : flat) : result layer_table :=
  let '(nm, M, alpha) := t in
  key <- sanitize_obj nm ;;
  match sget key lf with
  | None => Ok lf
  | Some slots => Ok (sset key (nset fi (Entry ("sprite/" ++ key) M alpha) slots) lf)
  end.

Fixpoint record_flats (fi : nat) (lf : layer_table) (l : list flat) : result layer_table :=
  match l with
  | [] => Ok lf
  | t :: l' => lf' <- record_flat fi lf t ;; record_flats fi lf' l'
  end.

(** The loop over the root bones of one frame. *)
Fixpoint record_bones (fi : nat) (lf : layer_table) (bones : list json) : result layer_table :=
  match bones with
  | [] => Ok lf
  | bone :: bones' =>
      out <- compose_list float_of_str shared depth bone mat 1 fi ;;
      lf' <- record_flats fi lf out ;;
      record_bones fi lf' bones'
  end.

(** [for fi, fr in enumerate(frames)], from index [fi] on. *)
Fixpoint record_frames (fi : nat) (lf : layer_table) (frames : list json) : result layer_table :=
  match frames with
  | [] => Ok lf
  | fr :: frames' =>
      roots <- get_or fr "children" (JList []) ;;
      bones <- iterate roots ;;
      lf' <- record_bones fi lf bones ;;
      record_frames (S fi) lf' frames'
  end.

(** Lines 445-446: the frame-0 order kept to the layers, then the layers
    it misses. *)
Definition bottom_to_top (order : list string) (lf : layer_table) : list string :=
  filter (fun n => smem n lf) (map sanitize order)
  ++ filter (fun n => negb (existsb (String.eqb n) (map sanitize order))) (dict_keys lf).

(** Lines 458-475 for one frame index of one layer. *)
Definition stage_frame_of (g_sx g_sy : float) (fmap : list (nat * entry)) (fi : nat) : stage_frame :=
  match nget fi fmap with
  | None => StageFrame fi 1 None
  | Some e =>
      let m := e_m e in
      StageFrame fi 1
        (Some (StageInstance (e_name e)
                 (Affine (m_a m * g_sx) (m_b m * g_sx) (m_c m * g_sy) (m_d m * g_sy)
                         (m_tx m * g_sx) (m_ty m * g_sy))
                 (if PrimFloat.eqb (e_alpha e) 1 then None else Some (e_alpha e))))
  end.

Fixpoint stage_layers (g_sx g_sy : float) (nframes : nat) (lf : layer_table)
         (top_first : list string) : result (list (string * list stage_frame)) :=
  match top_first with
  | [] => Ok []
  | lname :: rest =>
      match sget lname lf with
      | None => Raise KeyError
      | Some fmap =>
          ls <- stage_layers g_sx g_sy nframes lf rest ;;
          Ok ((lname, map (stage_frame_of g_sx g_sy fmap) (seq 0 nframes)) :: ls)
      end
  end.

(** [main] from line 343 on, for non-empty [frames]. *)
Definition build_stage (frames : list json) (plist : list (string * json))
           (idx : list (string * string)) (names : list string)
           (g_sx g_sy : float) : result stage :=
  syms <- image_symbols plist idx names [] [] ;;
  let '(imgs, n2i) := syms in
  let sprites := map (fun kv => (sanitize (fst kv), snd kv)) n2i in
  lf <- record_frames 0 (init_layer_frames n2i) frames ;;
  order <- dfs_draw_order shared depth frames ;;
  let top_first := rev (bottom_to_top order lf) in
  layers <- stage_layers g_sx g_sy (length frames) lf top_first ;;
  Ok (Stage imgs sprites layers).

(** [main]: the exit on an empty timeline, then the build. *)
Definition main (frames : list json) (plist : list (string * json))
           (idx : list (string * string)) (names : list string)
           (g_sx g_sy : float) : outcome stage :=
  match frames with
  | [] => Exit 3
  | _ =>
      match build_stage frames plist idx names g_sx g_sy with
      | Ok s => Done s
      | Raise e => Raised e
      end
  end.

End Main.

(* ------------------------------------------------------------------ *)
(** ** Name normalisation and composition ([bbone_to_xfl.py]) *)

Section Converter.

Variable float_of_str : string -> option float.

(** [_float(v, d)]: any exception of [float(v)] gives [float(d)]. *)
Definition _float (v : json) (d : float) : float :=
  match to_float float_of_str v with
  | Ok x => x
  | Raise _ => d
  end.

(** [_norm_name] on a [str]. *)
Definition _norm_name (n : string) : string :=
  if negb (str_truthy n) then EmptyString else
  let n := strip n in
  let n := if contains_char "/"%char n then after_last "/"%char n else n in
  let n := if contains_char backslash n then after_last backslash n else n in
  if endswith ".png" (lower n) then drop_last 4 n else n.

(** [_norm_name(raw)] on what [ch.get("name")] returns: a falsy object
    gives the empty name, another object that is not a [str] has no
    [strip]. *)
Definition norm_name_obj (raw : option json) : result string :=
  match raw with
  | None => Ok EmptyString
  | Some v =>
      if negb (truthy v) then Ok EmptyString else
      match v with
      | JStr s => Ok (_norm_name s)
      | _ => Raise AttributeError
      end
  end.

(** [aliases.get(n, n)] *)
Definition apply_alias (aliases : list (string * string)) (n : string) : string :=
  match sget n aliases with
  | Some c => c
  | None => n
  end.

(** Lines 135-139: the name a child is filed under; [None] when the
    normalised name is empty and the child is skipped, before the alias
    map is read. *)
Definition resolve_name (aliases : list (string * string)) (raw : option json)
  : result (option string) :=
  n <- norm_name_obj raw ;;
  if negb (str_truthy n) then Ok None else Ok (Some (apply_alias aliases n)).

(** [_float(o.get(k, dflt))], with [_float]'s own default [0.0]. *)
Definition field_float (o : json) (k : string) (dflt : float) : result float :=
  v <- get_or o k (JNum dflt) ;;
  Ok (_float v 0).

(** [compose_instance_matrix]: M' = M . T(ox,oy) . S(sx,sy) *)
Definition compose_instance_matrix (frame_m plist_rec : json) : result affine :=
  a <- field_float frame_m "a" 1 ;;
  b <- field_float frame_m "b" 0 ;;
  c <- field_float frame_m "c" 0 ;;
  d <- field_float frame_m "d" 1 ;;
  tx <- field_float frame_m "tx" 0 ;;
  ty <- field_float frame_m "ty" 0 ;;
  ox <- field_float plist_rec "origin_x" 0 ;;
  oy <- field_float plist_rec "origin_y" 0 ;;
  sx <- field_float plist_rec "scale_x" 1 ;;
  sy <- field_float plist_rec "scale_y" 1 ;;
  let tx1 := a * ox + c * oy + tx in
  let ty1 := b * ox + d * oy + ty in
  Ok (Affine (a * sx) (b * sx) (c * sy) (d * sy) tx1 ty1).

(** Lines 203-212: the global scale, skipped when it is [1.0]. *)
Definition apply_global_scale (s : float) (composed : affine) : affine :=
  if negb (PrimFloat.eqb s 1) then
    Affine (m_a composed * s) (m_b composed * s) (m_c composed * s)
           (m_d composed * s) (m_tx composed * s) (m_ty composed * s)
  else composed.

(** ** The sprite timeline ([_sprite_symbol]) *)

(** Lines 135-141 for one child of a frame. *)
Definition file_child (aliases : list (string * string))
           (st : list (string * json) * list (string * nat)) (ch : json)
  : result (list (string * json) * list (string * nat)) :=
  let '(per, counts) := st in
  raw <- py_get ch "name" ;;
  r <- resolve_name aliases raw ;;
  match r with
  | None => Ok st
  | Some n =>
      let seen := match sget n counts with Some k => k | None => O end in
      Ok (sset n ch per, sset n (S seen) counts)
  end.

Fixpoint file_children (aliases : list (string * string))
         (st : list (string * json) * list (string * nat)) (l : list json)
  : result (list (string * json) * list (string * nat)) :=
  match l with
  | [] => Ok st
  | ch :: l' => st' <- file_child aliases st ch ;; file_children aliases st' l'
  end.

(** [f.get("children") or []], as the loop visits it. *)
Definition frame_children (f : json) : result (list json) :=
  c <- py_get f "children" ;;
  iterate (py_or (match c with Some v => v | None => JNull end) (JList [])).

(** Lines 130-142: [fmap] and [counts]. *)
Fixpoint build_fmap (aliases : list (string * string)) (frames : list json)
         (fmap : list (list (string * json))) (counts : list (string * nat))
  : result (list (list (string * json)) * list (string * nat)) :=
  match frames with
  | [] => Ok (fmap, counts)
  | f :: frames' =>
      l <- frame_children f ;;
      st <- file_children aliases ([], counts) l ;;
      build_fmap aliases frames' (fmap ++ [fst st]) (snd st)
  end.

End Converter.

(** *** Label spans *)

Local Open Scope Z_scope.

(** A [DOMFrame] of the labels layer. *)
Record span : Type := Span {
  s_index : Z;
  s_duration : Z;
  s_name : option string
}.

Fixpoint insert_uniq (x : Z) (l : list Z) : list Z :=
  match l with
  | [] => [x]
  | y :: l' =>
      if x <? y then x :: l
      else if x =? y then l
      else y :: insert_uniq x l'
  end.

(** [sorted({...})] on integers. *)
Definition sorted_set (l : list Z) : list Z := fold_right insert_uniq [] l.

(** [max(0, int(v) - 1)] *)
Definition label_start (v : Z) : Z := Z.max 0 (v - 1).

(** Lines 157-160. *)
Definition label_starts (labels : list (string * Z)) (total : Z) : list Z :=
  let starts := sorted_set (map (fun kv => label_start (snd kv)) labels) in
  let starts :=
    match starts with
    | [] => [0]
    | s0 :: _ => if negb (s0 =? 0) then 0 :: starts else starts
    end in
  starts ++ [total].

(** Line 164, and the test of line 166. *)
Definition name_here (labels : list (string * Z)) (s : Z) : option string :=
  match find (fun kv => label_start (snd kv) =? s) labels with
  | Some (lbl, _) => if str_truthy lbl then Some lbl else None
  | None => None
  end.

(** Lines 161-167. *)
Fixpoint spans_of (labels : list (string * Z)) (starts : list Z) : list span :=
  match starts with
  | s :: ((e :: _) as rest) =>
      Span s (Z.max 1 (e - s)) (name_here labels s) :: spans_of labels rest
  | _ => []
  end.

(** Lines 154-167: no labels layer for an empty table. *)
Definition label_layer (labels : list (string * Z)) (total : Z) : option (list span) :=
  match labels with
  | [] => None
  | _ => Some (spans_of labels (label_starts labels total))
  end.

Local Close Scope Z_scope.

(** *** Layers of the sprite *)

(** The four multipliers [_color] writes, as the node's [color] holds them. *)
Record color_attrs : Type := ColorAttrs {
  c_red : json; c_green : json; c_blue : json; c_alpha : json
}.

(** A [DOMSymbolInstance] of the sprite; [_sprite_identity] writes no matrix. *)
Record sprite_instance : Type := SpriteInstance {
  pi_item : string;
  pi_name : string;
  pi_matrix : option affine;
  pi_color : option color_attrs
}.

Record sprite_frame : Type := SpriteFrame {
  pf_index : nat;
  pf_duration : nat;
  pf_element : option sprite_instance
}.

Record sprite : Type := Sprite {
  sp_labels : option (list span);
  sp_layers : list (string * list sprite_frame)
}.

Section SpriteSymbol.

Variable float_of_str : string -> option float.

(** [_color(parent, c)] *)
Definition _color (c : json) : result (option color_attrs) :=
  if negb (truthy c) then Ok None else
  r <- get_or c "redMultiplier" (JNum 1) ;;
  g <- get_or c "greenMultiplier" (JNum 1) ;;
  b <- get_or c "blueMultiplier" (JNum 1) ;;
  a <- get_or c "alphaMultiplier" (JNum 1) ;;
  Ok (Some (ColorAttrs r g b a)).

(** Lines 201-212: the matrix of the instance of [node]. *)
Definition instance_matrix (global_scale : float) (node pinfo : json) : result affine :=
  fm <- get_or node "matrix" (JDict []) ;;
  composed <- compose_instance_matrix float_of_str fm pinfo ;;
  Ok (apply_global_scale global_scale composed).

(** Lines 192-214 for frame [idx] of the layer [name]. *)
Definition sprite_frame_of (global_scale : float) (name : string) (pinfo : json)
           (fmap : list (list (string * json))) (idx : nat) : result sprite_frame :=
  match nth_error fmap idx with
  | None => Raise IndexError
  | Some per =>
      match sget name per with
      | None => Ok (SpriteFrame idx 1 None)
      | Some node =>
          if negb (truthy node) then Ok (SpriteFrame idx 1 None) else
          m <- instance_matrix global_scale node pinfo ;;
          c <- get_or node "color" (JDict []) ;;
          col <- _color c ;;
          Ok (SpriteFrame idx 1
                (Some (SpriteInstance ("image/" ++ name) (name ++ "_inst") (Some m) col)))
      end
  end.

Fixpoint sprite_frames (global_scale : float) (name : string) (pinfo : json)
         (fmap : list (list (string * json))) (idxs : list nat) : result (list sprite_frame) :=
  match idxs with
  | [] => Ok []
  | idx :: idxs' =>
      f <- sprite_frame_of global_scale name pinfo fmap idx ;;
      fs <- sprite_frames global_scale name pinfo fmap idxs' ;;
      Ok (f :: fs)
  end.

(** Lines 184-214. *)
Fixpoint sprite_layers (global_scale : float) (plist : list (string * json))
         (fmap : list (list (string * json))) (total : nat) (order : list string)
  : result (list (string * list sprite_frame)) :=
  match order with
  | [] => Ok []
  | name :: order' =>
      let pinfo := match sget name plist with Some e => e | None => JDict [] end in
      fs <- sprite_frames global_scale name pinfo fmap (seq 0 total) ;;
      ls <- sprite_layers global_scale plist fmap total order' ;;
      Ok ((name, fs) :: ls)
  end.

(** Lines 170-174: the layers to build. *)
Definition layer_order (piece_names : list string) (include_unused : bool)
           (only : option (list string)) (counts : list (string * nat)) : list string :=
  match only with
  | Some ((_ :: _) as o) =>
      let only_norm := map _norm_name o in
      filter (fun n => existsb (String.eqb n) only_norm) piece_names
  | _ =>
      if include_unused then piece_names
      else filter (fun n => match sget n counts with
                            | Some k => (0 <? k)%nat
                            | None => false
                            end) piece_names
  end.

(** [_sprite_symbol], without the diagnostics it prints. *)
Definition _sprite_symbol (frames : list json) (piece_names : list string)
           (labels : list (string * Z)) (plist : list (string * json))
           (include_unused : bool) (only : option (list string))
           (aliases : list (string * string)) (global_scale : float) : result sprite :=
  let total := Nat.max 1 (length frames) in
  fc <- build_fmap aliases frames [] [] ;;
  let '(fmap, counts) := fc in
  let labs := label_layer labels (Z.of_nat total) in
  let order := layer_order piece_names include_unused only counts in
  layers <- sprite_layers global_scale plist fmap total order ;;
  Ok (Sprite labs layers).

(** [_sprite_identity]: one frame per piece, the instance at its
    registration point. *)
Definition _sprite_identity (piece_names : list string) : sprite :=
  Sprite None
    (map (fun name =>
            (name, [SpriteFrame 0 1
                      (Some (SpriteInstance ("image/" ++ name) (name ++ "_inst") None None))]))
         piece_names).

(** Lines 397-408 of [convert_bbone_to_xfl]: the main sprite timeline. *)
Definition convert_bbone_to_xfl (identity_sprite : bool) (frames : list json)
           (piece_names : list string) (labels : list (string * Z))
           (plist : list (string * json)) (include_unused : bool)
           (only : option (list string)) (aliases : list (string * string))
           (global_scale : float) : result sprite :=
  if identity_sprite || (length frames =? 0)%nat then Ok (_sprite_identity piece_names)
  else _sprite_symbol frames piece_names labels plist include_unused only aliases global_scale.

End SpriteSymbol.

(* ------------------------------------------------------------------ *)
(** ** Notions the statements use *)

Section Notions.

Variable float_of_str : string -> option float.
Variable shared : json.

(** [reached fi bone pw pa node pw' pa']: the traversal of outer frame
    [fi] that enters [bone] with parent matrix [pw] and parent alpha [pa]
    comes to [node] with parent matrix [pw'] and parent alpha [pa']. *)
Inductive reached (fi : nat) : json -> affine -> float -> json -> affine -> float -> Prop :=
| reached_here bone pw pa :
    reached fi bone pw pa bone pw pa
| reached_below bone pw pa name local am kids ch node pw' pa' :
    node_local float_of_str bone = Ok (name, local, am) ->
    effective_kids shared bone fi = Ok kids ->
    In ch (walked kids) ->
    reached fi ch (mul pw local) (am * pa) node pw' pa' ->
    reached fi bone pw pa node pw' pa'.

(** [flattens fi h bone]: at outer frame [fi] the fields of [bone] and of
    every node below it can be read, and the traversal of [bone] nests at
    most [h] calls. *)
Inductive flattens (fi : nat) : nat -> json -> Prop :=
| flattens_node h bone nla kids :
    node_local float_of_str bone = Ok nla ->
    effective_kids shared bone fi = Ok kids ->
    (forall ch, In ch (walked kids) -> flattens fi h ch) ->
    flattens fi (S h) bone.

(** The root bones of a frame, as the loops of [main] visit them. *)
Definition frame_roots (fr : json) : result (list json) :=
  roots <- get_or fr "children" (JList []) ;;
  iterate roots.

(** All the records [compose_list] returns for the roots of frame [fi],
    in traversal order. *)
Definition frame_flats (depth fi : nat) (fr : json) : result (list flat) :=
  bones <- frame_roots fr ;;
  compose_each float_of_str shared depth bones mat 1 fi.

(** [_float(d.get(k, dflt))] for a dict [d]. *)
Definition component (d : list (string * json)) (k : string) (dflt : float) : float :=
  _float float_of_str (match sget k d with Some v => v | None => JNum dflt end) 0.

(** [float(d.get(k, dflt))] for a dict [d] whose [k], when it has one, is
    the number [x]. *)
Definition number_or (d : list (string * json)) (k : string) (dflt : float) : float :=
  match sget k d with
  | Some (JNum x) => x
  | _ => dflt
  end.

End Notions.

(** [layer_frames[key][fi]], when both are there. *)
Definition slot (lf : layer_table) (key : string) (fi : nat) : option entry :=
  match sget key lf with
  | Some slots => nget fi slots
  | None => None
  end.

(** The slot lines 439-441 write for a record filed under [key]. *)
Definition entry_of (key : string) (t : flat) : entry :=
  Entry ("sprite/" ++ key) (snd (fst t)) (snd t).

(** The name [_sprite_symbol] files a child under (lines 135-139). *)
Definition child_key (aliases : list (string * string)) (ch : json)
  : result (option string) :=
  raw <- py_get ch "name" ;;
  resolve_name aliases raw.

(** The key a flattened record is filed under. *)
Definition flat_key (t : flat) : result string := sanitize_obj (fst (fst t)).

Fixpoint flat_keys (l : list flat) : result (list string) :=
  match l with
  | [] => Ok []
  | t :: l' => k <- flat_key t ;; ks <- flat_keys l' ;; Ok (k :: ks)
  end.

(** [tiles a spans b]: the spans follow one another from [a] to [b], each
    starting where the one before ends and none empty. *)
Fixpoint tiles (a : Z) (spans : list span) (b : Z) : Prop :=
  match spans with
  | [] => a = b
  | s :: spans' =>
      s_index s = a /\ (0 < s_duration s)%Z /\ tiles (a + s_duration s)%Z spans' b
  end.

(** Strictly increasing. *)
Fixpoint ascending (l : list Z) : Prop :=
  match l with
  | x :: ((y :: _) as l') => (x < y)%Z /\ ascending l'
  | _ => True
  end.

Definition total_duration (spans : list span) : Z :=
  fold_right (fun s acc => (s_duration s + acc)%Z) 0%Z spans.

(** A string of white space only. *)
Fixpoint all_space (s : string) : bool :=
  match s with
  | EmptyString => true
  | String c s' => is_space c && all_space s'
  end.

Fixpoint last_char (s : string) : option ascii :=
  match s with
  | EmptyString => None
  | String c EmptyString => Some c
  | String _ s' => last_char s'
  end.

(** No white space at the start, none at the end. *)
Definition starts_clean (s : string) : bool :=
  match s with
  | EmptyString => true
  | String c _ => negb (is_space c)
  end.

Definition ends_clean (s : string) : bool :=
  match last_char s with
  | Some c => negb (is_space c)
  | None => true
  end.

Definition is_sep (c : ascii) : bool := Ascii.eqb c "/"%char || Ascii.eqb c backslash.

(* ------------------------------------------------------------------ *)
(** ** More of [bbone_to_xfl_symbols.py] *)

Local Open Scope string_scope.

Definition dquote : ascii := "034"%char.
Definition squote : ascii := "039"%char.

(** [_strip_quotes] *)
Definition _strip_quotes (s : string) : string :=
  let s := strip s in
  if (2 <=? String.length s)%nat
     && match String.get 0 s, last_char s with
        | Some a, Some b => Ascii.eqb a b && (Ascii.eqb a squote || Ascii.eqb a dquote)
        | _, _ => false
        end
  then String.substring 1 (String.length s - 2) s
  else s.

(** [s.replace(a, "")] for a one-character [a]. *)
Fixpoint remove_char (a : ascii) (s : string) : string :=
  match s with
  | EmptyString => EmptyString
  | String c s' => if Ascii.eqb c a then remove_char a s' else String c (remove_char a s')
  end.

(** [s.split(a, 1)[0]] *)
Fixpoint before_first (a : ascii) (s : string) : string :=
  match s with
  | EmptyString => EmptyString
  | String c s' => if Ascii.eqb c a then EmptyString else String c (before_first a s')
  end.

(** [s.split(a, 1)[1]], for an [s] that holds [a]. *)
Fixpoint after_first (a : ascii) (s : string) : string :=
  match s with
  | EmptyString => EmptyString
  | String c s' => if Ascii.eqb c a then s' else after_first a s'
  end.

(** [parse_size_token]; [float_of_str] is Python's [float] on a [str]. *)
Definition parse_size_token (float_of_str : string -> option float) (tok : string)
  : result (float * float) :=
  let tok := remove_char " "%char (lower tok) in
  if negb (contains_char "x"%char tok) then Raise ValueError else
  w <- to_float float_of_str (JStr (before_first "x"%char tok)) ;;
  h <- to_float float_of_str (JStr (after_first "x"%char tok)) ;;
  Ok (w, h).

(** An object a [set] takes: a list or a dict is not hashable. *)
Definition hashable (v : json) : bool :=
  match v with
  | JList _ | JDict _ => false
  | _ => true
  end.

(** [collect(children)] of [main] (lines 387-393), returning the names in
    the order [names.add] receives them; [depth] is the number of nested
    calls still allowed. *)
Fixpoint collect (depth : nat) (children : json) : result (list json) :=
  match depth with
  | O => Raise RecursionError
  | S depth' =>
      match as_list children with
      | None => Ok []
      | Some l =>
          (fix each (l : list json) : result (list json) :=
             match l with
             | [] => Ok []
             | b :: l' =>
                 n <- py_get b "name" ;;
                 own <- match n with
                        | Some v =>
                            if truthy v
                            then (if hashable v then Ok [v] else Raise TypeError)
                            else Ok []
                        | None => Ok []
                        end ;;
                 kids <- py_get b "children" ;;
                 below <- match kids with
                          | Some (JList k) => collect depth' (JList k)
                          | _ => Ok []
                          end ;;
                 rest <- each l' ;;
                 Ok (own ++ below ++ rest)%list
             end) l
      end
  end.

(** Line 394: [for fr in frames: collect(fr.get("children", []))]. *)
Fixpoint collect_frames (depth : nat) (frames : list json) : result (list json) :=
  match frames with
  | [] => Ok []
  | fr :: frames' =>
      c <- get_or fr "children" (JList []) ;;
      here <- collect depth c ;;
      rest <- collect_frames depth frames' ;;
      Ok (here ++ rest)%list
  end.

(* ------------------------------------------------------------------ *)
(** ** More of [bbone_to_xfl.py] *)

(** [str(i)] for an index. *)
Definition str_of_nat (i : nat) : string := NilZero.string_of_uint (Nat.to_uint i).

(** [x[0]] on a truthy object. *)
Definition subscript0 (x : json) : result json :=
  match x with
  | JList (e :: _) => Ok e
  | JList [] => Raise IndexError
  | JStr (String c _) => Ok (JStr (String c EmptyString))
  | JStr EmptyString => Raise IndexError
  | JDict _ => Raise KeyError
  | JNull | JBool _ | JNum _ => Raise TypeError
  end.

(** [(data.get(key) or [{}])[0].get("frames") if data.get(key) else None] *)
Definition first_frames_of (data : json) (key : string) : result json :=
  x <- get_or data key JNull ;;
  if truthy x then
    e <- subscript0 x ;;
    get_or e "frames" JNull
  else Ok JNull.

(** [(data.get("timeline") or {}).get("frames") if data.get("timeline") else None] *)
Definition timeline_frames_of (data : json) : result json :=
  x <- get_or data "timeline" JNull ;;
  if truthy x then get_or x "frames" JNull else Ok JNull.

(** [isinstance(v, list) and v and isinstance(v[0], dict)] *)
Definition is_frame_list (v : json) : option (list json) :=
  match v with
  | JList ((JDict _ :: _) as l) => Some l
  | _ => None
  end.

(** The test of line 268 on a list. *)
Definition looks_like_frames (l : list json) : bool :=
  match l with
  | JDict d :: _ => smem "children" d || smem "matrix" d
  | _ => false
  end.

(** [scan(node, trail)] of [_discover_frames]. *)
Fixpoint scan (depth : nat) (node : json) (trail : string)
  : result (list json * string) :=
  match depth with
  | O => Raise RecursionError
  | S depth' =>
      match node with
      | JList l =>
          if looks_like_frames l then Ok (l, trail) else
          (fix each (i : nat) (l : list json) : result (list json * string) :=
             match l with
             | [] => Ok ([], EmptyString)
             | it :: l' =>
                 r <- scan depth' it (trail ++ "[" ++ str_of_nat i ++ "]") ;;
                 match fst r with
                 | _ :: _ => Ok r
                 | [] => each (S i) l'
                 end
             end) O l
      | JDict d =>
          (fix each (d : list (string * json)) : result (list json * string) :=
             match d with
             | [] => Ok ([], EmptyString)
             | (k, v) :: d' =>
                 r <- scan depth' v (trail ++ "." ++ k) ;;
                 match fst r with
                 | _ :: _ => Ok r
                 | [] => each d'
                 end
             end) d
      | _ => Ok ([], EmptyString)
      end
  end.

(** The loop of line 263 over [try_paths]. *)
Fixpoint first_frame_list (paths : list (string * json)) : option (list json * string) :=
  match paths with
  | [] => None
  | (p, v) :: paths' =>
      match is_frame_list v with
      | Some l => Some (l, p)
      | None => first_frame_list paths'
      end
  end.

(** [_discover_frames(data)]; [depth] bounds the calls of [scan]. *)
Definition _discover_frames (depth : nat) (data : json) : result (list json * string) :=
  v1 <- get_or data "frames" JNull ;;
  v2 <- first_frames_of data "anims" ;;
  v3 <- first_frames_of data "animations" ;;
  v4 <- timeline_frames_of data ;;
  match first_frame_list [("frames", v1); ("anims[0].frames", v2);
                          ("animations[0].frames", v3); ("timeline.frames", v4)] with
  | Some r => Ok r
  | None => scan depth data "$"
  end.

(** Stable insertion by frame number: [sorted(labels.items(), key=lambda kv: kv[1])]. *)
Fixpoint insert_label (x : string * Z) (l : list (string * Z)) : list (string * Z) :=
  match l with
  | [] => [x]
  | y :: l' => if (snd x <=? snd y)%Z then x :: l else y :: insert_label x l'
  end.

Definition sorted_labels (labels : list (string * Z)) : list (string * Z) :=
  fold_right insert_label [] labels.

(** Lines 413-415 of [convert_bbone_to_xfl]: the label of the root frame. *)
Definition main_label (labels : list (string * Z)) : string :=
  match sorted_labels labels with
  | [] => "idle"
  | (l, _) :: _ => l
  end.

(** Lines 447-451: the alias map of the [--alias from=to] options. *)
Definition alias_map_of (pairs : list string) : list (string * string) :=
  fold_left
    (fun alias_map pair =>
       if contains_char "="%char pair
       then sset (_norm_name (before_first "="%char pair))
                 (_norm_name (after_first "="%char pair)) alias_map
       else alias_map)
    pairs [].

Local Open Scope list_scope.

(* ------------------------------------------------------------------ *)
(** ** More notions the statements use *)

(** [own_node children node]: [node] is one of [children] or lies below
    one of them through the nodes' own [children] lists. *)
Inductive own_node : json -> json -> Prop :=
| own_here l b : In b l -> own_node (JList l) b
| own_below l b d k node :
    In b l -> b = JDict d -> sget "children" d = Some (JList k) ->
    own_node (JList k) node -> own_node (JList l) node.

(** The last record of a frame filed under [key]. *)
Definition files_flat (key : string) (t : flat) : bool :=
  match flat_key t with
  | Ok k => String.eqb k key
  | Raise _ => false
  end.

Definition last_filed (key : string) (l : list flat) : option flat :=
  find (files_flat key) (rev l).

(** The children of a sprite frame filed under [n]. *)
Definition files_child (aliases : list (string * string)) (n : string) (ch : json) : bool :=
  match child_key aliases ch with
  | Ok (Some m) => String.eqb m n
  | _ => false
  end.

Definition occurrences (aliases : list (string * string)) (n : string) (l : list json) : nat :=
  length (filter (files_child aliases n) l).

(** [.png] in any letter case: a dot, then [p] or [P], [n] or [N], [g] or
    [G]. *)
Definition is_png_ext (e : string) : bool :=
  match e with
  | String c0 (String c1 (String c2 (String c3 EmptyString))) =>
      Ascii.eqb c0 "."%char
      && (Ascii.eqb c1 "p"%char || Ascii.eqb c1 "P"%char)
      && (Ascii.eqb c2 "n"%char || Ascii.eqb c2 "N"%char)
      && (Ascii.eqb c3 "g"%char || Ascii.eqb c3 "G"%char)
  | _ => false
  end.

(** The five spellings [build_png_index] enters a stem under. *)
Definition spellings (s : string) : list string :=
  [s; lower s; replace_char "."%char "_"%char s;
   replace_char "_"%char "."%char s;
   replace_char "."%char "_"%char (lower s)].

(** The length of the shared loop a node's children are taken from at any
    frame, 1 for a node that takes its own. *)
Definition loop_length (shared node : json) : nat :=
  match get_or node "references_shared_animation" JNull with
  | Ok ref =>
      if truthy ref then
        match shared_get shared ref with
        | Ok (JList ((_ :: _) as l)) => length l
        | _ => 1
        end
      else 1
  | Raise _ => 1
  end.

(** The first listed file one of whose spellings is [k]. *)
Definition first_spelled (k : string) (files : list string) : option string :=
  find (fun s => existsb (String.eqb k) (spellings s)) files.

(* ------------------------------------------------------------------ *)
(** ** Sample inputs *)

(** No string is read as a number. *)
Definition no_numeric_strings : string -> option float := fun _ => None.

(** A head with an eye at (5, 10), and the same eye under an unnamed group. *)
Definition ex_eye : json :=
  JDict [("name", JStr "eye");
         ("matrix", JDict [("tx", JNum 5); ("ty", JNum 10)])].

Definition ex_head : json :=
  JDict [("name", JStr "head"); ("children", JList [ex_eye])].

Definition ex_group : json :=
  JDict [("children", JList [ex_eye])].

Definition ex_frame : json := JDict [("children", JList [ex_head])].

(** The shared loop "blink" of two frames, a lid that refers to it and has
    a child of its own, and the same lid with a reference to nothing. *)
Definition ex_open : json := JList [JDict [("name", JStr "lid_open")]].
Definition ex_shut : json := JList [JDict [("name", JStr "lid_shut")]].
Definition ex_own : json := JList [JDict [("name", JStr "lash")]].

Definition ex_blink : list json :=
  [JDict [("children", ex_open)]; JDict [("children", ex_shut)]].

Definition ex_table : list (string * json) := [("blink", JList ex_blink)].

Definition ex_lid : list (string * json) :=
  [("name", JStr "lid");
   ("matrix", JDict [("tx", JNum 2)]);
   ("children", ex_own);
   ("references_shared_animation", JStr "blink")].

(** A loop whose first frame is a dict without [children] and whose second
    frame is [null]. *)
Definition ex_bare_table : list (string * json) :=
  [("blink", JList [JDict [("label", JStr "rest")]; JNull])].

(** A frame whose two roots are both named "a", and the index of a
    directory that holds [a.png]. *)
Definition ex_a : json := JDict [("name", JStr "a")].
Definition ex_two_a : json := JDict [("children", JList [ex_a; ex_a])].
Definition ex_idx_a : list (string * string) := build_png_index ["a"].

(** One frame with the head and the eye side by side; the catalogue entry
    of the eye puts its origin at (2, 3) and doubles its width. *)
Definition ex_flat_frame : json := JDict [("children", JList [ex_head; ex_eye])].

Definition ex_plist : list (string * json) :=
  [("eye", JDict [("origin_x", JNum 2); ("origin_y", JNum 3); ("scale_x", JNum 2)])].

(** An eye whose matrix has [null] for [a], and an eye with no matrix and
    no colour at all. *)
Definition ex_bad_eye : list (string * json) :=
  [("name", JStr "eye"); ("matrix", JDict [("a", JNull); ("tx", JNum 5)])].

Definition ex_bare_eye : list (string * json) := [("name", JStr "eye")].

(** The index of a directory that holds only [left_arm_01.png]. *)
Definition ex_idx_arm : list (string * string) := build_png_index ["left_arm_01"].

(** A frame whose lid hides a lash of its own below it. *)
Definition ex_lid_frame : json := JDict [("children", JList [JDict ex_lid])].

(** Two parts of one name in one frame, the second moved and half faded. *)
Definition ex_eye_again : json :=
  JDict [("name", JStr "eye");
         ("matrix", JDict [("tx", JNum 7)]);
         ("color", JDict [("alphaMultiplier", JNum 0.5)])].

Definition ex_twice : json := JDict [("children", JList [ex_eye; ex_eye_again])].

(* ------------------------------------------------------------------ *)
(** ** Properties *)

Local Open Scope list_scope.

(** *** The result monad *)

Lemma bind_ok {A B : Type} (c : result A) (k : A -> result B) (b : B) :
  bind c k = Ok b -> exists a, c = Ok a /\ k a = Ok b.
Proof.
  destruct c as [a|e]; simpl; intros H; [eauto | discriminate].
Qed.

Lemma bind_ok_eq {A B : Type} (c : result A) (k : A -> result B) (a : A) :
  c = Ok a -> bind c k = k a.
Proof. intros ->. reflexivity. Qed.

Ltac inv_bind H :=
  let x := fresh "x" in
  let Hx := fresh "Hx" in
  apply bind_ok in H; destruct H as (x & Hx & H).

Tactic Notation "bind_inv" hyp(H) "as" ident(x) ident(Hx) :=
  apply bind_ok in H; destruct H as (x & Hx & H).

Ltac inv_binds H :=
  repeat (let x := fresh "x" in
          let Hx := fresh "Hx" in
          apply bind_ok in H; destruct H as (x & Hx & H)).

(** *** The flattener *)

Section FlattenerFacts.

Variable float_of_str : string -> option float.
Variable shared : json.

Local Abbreviation compose_list' := (compose_list float_of_str shared).
Local Abbreviation compose_each' := (compose_each float_of_str shared).
Local Abbreviation node_local' := (node_local float_of_str).
Local Abbreviation reached' := (reached float_of_str shared).

Lemma compose_list_S (d : nat) (bone : json) (pw : affine) (pa : float) (fi : nat) :
  compose_list' (S d) bone pw pa fi =
  (nla <- node_local' bone ;;
   kids <- effective_kids shared bone fi ;;
   rest <- compose_each' d (walked kids)
             (mul pw (snd (fst nla))) (snd nla * pa) fi ;;
   Ok ((fst (fst nla), mul pw (snd (fst nla)), snd nla * pa) :: rest)).
Proof.
  cbn [compose_list].
  destruct (node_local' bone) as [[[name local] am]|e]; cbn [bind fst snd]; [|reflexivity].
  destruct (effective_kids shared bone fi) as [kids|e]; cbn [bind]; [|reflexivity].
  match goal with
  | |- bind ?f _ = bind ?g _ => assert (E : f = g); [|rewrite E; reflexivity]
  end.
  induction (walked kids) as [|ch l IH]; [reflexivity|].
  cbn [compose_each]. rewrite <- IH. reflexivity.
Qed.

Lemma compose_list_ok (d : nat) (bone : json) (pw : affine) (pa : float) (fi : nat)
      (out : list flat) :
  compose_list' d bone pw pa fi = Ok out ->
  exists d' name local am kids rest,
    d = S d' /\
    node_local' bone = Ok (name, local, am) /\
    effective_kids shared bone fi = Ok kids /\
    compose_each' d' (walked kids) (mul pw local) (am * pa) fi = Ok rest /\
    out = (name, mul pw local, am * pa) :: rest.
Proof.
  destruct d as [|d']; [discriminate|].
  rewrite compose_list_S. intros H.
  inv_bind H. destruct x as [[name local] am]. cbn [fst snd] in H.
  inv_bind H. inv_bind H. injection H as <-.
  exists d', name, local, am, x, x0. auto.
Qed.

Lemma compose_each_ok (d : nat) (l : list json) (pw : affine) (pa : float) (fi : nat)
      (r : list flat) :
  compose_each' d l pw pa fi = Ok r ->
  exists outs,
    Forall2 (fun ch o => compose_list' d ch pw pa fi = Ok o) l outs /\
    r = concat outs.
Proof.
  revert r. induction l as [|ch l IH]; cbn [compose_each]; intros r H.
  - injection H as <-. exists []. split; [constructor | reflexivity].
  - inv_bind H. inv_bind H. injection H as <-.
    destruct (IH _ Hx0) as (outs & HF & ->).
    exists (x :: outs). split; [constructor; assumption | reflexivity].
Qed.

Lemma Forall2_concat_in {A B : Type} (R : A -> list B -> Prop) (l : list A)
      (outs : list (list B)) (t : B) :
  Forall2 R l outs ->
  In t (concat outs) ->
  exists a o, In a l /\ R a o /\ In t o.
Proof.
  induction 1 as [|a o l outs Hao HF IH]; cbn [concat]; intros Ht; [destruct Ht|].
  apply in_app_iff in Ht. destruct Ht as [Ht | Ht].
  - exists a, o. cbn. auto.
  - destruct (IH Ht) as (a' & o' & Ha & HR & Hto).
    exists a', o'. cbn. auto.
Qed.

Lemma Forall2_pick {A B : Type} (R : A -> B -> Prop) (l : list A) (outs : list B) (a : A) :
  Forall2 R l outs -> In a l -> exists o, In o outs /\ R a o.
Proof.
  induction 1 as [|a0 o l outs Hao HF IH]; intros Ha; [destruct Ha|].
  destruct Ha as [<- | Ha].
  - exists o. split; [left; reflexivity | assumption].
  - destruct (IH Ha) as (o' & Ho' & HR). exists o'. split; [right; assumption | assumption].
Qed.

(** Every record of the output comes from a node the traversal reaches,
    with the matrix and alpha composed along the path. *)
Lemma compose_list_sound (d : nat) :
  forall bone pw pa fi out t,
    compose_list' d bone pw pa fi = Ok out ->
    In t out ->
    exists node pw' pa' name local am,
      reached' fi bone pw pa node pw' pa' /\
      node_local' node = Ok (name, local, am) /\
      t = (name, mul pw' local, am * pa').
Proof.
  induction d as [|d IH]; intros bone pw pa fi out t H Ht; [discriminate|].
  destruct (compose_list_ok _ _ _ _ _ _ H)
    as (d' & name & local & am & kids & rest & Hd & Hnl & Hk & Hrest & ->).
  injection Hd as <-.
  destruct Ht as [<- | Ht].
  - exists bone, pw, pa, name, local, am.
    split; [constructor | auto].
  - destruct (compose_each_ok _ _ _ _ _ _ Hrest) as (outs & HF & ->).
    apply (Forall2_concat_in _ _ _ _ HF) in Ht.
    destruct Ht as (ch & o & Hch & Ho & Hto).
    destruct (IH _ _ _ _ _ _ Ho Hto)
      as (node & pw' & pa' & name' & local' & am' & Hr & Hnl' & ->).
    exists node, pw', pa', name', local', am'.
    split; [|auto].
    eapply reached_below; eassumption.
Qed.

(** Every node the traversal reaches has its record in the output. *)
Lemma compose_list_complete (fi : nat) :
  forall bone pw pa node pw' pa',
    reached' fi bone pw pa node pw' pa' ->
    forall d out name local am,
      compose_list' d bone pw pa fi = Ok out ->
      node_local' node = Ok (name, local, am) ->
      In (name, mul pw' local, am * pa') out.
Proof.
  induction 1 as [bone pw pa
                 | bone pw pa name0 local0 am0 kids ch node pw' pa' Hnl0 Hk Hch Hr IH];
    intros d out name local am H Hnl.
  - destruct (compose_list_ok _ _ _ _ _ _ H)
      as (d' & name1 & local1 & am1 & kids1 & rest & _ & Hnl1 & _ & _ & ->).
    rewrite Hnl in Hnl1. injection Hnl1 as <- <- <-. left. reflexivity.
  - destruct (compose_list_ok _ _ _ _ _ _ H)
      as (d' & name1 & local1 & am1 & kids1 & rest & _ & Hnl1 & Hk1 & Hrest & ->).
    rewrite Hnl0 in Hnl1. injection Hnl1 as <- <- <-.
    rewrite Hk in Hk1. injection Hk1 as <-.
    destruct (compose_each_ok _ _ _ _ _ _ Hrest) as (outs & HF & ->).
    destruct (Forall2_pick _ _ _ _ HF Hch) as (o & Ho & Hco).
    right. apply in_concat. exists o. split; [assumption|].
    eapply IH; eassumption.
Qed.

(** A deeper allowance does not change a result. *)
Lemma compose_list_deeper (d : nat) :
  forall bone pw pa fi out,
    compose_list' d bone pw pa fi = Ok out ->
    compose_list' (S d) bone pw pa fi = Ok out.
Proof.
  induction d as [|d IH]; intros bone pw pa fi out H; [discriminate|].
  rewrite compose_list_S in H. rewrite compose_list_S.
  destruct (node_local' bone) as [nla|e]; cbn [bind] in *; [|discriminate].
  destruct (effective_kids shared bone fi) as [kids|e]; cbn [bind] in *; [|discriminate].
  inv_bind H. injection H as <-.
  assert (E : compose_each' (S d) (walked kids) (mul pw (snd (fst nla))) (snd nla * pa) fi
              = Ok x).
  { clear - IH Hx. revert x Hx.
    generalize (mul pw (snd (fst nla))) (snd nla * pa)%float.
    induction (walked kids) as [|ch l IHl]; cbn [compose_each]; intros w a r H.
    - assumption.
    - inv_bind H. inv_bind H. injection H as <-.
      rewrite (IH _ _ _ _ _ Hx), (IHl _ _ _ Hx0). reflexivity. }
  rewrite E. reflexivity.
Qed.

Lemma compose_each_returns (d : nat) (l : list json) (fi : nat) :
  (forall ch, In ch l -> forall pw pa, exists o, compose_list' d ch pw pa fi = Ok o) ->
  forall pw pa, exists r, compose_each' d l pw pa fi = Ok r.
Proof.
  induction l as [|ch l IH]; intros Hl pw pa; cbn [compose_each].
  - exists []. reflexivity.
  - destruct (Hl ch (or_introl eq_refl) pw pa) as (o & ->).
    destruct (IH (fun c Hc => Hl c (or_intror Hc)) pw pa) as (r & ->).
    exists (o ++ r). reflexivity.
Qed.

(** With readable fields all the way down and the nesting within the
    allowance, [compose_list] returns its records. *)
Lemma compose_list_returns (fi h : nat) (bone : json) :
  flattens float_of_str shared fi h bone ->
  forall pw pa, exists out, compose_list' h bone pw pa fi = Ok out.
Proof.
  induction 1 as [h bone nla kids Hnl Hk _ IH]. intros pw pa.
  rewrite compose_list_S, Hnl. cbn [bind]. rewrite Hk. cbn [bind].
  destruct (compose_each_returns h (walked kids) fi IH
              (mul pw (snd (fst nla))) (snd nla * pa)%float) as (r & ->).
  cbn [bind]. eauto.
Qed.

Lemma compose_list_flattens (d : nat) :
  forall bone pw pa fi out,
    compose_list' d bone pw pa fi = Ok out ->
    flattens float_of_str shared fi d bone.
Proof.
  induction d as [|d IH]; intros bone pw pa fi out H; [discriminate|].
  destruct (compose_list_ok _ _ _ _ _ _ H)
    as (d' & name & local & am & kids & rest & Hd & Hnl & Hk & Hrest & _).
  injection Hd as <-.
  econstructor; [eassumption | eassumption |].
  intros ch Hch. destruct (compose_each_ok _ _ _ _ _ _ Hrest) as (outs & HF & _).
  destruct (Forall2_pick _ _ _ _ HF Hch) as (o & _ & Ho).
  eapply IH. eassumption.
Qed.

End FlattenerFacts.

(** *** Dictionaries *)

Section DictFacts.

Context {K V : Type} (keq : K -> K -> bool).
Hypothesis keq_eq : forall a b, keq a b = true <-> a = b.

Lemma keq_refl (a : K) : keq a a = true.
Proof. apply keq_eq. reflexivity. Qed.

Lemma keq_neq (a b : K) : a <> b -> keq a b = false.
Proof.
  intros H. destruct (keq a b) eqn:E; [|reflexivity].
  apply keq_eq in E. contradiction.
Qed.

Lemma dict_get_set_same (k : K) (v : V) (d : list (K * V)) :
  dict_get keq k (dict_set keq k v d) = Some v.
Proof.
  induction d as [|[k' v'] d IH]; cbn.
  - rewrite keq_refl. reflexivity.
  - destruct (keq k' k) eqn:E; cbn; rewrite E; [reflexivity | exact IH].
Qed.

Lemma dict_get_set_other (k k' : K) (v : V) (d : list (K * V)) :
  k' <> k -> dict_get keq k' (dict_set keq k v d) = dict_get keq k' d.
Proof.
  intros Hne. induction d as [|[k0 v0] d IH]; cbn.
  - rewrite keq_neq by auto. reflexivity.
  - destruct (keq k0 k) eqn:E; cbn.
    + apply keq_eq in E. subst k0. rewrite keq_neq by auto. reflexivity.
    + destruct (keq k0 k'); [reflexivity | exact IH].
Qed.

Lemma dict_mem_in (k : K) (d : list (K * V)) :
  dict_mem keq k d = true <-> In k (dict_keys d).
Proof.
  unfold dict_mem, dict_keys. induction d as [|[k' v'] d IH]; cbn.
  - split; [discriminate | intros []].
  - destruct (keq k' k) eqn:E.
    + apply keq_eq in E. split; auto.
    + rewrite IH. split; [auto | intros [H | H]; [|assumption]].
      apply keq_eq in H. congruence.
Qed.

Lemma dict_keys_set_mem (k : K) (v : V) (d : list (K * V)) :
  dict_mem keq k d = true -> dict_keys (dict_set keq k v d) = dict_keys d.
Proof.
  unfold dict_mem, dict_keys. induction d as [|[k' v'] d IH]; cbn; [discriminate|].
  destruct (keq k' k) eqn:E; cbn; [reflexivity|].
  intros H. rewrite IH by assumption. reflexivity.
Qed.

Lemma dict_keys_set_new (k : K) (v : V) (d : list (K * V)) :
  dict_mem keq k d = false -> dict_keys (dict_set keq k v d) = dict_keys d ++ [k].
Proof.
  unfold dict_mem, dict_keys. induction d as [|[k' v'] d IH]; cbn; [reflexivity|].
  destruct (keq k' k) eqn:E; cbn; [discriminate|].
  intros H. rewrite IH by assumption. reflexivity.
Qed.

Lemma dict_keys_set_nodup (k : K) (v : V) (d : list (K * V)) :
  NoDup (dict_keys d) -> NoDup (dict_keys (dict_set keq k v d)).
Proof.
  intros H. destruct (dict_mem keq k d) eqn:E.
  - rewrite dict_keys_set_mem by assumption. assumption.
  - rewrite dict_keys_set_new by assumption.
    apply NoDup_app; [assumption | constructor; [intros [] | constructor] |].
    intros x Hx [<- | []].
    apply dict_mem_in in Hx. congruence.
Qed.

End DictFacts.

Lemma sget_sset_same {V : Type} (k : string) (v : V) (d : list (string * V)) :
  sget k (sset k v d) = Some v.
Proof. apply dict_get_set_same, String.eqb_eq. Qed.

Lemma sget_sset_other {V : Type} (k k' : string) (v : V) (d : list (string * V)) :
  k' <> k -> sget k' (sset k v d) = sget k' d.
Proof. apply dict_get_set_other, String.eqb_eq. Qed.

Lemma nget_nset_same {V : Type} (k : nat) (v : V) (d : list (nat * V)) :
  nget k (nset k v d) = Some v.
Proof. apply dict_get_set_same, Nat.eqb_eq. Qed.

Lemma nget_nset_other {V : Type} (k k' : nat) (v : V) (d : list (nat * V)) :
  k' <> k -> nget k' (nset k v d) = nget k' d.
Proof. apply dict_get_set_other, Nat.eqb_eq. Qed.

Lemma smem_in {V : Type} (k : string) (d : list (string * V)) :
  smem k d = true <-> In k (dict_keys d).
Proof. apply dict_mem_in, String.eqb_eq. Qed.

Lemma smem_sget {V : Type} (k : string) (d : list (string * V)) :
  smem k d = true <-> exists v, sget k d = Some v.
Proof.
  unfold dict_mem. destruct (sget k d) as [v|].
  - split; eauto.
  - split; [discriminate | intros (v & H); discriminate].
Qed.

(** *** The keyframe tracks of the stage *)

Section TrackFacts.

Variable float_of_str : string -> option float.
Variable shared : json.
Variable depth : nat.

Local Abbreviation record_bones' := (record_bones float_of_str shared depth).
Local Abbreviation record_frames' := (record_frames float_of_str shared depth).
Local Abbreviation frame_flats' := (frame_flats float_of_str shared depth).

Lemma record_flat_ok (fi : nat) (lf lf' : layer_table) (t : flat) :
  record_flat fi lf t = Ok lf' ->
  exists key,
    flat_key t = Ok key /\
    ((sget key lf = None /\ lf' = lf) \/
     (exists slots, sget key lf = Some slots /\
                    lf' = sset key (nset fi (entry_of key t) slots) lf)).
Proof.
  destruct t as [[nm M] al]. unfold record_flat, flat_key. cbn [fst snd].
  intros H. inv_bind H. exists x. split; [assumption|].
  destruct (sget x lf) as [slots|] eqn:E; injection H as <-.
  - right. exists slots. auto.
  - left. auto.
Qed.

Lemma record_flat_keys (fi : nat) (lf lf' : layer_table) (t : flat) :
  record_flat fi lf t = Ok lf' -> dict_keys lf' = dict_keys lf.
Proof.
  intros H. destruct (record_flat_ok _ _ _ _ H) as (key & _ & [[_ ->] | (slots & E & ->)]).
  - reflexivity.
  - apply dict_keys_set_mem.
    apply smem_sget. eauto.
Qed.

Lemma record_flat_hit (fi : nat) (lf lf' : layer_table) (t : flat) (key : string) :
  record_flat fi lf t = Ok lf' ->
  flat_key t = Ok key ->
  smem key lf = true ->
  slot lf' key fi = Some (entry_of key t).
Proof.
  intros H Hk Hm. destruct (record_flat_ok _ _ _ _ H) as (key' & Hk' & Hcase).
  rewrite Hk in Hk'. injection Hk' as <-.
  apply smem_sget in Hm. destruct Hm as (slots & Hs).
  destruct Hcase as [[E _] | (slots' & E & ->)]; [congruence|].
  unfold slot. rewrite sget_sset_same, nget_nset_same. reflexivity.
Qed.

Lemma record_flat_miss (fi fi' : nat) (lf lf' : layer_table) (t : flat) (key : string) :
  record_flat fi lf t = Ok lf' ->
  flat_key t <> Ok key \/ fi' <> fi ->
  slot lf' key fi' = slot lf key fi'.
Proof.
  intros H Hne. destruct (record_flat_ok _ _ _ _ H) as (key' & Hk' & Hcase).
  destruct Hcase as [[_ ->] | (slots & E & ->)]; [reflexivity|].
  unfold slot. destruct (String.eqb_spec key key') as [<- | Hkk].
  - rewrite sget_sset_same, E.
    destruct Hne as [Hne | Hne]; [congruence|].
    apply nget_nset_other. assumption.
  - rewrite sget_sset_other by assumption. reflexivity.
Qed.

Lemma record_flats_keys (fi : nat) (l : list flat) :
  forall lf lf', record_flats fi lf l = Ok lf' -> dict_keys lf' = dict_keys lf.
Proof.
  induction l as [|t l IH]; cbn [record_flats]; intros lf lf' H.
  - injection H as <-. reflexivity.
  - inv_bind H. rewrite (IH _ _ H). eapply record_flat_keys; eassumption.
Qed.

Lemma record_flats_miss (fi fi' : nat) (key : string) (l : list flat) :
  forall lf lf',
    record_flats fi lf l = Ok lf' ->
    fi' <> fi \/ (forall t, In t l -> flat_key t <> Ok key) ->
    slot lf' key fi' = slot lf key fi'.
Proof.
  induction l as [|t l IH]; cbn [record_flats]; intros lf lf' H Hne.
  - injection H as <-. reflexivity.
  - inv_bind H. rewrite (IH _ _ H).
    + eapply record_flat_miss; [eassumption|].
      destruct Hne as [Hne | Hne]; [right; assumption | left; apply Hne; left; reflexivity].
    + destruct Hne as [Hne | Hne]; [left; assumption | right].
      intros t' Ht'. apply Hne. right. assumption.
Qed.

Lemma record_flats_app (fi : nat) (l1 l2 : list flat) :
  forall lf,
    record_flats fi lf (l1 ++ l2) =
    (lf1 <- record_flats fi lf l1 ;; record_flats fi lf1 l2).
Proof.
  induction l1 as [|t l1 IH]; cbn [record_flats app]; intros lf; [reflexivity|].
  destruct (record_flat fi lf t) as [lf0|e]; cbn [bind]; [apply IH | reflexivity].
Qed.

(** Of the records of one frame filed under a layer key, the last one is
    the slot. *)
Lemma record_flats_last (fi : nat) (l1 l2 : list flat) (t : flat) (key : string)
      (lf lf' : layer_table) :
  record_flats fi lf (l1 ++ t :: l2) = Ok lf' ->
  flat_key t = Ok key ->
  smem key lf = true ->
  (forall t', In t' l2 -> flat_key t' <> Ok key) ->
  slot lf' key fi = Some (entry_of key t).
Proof.
  intros H Hk Hm Hl2. rewrite record_flats_app in H. inv_bind H.
  cbn [record_flats] in H. inv_bind H.
  rewrite (record_flats_miss fi fi key l2 _ _ H) by (right; assumption).
  eapply record_flat_hit; [eassumption | assumption |].
  apply smem_in. rewrite (record_flats_keys _ _ _ _ Hx). apply smem_in. assumption.
Qed.

(** The loop over the roots files the frame's records in traversal order. *)
Lemma record_bones_flats (fi : nat) (bones : list json) :
  forall lf lf',
    record_bones' fi lf bones = Ok lf' ->
    exists flats,
      compose_each float_of_str shared depth bones mat 1 fi = Ok flats /\
      record_flats fi lf flats = Ok lf'.
Proof.
  induction bones as [|b bones IH]; cbn [record_bones compose_each]; intros lf lf' H.
  - injection H as <-. exists []. auto.
  - inv_bind H. inv_bind H. destruct (IH _ _ H) as (flats & Hc & Hr).
    exists (x ++ flats). rewrite Hx, Hc. cbn [bind]. split; [reflexivity|].
    rewrite record_flats_app, Hx0. exact Hr.
Qed.

Lemma record_frames_keys (frames : list json) :
  forall fi lf lf',
    record_frames' fi lf frames = Ok lf' -> dict_keys lf' = dict_keys lf.
Proof.
  induction frames as [|fr frames IH]; cbn [record_frames]; intros fi lf lf' H.
  - injection H as <-. reflexivity.
  - inv_bind H. inv_bind H. inv_bind H. rewrite (IH _ _ _ H).
    destruct (record_bones_flats _ _ _ _ Hx1) as (flats & _ & Hr).
    eapply record_flats_keys; eassumption.
Qed.

Lemma record_frames_before (frames : list json) :
  forall fi lf lf' key fi',
    record_frames' fi lf frames = Ok lf' ->
    (fi' < fi)%nat ->
    slot lf' key fi' = slot lf key fi'.
Proof.
  induction frames as [|fr frames IH]; cbn [record_frames]; intros fi lf lf' key fi' H Hlt.
  - injection H as <-. reflexivity.
  - inv_bind H. inv_bind H. inv_bind H.
    rewrite (IH _ _ _ key fi' H) by lia.
    destruct (record_bones_flats _ _ _ _ Hx1) as (flats & _ & Hr).
    eapply record_flats_miss; [eassumption | left; lia].
Qed.

(** Frame [i] of the list is flattened with outer index [fi + i], and its
    slots are what the records of that frame leave. *)
Lemma record_frames_nth (frames : list json) :
  forall fi lf lf' i fr,
    record_frames' fi lf frames = Ok lf' ->
    nth_error frames i = Some fr ->
    exists flats lf0 lf1,
      frame_flats' (fi + i) fr = Ok flats /\
      dict_keys lf0 = dict_keys lf /\
      record_flats (fi + i) lf0 flats = Ok lf1 /\
      forall key, slot lf' key (fi + i) = slot lf1 key (fi + i).
Proof.
  induction frames as [|fr0 frames IH]; intros fi lf lf' i fr H Hi.
  - destruct i; discriminate.
  - cbn [record_frames] in H. inv_bind H. inv_bind H. inv_bind H.
    destruct (record_bones_flats _ _ _ _ Hx1) as (flats & Hc & Hr).
    destruct i as [|i]; cbn [nth_error] in Hi.
    + injection Hi as <-. rewrite Nat.add_0_r.
      exists flats, lf, x1. unfold frame_flats, frame_roots.
      rewrite Hx. cbn [bind]. rewrite Hx0. cbn [bind].
      split; [assumption|]. split; [reflexivity|]. split; [assumption|].
      intros key. eapply record_frames_before; [eassumption | lia].
    + destruct (IH _ _ _ _ _ H Hi) as (flats' & lf0 & lf1 & Hf & Hkeys & Hrec & Hslot).
      replace (fi + S i)%nat with (S fi + i)%nat by lia.
      exists flats', lf0, lf1. split; [assumption|]. split; [|auto].
      rewrite Hkeys. eapply record_flats_keys; eassumption.
Qed.

End TrackFacts.

(** *** World matrices and alphas of the flattened records *)

(** C1 (as amended).  For every frame index [fi] of the timeline that [main]
    flattens, the records of frame [fi] are exactly the records of the nodes
    the depth-first traversal reaches from the frame's roots, entered with
    the identity matrix and alpha 1.0: the record of a node reached with
    parent state [(pw, pa)] holds the node's name, the world matrix
    [pw . local] with the six components written out below, and the world
    alpha [alphaMultiplier * pa].  A record is there for every reached
    node, whatever its name.  The records of a frame are returned whenever
    the fields of its nodes can be read and the traversal nests within the
    allowed depth. *)
Theorem flattener_world_state :
  (forall (float_of_str : string -> option float) (shared : json) (depth : nat)
          (frames : list json) (lf0 lf : layer_table) (fi : nat) (fr : json),
      record_frames float_of_str shared depth 0 lf0 frames = Ok lf ->
      nth_error frames fi = Some fr ->
      exists bones out,
        frame_roots fr = Ok bones /\
        frame_flats float_of_str shared depth fi fr = Ok out /\
        forall t,
          In t out <->
          exists root node pw pa name local am,
            In root bones /\
            reached float_of_str shared fi root mat 1 node pw pa /\
            node_local float_of_str node = Ok (name, local, am) /\
            t = (name,
                 Affine (m_a pw * m_a local + m_c pw * m_b local)
                        (m_b pw * m_a local + m_d pw * m_b local)
                        (m_a pw * m_c local + m_c pw * m_d local)
                        (m_b pw * m_c local + m_d pw * m_d local)
                        (m_a pw * m_tx local + m_c pw * m_ty local + m_tx pw)
                        (m_b pw * m_tx local + m_d pw * m_ty local + m_ty pw),
                 (am * pa)%float))
  /\
  (forall (float_of_str : string -> option float) (shared : json) (depth : nat)
          (fi : nat) (fr : json) (bones : list json),
      frame_roots fr = Ok bones ->
      (forall root, In root bones -> flattens float_of_str shared fi depth root) ->
      exists out, frame_flats float_of_str shared depth fi fr = Ok out).
Proof.
  split.
  - intros float_of_str shared depth frames lf0 lf fi fr Hrec Hnth.
    destruct (record_frames_nth _ _ _ _ _ _ _ _ _ Hrec Hnth)
      as (out & _ & _ & Hflats & _).
    cbn [Nat.add] in Hflats.
    pose proof Hflats as Hf. unfold frame_flats in Hf. bind_inv Hf as bones Hbones.
    exists bones, out. split; [assumption|]. split; [assumption|].
    destruct (compose_each_ok _ _ _ _ _ _ _ _ Hf) as (outs & HF & ->).
    intros t. split.
    + intros Ht. apply (Forall2_concat_in _ _ _ _ HF) in Ht.
      destruct Ht as (root & o & Hroot & Ho & Hto).
      destruct (compose_list_sound _ _ _ _ _ _ _ _ _ Ho Hto)
        as (node & pw & pa & name & local & am & Hr & Hnl & ->).
      exists root, node, pw, pa, name, local, am. auto.
    + intros (root & node & pw & pa & name & local & am & Hroot & Hr & Hnl & ->).
      destruct (Forall2_pick _ _ _ _ HF Hroot) as (o & Ho & Hco).
      apply in_concat. exists o. split; [assumption|].
      exact (compose_list_complete _ _ _ _ _ _ _ _ _ Hr _ _ _ _ _ Hco Hnl).
  - intros float_of_str shared depth fi fr bones Hbones Hwf.
    unfold frame_flats. rewrite Hbones. cbn [bind].
    apply compose_each_returns. intros ch Hch.
    apply compose_list_returns. apply Hwf. assumption.
Qed.

(** The head-and-eye frame: the theorem at a concrete timeline. *)
Lemma flattener_world_state_witness :
  (exists bones out,
      frame_roots ex_frame = Ok bones /\
      frame_flats no_numeric_strings (JDict []) 5 0 ex_frame = Ok out /\
      forall t,
        In t out <->
        exists root node pw pa name local am,
          In root bones /\
          reached no_numeric_strings (JDict []) 0 root mat 1 node pw pa /\
          node_local no_numeric_strings node = Ok (name, local, am) /\
          t = (name,
               Affine (m_a pw * m_a local + m_c pw * m_b local)
                      (m_b pw * m_a local + m_d pw * m_b local)
                      (m_a pw * m_c local + m_c pw * m_d local)
                      (m_b pw * m_c local + m_d pw * m_d local)
                      (m_a pw * m_tx local + m_c pw * m_ty local + m_tx pw)
                      (m_b pw * m_tx local + m_d pw * m_ty local + m_ty pw),
               (am * pa)%float))
  /\
  exists out, frame_flats no_numeric_strings (JDict []) 2 0 ex_frame = Ok out.
Proof.
  split.
  - eapply (proj1 flattener_world_state no_numeric_strings (JDict []) 5%nat
              [ex_frame] [("eye"%string, [])] _ 0%nat ex_frame).
    + vm_compute. reflexivity.
    + reflexivity.
  - apply (proj2 flattener_world_state no_numeric_strings (JDict []) 2%nat 0%nat
             ex_frame [ex_head] eq_refl).
    intros root [<- | []].
    eapply flattens_node; [reflexivity | reflexivity |].
    intros ch [<- | []].
    eapply flattens_node; [reflexivity | reflexivity |].
    intros ch [].
Defined.

(** The records of the head-and-eye frame, computed. *)
Example flatten_head_eye :
  frame_flats no_numeric_strings (JDict []) 5 0 ex_frame =
  Ok [(JStr "head", Affine 1 0 0 1 0 0, 1%float);
      (JStr "eye", Affine 1 0 0 1 5 10, 1%float)].
Proof. vm_compute. reflexivity. Qed.

(** C1, counterexample: the unnamed group node has a record of its own in
    the output of [compose_list], with the empty name; the eye below it
    follows. *)
Lemma unnamed_node_is_emitted :
  compose_list no_numeric_strings (JDict []) 5 ex_group mat 1 0 =
  Ok [(JStr EmptyString, Affine 1 0 0 1 0 0, 1%float);
      (JStr "eye", Affine 1 0 0 1 5 10, 1%float)].
Proof. vm_compute. reflexivity. Qed.

(** *** The per-frame piece map of the sprite *)

Section PieceMapFacts.

Variable aliases : list (string * string).

Lemma file_child_ok (per per' : list (string * json)) (counts counts' : list (string * nat))
      (ch : json) :
  file_child aliases (per, counts) ch = Ok (per', counts') ->
  (child_key aliases ch = Ok None /\ per' = per) \/
  (exists n, child_key aliases ch = Ok (Some n) /\ per' = sset n ch per).
Proof.
  unfold file_child, child_key. intros H. inv_bind H. inv_bind H.
  rewrite Hx. cbn [bind]. rewrite Hx0.
  destruct x0 as [n|]; injection H as <- <-.
  - right. exists n. auto.
  - left. auto.
Qed.

Lemma file_children_miss (n : string) (l : list json) :
  forall per per' counts counts',
    file_children aliases (per, counts) l = Ok (per', counts') ->
    (forall ch, In ch l -> child_key aliases ch <> Ok (Some n)) ->
    sget n per' = sget n per.
Proof.
  induction l as [|ch l IH]; cbn [file_children]; intros per per' counts counts' H Hl.
  - injection H as <- <-. reflexivity.
  - inv_bind H. destruct x as [per0 counts0].
    rewrite (IH _ _ _ _ H) by (intros ch' Hch'; apply Hl; right; assumption).
    destruct (file_child_ok _ _ _ _ _ Hx) as [[_ ->] | (n' & Hk & ->)]; [reflexivity|].
    apply sget_sset_other. intros ->.
    apply (Hl ch); [left; reflexivity | assumption].
Qed.

(** Of the children of one frame filed under a name, the last one is the
    entry of the frame's map. *)
Lemma file_children_last (n : string) (l1 l2 : list json) (ch : json) :
  forall per per' counts counts',
    file_children aliases (per, counts) (l1 ++ ch :: l2) = Ok (per', counts') ->
    child_key aliases ch = Ok (Some n) ->
    (forall ch', In ch' l2 -> child_key aliases ch' <> Ok (Some n)) ->
    sget n per' = Some ch.
Proof.
  induction l1 as [|c l1 IH]; cbn [app file_children]; intros per per' counts counts' H Hk Hl2.
  - inv_bind H. destruct x as [per0 counts0].
    rewrite (file_children_miss n l2 _ _ _ _ H Hl2).
    destruct (file_child_ok _ _ _ _ _ Hx) as [[Hk' _] | (n' & Hk' & ->)]; [congruence|].
    rewrite Hk in Hk'. injection Hk' as <-. apply sget_sset_same.
  - inv_bind H. destruct x as [per0 counts0]. eapply IH; eassumption.
Qed.

Lemma build_fmap_ok (frames : list json) :
  forall fmap0 counts0 fmap counts,
    build_fmap aliases frames fmap0 counts0 = Ok (fmap, counts) ->
    exists pers,
      fmap = fmap0 ++ pers /\
      Forall2 (fun f per =>
                 exists l c0 c1,
                   frame_children f = Ok l /\
                   file_children aliases ([], c0) l = Ok (per, c1))
              frames pers.
Proof.
  induction frames as [|f frames IH]; cbn [build_fmap]; intros fmap0 counts0 fmap counts H.
  - injection H as <- <-. exists []. rewrite app_nil_r. split; [reflexivity | constructor].
  - inv_bind H. inv_bind H. destruct x0 as [per c1]. cbn [fst snd] in H.
    destruct (IH _ _ _ _ H) as (pers & -> & HF).
    exists (per :: pers). rewrite <- app_assoc. split; [reflexivity|].
    constructor; [|assumption]. exists x, counts0, c1. auto.
Qed.

Lemma build_fmap_nth (frames : list json) (fmap : list (list (string * json)))
      (counts : list (string * nat)) (i : nat) (f : json) :
  build_fmap aliases frames [] [] = Ok (fmap, counts) ->
  nth_error frames i = Some f ->
  exists per l c0 c1,
    nth_error fmap i = Some per /\
    frame_children f = Ok l /\
    file_children aliases ([], c0) l = Ok (per, c1).
Proof.
  intros H Hi. destruct (build_fmap_ok _ _ _ _ _ H) as (pers & -> & HF).
  cbn [app]. clear H. revert i Hi.
  induction HF as [|f0 per0 frames pers H0 HF IH]; intros i Hi.
  - destruct i; discriminate.
  - destruct i as [|i]; cbn [nth_error] in *.
    + injection Hi as <-. destruct H0 as (l & c0 & c1 & Hl & Hc).
      exists per0, l, c0, c1. auto.
    + apply IH. assumption.
Qed.

End PieceMapFacts.

(** *** Last occurrence wins *)

(** C7.  When one piece name has several instances within one frame, the
    slot of that piece at that frame is the last of them in traversal
    order.  In [_sprite_symbol]: of the children of frame [i] filed under
    the name [n], the last one is [fmap[i][n]].  In the stage timeline of
    [main]: of the flattened records of frame [fi] filed under the layer
    key [key], the last one is [layer_frames[key][fi]]. *)
Theorem last_occurrence_wins :
  (forall (aliases : list (string * string)) (frames : list json)
          (fmap : list (list (string * json))) (counts : list (string * nat))
          (i : nat) (f : json) (l1 l2 : list json) (ch : json) (n : string),
      build_fmap aliases frames [] [] = Ok (fmap, counts) ->
      nth_error frames i = Some f ->
      frame_children f = Ok (l1 ++ ch :: l2) ->
      child_key aliases ch = Ok (Some n) ->
      (forall ch', In ch' l2 -> child_key aliases ch' <> Ok (Some n)) ->
      exists per, nth_error fmap i = Some per /\ sget n per = Some ch)
  /\
  (forall (float_of_str : string -> option float) (shared : json) (depth : nat)
          (frames : list json) (lf0 lf : layer_table) (fi : nat) (fr : json)
          (l1 l2 : list flat) (t : flat) (key : string),
      record_frames float_of_str shared depth 0 lf0 frames = Ok lf ->
      nth_error frames fi = Some fr ->
      frame_flats float_of_str shared depth fi fr = Ok (l1 ++ t :: l2) ->
      flat_key t = Ok key ->
      smem key lf0 = true ->
      (forall t', In t' l2 -> flat_key t' <> Ok key) ->
      slot lf key fi = Some (entry_of key t)).
Proof.
  split.
  - intros aliases frames fmap counts i f l1 l2 ch n Hb Hi Hf Hk Hl2.
    destruct (build_fmap_nth _ _ _ _ _ _ Hb Hi) as (per & l & c0 & c1 & Hn & Hl & Hc).
    rewrite Hf in Hl. injection Hl as <-.
    exists per. split; [assumption|].
    eapply file_children_last; eassumption.
  - intros float_of_str shared depth frames lf0 lf fi fr l1 l2 t key Hrec Hnth Hf Hk Hm Hl2.
    destruct (record_frames_nth _ _ _ _ _ _ _ _ _ Hrec Hnth)
      as (flats & lfa & lfb & Hflats & Hkeys & Hr & Hslot).
    cbn [Nat.add] in *. rewrite Hf in Hflats. injection Hflats as <-.
    rewrite Hslot.
    eapply record_flats_last; [eassumption | assumption | | assumption].
    apply smem_in. rewrite Hkeys. apply smem_in. assumption.
Qed.

(** The frame with two eyes: in both converters the slot holds the second. *)
Lemma last_occurrence_wins_witness :
  (exists per,
      nth_error [[("eye", ex_eye_again)]] 0 = Some per /\
      sget "eye" per = Some ex_eye_again)
  /\
  slot [("eye", [(0%nat, Entry "sprite/eye" (Affine 1 0 0 1 7 0) 0.5)])] "eye" 0
  = Some (entry_of "eye" (JStr "eye", Affine 1 0 0 1 7 0, 0.5%float)).
Proof.
  split.
  - apply (proj1 last_occurrence_wins [] [ex_twice] _ [("eye", 2%nat)] 0%nat ex_twice
             [ex_eye] [] ex_eye_again "eye");
      try reflexivity.
    intros ch' [].
  - apply (proj2 last_occurrence_wins no_numeric_strings (JDict []) 5%nat [ex_twice]
             [("eye", [])] _ 0%nat ex_twice
             [(JStr "eye", Affine 1 0 0 1 5 10, 1%float)] []
             (JStr "eye", Affine 1 0 0 1 7 0, 0.5%float) "eye");
      try (vm_compute; reflexivity).
    intros t' [].
Defined.

(** *** The frame-0 walk of the draw order *)

Lemma replace_char_idem (a b : ascii) (s : string) :
  a <> b -> replace_char a b (replace_char a b s) = replace_char a b s.
Proof.
  intros Hab. induction s as [|c s IH]; cbn [replace_char]; [reflexivity|].
  rewrite IH. f_equal.
  destruct (Ascii.eqb_spec c a) as [-> | Hca].
  - destruct (Ascii.eqb_spec b a) as [-> | _]; [contradiction Hab; reflexivity | reflexivity].
  - destruct (Ascii.eqb_spec c a); [contradiction | reflexivity].
Qed.

Lemma sanitize_idem (s : string) : sanitize (sanitize s) = sanitize s.
Proof. apply replace_char_idem. discriminate. Qed.

Lemma flat_keys_app (a b : list flat) (ks : list string) :
  flat_keys (a ++ b) = Ok ks ->
  exists ka kb, flat_keys a = Ok ka /\ flat_keys b = Ok kb /\ ks = ka ++ kb.
Proof.
  revert ks. induction a as [|t a IH]; cbn [app flat_keys]; intros ks H.
  - exists [], ks. auto.
  - inv_bind H. inv_bind H. injection H as <-.
    destruct (IH _ Hx0) as (ka & kb & Ha & Hb & ->).
    exists (x :: ka), kb. rewrite Hx, Ha. cbn [bind]. auto.
Qed.

Lemma flat_keys_sanitized (l : list flat) (ks : list string) :
  flat_keys l = Ok ks -> map sanitize ks = ks.
Proof.
  revert ks. induction l as [|t l IH]; cbn [flat_keys]; intros ks H.
  - injection H as <-. reflexivity.
  - inv_bind H. inv_bind H. injection H as <-. cbn [map].
    rewrite (IH _ Hx0). f_equal.
    unfold flat_key, sanitize_obj in Hx. destruct (fst (fst t)); try discriminate.
    injection Hx as <-. apply sanitize_idem.
Qed.

Section DrawOrderFacts.

Variable float_of_str : string -> option float.
Variable shared : json.

Lemma walk_S (d : nat) (node : json) (fi : nat) :
  walk shared (S d) node fi =
  (nm <- get_or node "name" (JStr EmptyString) ;;
   n <- sanitize_obj nm ;;
   kids <- effective_kids shared node fi ;;
   rest <- walk_each shared d (walked kids) fi ;;
   Ok (if str_truthy n then n :: rest else rest)).
Proof.
  cbn [walk].
  destruct (get_or node "name" (JStr EmptyString)) as [nm|e]; cbn [bind]; [|reflexivity].
  destruct (sanitize_obj nm) as [n|e]; cbn [bind]; [|reflexivity].
  destruct (effective_kids shared node fi) as [kids|e]; cbn [bind]; [|reflexivity].
  match goal with
  | |- bind ?f _ = bind ?g _ => assert (E : f = g); [|rewrite E; reflexivity]
  end.
  induction (walked kids) as [|ch l IH]; [reflexivity|].
  cbn [walk_each]. rewrite <- IH. reflexivity.
Qed.

Lemma node_local_name (bone name : json) (local : affine) (am : float) :
  node_local float_of_str bone = Ok (name, local, am) ->
  get_or bone "name" (JStr EmptyString) = Ok name.
Proof.
  unfold node_local. intros H. inv_bind H. rewrite Hx. f_equal.
  inv_binds H. injection H as <- _ _. reflexivity.
Qed.

(** The walk is the flattener's traversal: where [compose_list] returns
    records whose names are strings, [walk] returns their sanitised
    names, the empty ones left out, in the same order. *)
Lemma walk_like_compose (d : nat) :
  forall node pw pa fi out ks,
    compose_list float_of_str shared d node pw pa fi = Ok out ->
    flat_keys out = Ok ks ->
    walk shared d node fi = Ok (filter str_truthy ks).
Proof.
  induction d as [|d IH]; intros node pw pa fi out ks H Hks; [discriminate|].
  destruct (compose_list_ok _ _ _ _ _ _ _ _ H)
    as (d' & name & local & am & kids & rest & Hd & Hnl & Hk & Hrest & ->).
  injection Hd as <-.
  cbn [flat_keys] in Hks. inv_bind Hks. inv_bind Hks. injection Hks as <-.
  unfold flat_key in Hx. cbn [fst] in Hx.
  rewrite walk_S, (node_local_name _ _ _ _ Hnl). cbn [bind].
  rewrite Hx. cbn [bind]. rewrite Hk. cbn [bind].
  assert (E : walk_each shared d (walked kids) fi = Ok (filter str_truthy x0)).
  { clear - IH Hrest Hx0. revert rest x0 Hrest Hx0.
    generalize (mul pw local) (am * pa)%float.
    induction (walked kids) as [|ch l IHl]; cbn [compose_each walk_each];
      intros w a rest ks Hrest Hks.
    - injection Hrest as <-. injection Hks as <-. reflexivity.
    - inv_bind Hrest. inv_bind Hrest. injection Hrest as <-.
      destruct (flat_keys_app _ _ _ Hks) as (ka & kb & Ha & Hb & ->).
      rewrite (IH _ _ _ _ _ _ Hx Ha). cbn [bind].
      rewrite (IHl _ _ _ _ Hx0 Hb). cbn [bind].
      rewrite filter_app. reflexivity. }
  rewrite E. cbn [bind filter]. reflexivity.
Qed.

Lemma walk_each_like_compose (d : nat) (l : list json) :
  forall pw pa fi out ks,
    compose_each float_of_str shared d l pw pa fi = Ok out ->
    flat_keys out = Ok ks ->
    walk_each shared d l fi = Ok (filter str_truthy ks).
Proof.
  induction l as [|ch l IHl]; cbn [compose_each walk_each]; intros pw pa fi out ks H Hks.
  - injection H as <-. injection Hks as <-. reflexivity.
  - inv_bind H. inv_bind H. injection H as <-.
    destruct (flat_keys_app _ _ _ Hks) as (ka & kb & Ha & Hb & ->).
    rewrite (walk_like_compose _ _ _ _ _ _ _ Hx Ha). cbn [bind].
    rewrite (IHl _ _ _ _ _ Hx0 Hb). cbn [bind].
    rewrite filter_app. reflexivity.
Qed.

(** [dfs_draw_order] reads the first frame only. *)
Lemma dfs_draw_order_first (d : nat) (f0 : json) (rest : list json) :
  dfs_draw_order shared d (f0 :: rest) = dfs_draw_order shared d [f0].
Proof. reflexivity. Qed.

Lemma dfs_draw_order_like_flats (d : nat) (f0 : json) (rest : list json)
      (out : list flat) (ks : list string) :
  frame_flats float_of_str shared d 0 f0 = Ok out ->
  flat_keys out = Ok ks ->
  dfs_draw_order shared d (f0 :: rest) = Ok (filter str_truthy ks).
Proof.
  unfold frame_flats, frame_roots, dfs_draw_order. intros H Hks.
  inv_bind H. inv_bind Hx. rewrite Hx0. cbn [bind]. rewrite Hx. cbn [bind].
  eapply walk_each_like_compose; eassumption.
Qed.

(** The records a frame loop has filed all had string names. *)
Lemma record_flats_keys_ok (fi : nat) (l : list flat) :
  forall lf lf', record_flats fi lf l = Ok lf' -> exists ks, flat_keys l = Ok ks.
Proof.
  induction l as [|t l IH]; cbn [record_flats flat_keys]; intros lf lf' H.
  - exists []. reflexivity.
  - inv_bind H. destruct (IH _ _ H) as (ks & ->).
    destruct (record_flat_ok _ _ _ _ Hx) as (key & -> & _).
    exists (key :: ks). reflexivity.
Qed.

End DrawOrderFacts.

(** *** Shared-animation substitution *)

(** C3 (as amended).  Let a node carry the shared-animation reference [R]
    and let [fi] be an outer frame index.  If the shared table has a
    non-empty list for [R] and the frame [entry[fi mod length(entry)]] of
    that list is a dict with a [children] field, the children the
    traversals go into are that field; the node's own matrix and alpha
    multiplier still make its record, with the world matrix
    [a = pa*la + pc*lb], [b = pb*la + pd*lb], [c = pa*lc + pc*ld],
    [d = pb*lc + pd*ld], [tx = pa*ltx + pc*lty + ptx],
    [ty = pb*ltx + pd*lty + pty] and the alpha [am * pa], and they are
    the parent state of the substituted children, in [compose_list] as in
    the walk of [dfs_draw_order].  If the selected frame is falsy ([null],
    the empty dict) or is a dict without a [children] field, the node's
    own children are kept; a selected frame that is truthy and no dict
    raises [AttributeError].  If [R] is absent from the table, or its
    entry is empty or is no list, the node's own children are used and
    nothing is raised.  For an entry [[A, B]] of length 2, the outer
    frames 0, 2, 4 select [A] and the frames 1, 3 select [B]. *)
Theorem shared_animation_substitution
        (float_of_str : string -> option float)
        (tbl nd : list (string * json)) (R : string) (fi : nat) :
  sget "references_shared_animation" nd = Some (JStr R) ->
  R <> EmptyString ->
  (forall (entry : list json) (frd : list (string * json)) (kids : json),
      sget R tbl = Some (JList entry) ->
      nth_error entry (fi mod length entry) = Some (JDict frd) ->
      sget "children" frd = Some kids ->
      effective_kids (JDict tbl) (JDict nd) fi = Ok kids /\
      (forall d pw pa name local am rest,
          node_local float_of_str (JDict nd) = Ok (name, local, am) ->
          compose_each float_of_str (JDict tbl) d (walked kids)
            (Affine (m_a pw * m_a local + m_c pw * m_b local)
                    (m_b pw * m_a local + m_d pw * m_b local)
                    (m_a pw * m_c local + m_c pw * m_d local)
                    (m_b pw * m_c local + m_d pw * m_d local)
                    (m_a pw * m_tx local + m_c pw * m_ty local + m_tx pw)
                    (m_b pw * m_tx local + m_d pw * m_ty local + m_ty pw))
            (am * pa) fi = Ok rest ->
          compose_list float_of_str (JDict tbl) (S d) (JDict nd) pw pa fi =
          Ok ((name,
               Affine (m_a pw * m_a local + m_c pw * m_b local)
                      (m_b pw * m_a local + m_d pw * m_b local)
                      (m_a pw * m_c local + m_c pw * m_d local)
                      (m_b pw * m_c local + m_d pw * m_d local)
                      (m_a pw * m_tx local + m_c pw * m_ty local + m_tx pw)
                      (m_b pw * m_tx local + m_d pw * m_ty local + m_ty pw),
               (am * pa)%float) :: rest)) /\
      (forall d nm n rest,
          get_or (JDict nd) "name" (JStr EmptyString) = Ok nm ->
          sanitize_obj nm = Ok n ->
          walk_each (JDict tbl) d (walked kids) fi = Ok rest ->
          walk (JDict tbl) (S d) (JDict nd) fi =
          Ok (if str_truthy n then n :: rest else rest)))
  /\
  (forall (entry : list json) (fr : json),
      sget R tbl = Some (JList entry) ->
      nth_error entry (fi mod length entry) = Some fr ->
      (fr = JNull \/ fr = JDict [] \/
       exists frd, fr = JDict frd /\ sget "children" frd = None) ->
      effective_kids (JDict tbl) (JDict nd) fi =
      Ok (match sget "children" nd with Some v => v | None => JNull end))
  /\
  (forall (entry : list json) (fr : json),
      sget R tbl = Some (JList entry) ->
      nth_error entry (fi mod length entry) = Some fr ->
      truthy fr = true ->
      (forall frd, fr <> JDict frd) ->
      effective_kids (JDict tbl) (JDict nd) fi = Raise AttributeError)
  /\
  (sget R tbl = None \/ sget R tbl = Some (JList []) \/
   (exists v, sget R tbl = Some v /\ forall entry, v <> JList entry) ->
   effective_kids (JDict tbl) (JDict nd) fi =
   Ok (match sget "children" nd with Some v => v | None => JNull end))
  /\
  (forall A B : json,
      sget R tbl = Some (JList [JDict [("children", A)]; JDict [("children", B)]]) ->
      effective_kids (JDict tbl) (JDict nd) 0 = Ok A /\
      effective_kids (JDict tbl) (JDict nd) 2 = Ok A /\
      effective_kids (JDict tbl) (JDict nd) 4 = Ok A /\
      effective_kids (JDict tbl) (JDict nd) 1 = Ok B /\
      effective_kids (JDict tbl) (JDict nd) 3 = Ok B).
Proof.
  intros Href HR.
  assert (Htruthy : truthy (JStr R) = true) by (destruct R; [contradiction | reflexivity]).
  assert (Hhead : forall i,
             effective_kids (JDict tbl) (JDict nd) i =
             match sget R tbl with
             | Some (JList (f0 :: l')) =>
                 get_or (py_or (nth (i mod length (f0 :: l')) (f0 :: l') JNull) (JDict []))
                        "children"
                        (match sget "children" nd with Some v => v | None => JNull end)
             | _ => Ok (match sget "children" nd with Some v => v | None => JNull end)
             end).
  { intros i. unfold effective_kids.
    change (get_or (JDict nd) "children" JNull)
      with (Ok (A := json) (match sget "children" nd with Some v => v | None => JNull end)).
    change (get_or (JDict nd) "references_shared_animation" JNull)
      with (Ok (A := json)
              (match sget "references_shared_animation" nd with Some v => v | None => JNull end)).
    cbn [bind]. rewrite Href, Htruthy.
    unfold shared_get. destruct (sget R tbl) as [[| | | |[|f0 l']|]|]; reflexivity. }
  assert (Hsel : forall entry fr,
             sget R tbl = Some (JList entry) ->
             nth_error entry (fi mod length entry) = Some fr ->
             effective_kids (JDict tbl) (JDict nd) fi =
             get_or (py_or fr (JDict [])) "children"
                    (match sget "children" nd with Some v => v | None => JNull end)).
  { intros entry fr Hentry Hnth. rewrite Hhead, Hentry.
    destruct entry as [|f0 l']; [destruct (fi mod length (@nil json)); discriminate Hnth|].
    rewrite (nth_error_nth _ _ JNull Hnth). reflexivity. }
  split; [|split; [|split; [|split]]].
  - intros entry frd kids Hentry Hnth Hkids.
    assert (Hk : effective_kids (JDict tbl) (JDict nd) fi = Ok kids).
    { rewrite (Hsel _ _ Hentry Hnth).
      assert (Ht : truthy (JDict frd) = true) by (destruct frd; [discriminate | reflexivity]).
      unfold py_or. rewrite Ht. unfold get_or, py_get. cbn [bind]. rewrite Hkids. reflexivity. }
    split; [assumption|]. split.
    + intros d pw pa name local am rest Hnl Hrest.
      rewrite compose_list_S, Hnl. cbn [bind fst snd]. rewrite Hk. cbn [bind].
      unfold mul. rewrite Hrest. reflexivity.
    + intros d nm n rest Hnm Hn Hrest.
      rewrite walk_S, Hnm. cbn [bind]. rewrite Hn. cbn [bind]. rewrite Hk. cbn [bind].
      rewrite Hrest. reflexivity.
  - intros entry fr Hentry Hnth Hfr. rewrite (Hsel _ _ Hentry Hnth).
    destruct Hfr as [-> | [-> | (frd & -> & Hnone)]]; try reflexivity.
    unfold py_or. destruct (truthy (JDict frd)); unfold get_or, py_get; cbn [bind];
      [rewrite Hnone|]; reflexivity.
  - intros entry fr Hentry Hnth Ht Hnd. rewrite (Hsel _ _ Hentry Hnth).
    unfold py_or. rewrite Ht.
    destruct fr as [| | | | |frd]; try reflexivity.
    contradiction (Hnd frd). reflexivity.
  - intros [Habs | [Hempty | (v & Hv & Hnl)]]; rewrite Hhead.
    + rewrite Habs. reflexivity.
    + rewrite Hempty. reflexivity.
    + rewrite Hv. destruct v as [| | | |[|f0 l']|]; try reflexivity.
      contradiction (Hnl (f0 :: l')). reflexivity.
  - intros A B Hentry. repeat split; rewrite Hhead, Hentry; reflexivity.
Qed.

(** The blink loop: frame 3 of the lid shows the shut lid below the lid's
    own matrix, under a parent that doubles and moves by (1, 1) at half
    alpha; and a lid whose loop is missing keeps its own lash. *)
Lemma shared_animation_substitution_witness :
  (effective_kids (JDict ex_table) (JDict ex_lid) 3 = Ok ex_shut /\
   compose_list no_numeric_strings (JDict ex_table) 2 (JDict ex_lid)
                (Affine 2 0 0 2 1 1) 0.5 3 =
   Ok [(JStr "lid", Affine 2 0 0 2 5 1, 0.5%float);
       (JStr "lid_shut", Affine 2 0 0 2 5 1, 0.5%float)])
  /\
  effective_kids (JDict []) (JDict ex_lid) 3 = Ok ex_own.
Proof.
  split.
  - destruct (proj1 (shared_animation_substitution no_numeric_strings ex_table ex_lid
                       "blink" 3 eq_refl ltac:(discriminate))
                    ex_blink [("children", ex_shut)] ex_shut
                    eq_refl eq_refl eq_refl) as (Hk & Hc & _).
    split; [exact Hk|].
    exact (Hc 1%nat (Affine 2 0 0 2 1 1) 0.5%float (JStr "lid") (Affine 1 0 0 1 2 0)
              1%float [(JStr "lid_shut", Affine 2 0 0 2 5 1, 0.5%float)] eq_refl eq_refl).
  - exact (proj1 (proj2 (proj2 (proj2 (shared_animation_substitution no_numeric_strings []
                                         ex_lid "blink" 3 eq_refl ltac:(discriminate)))))
                 (or_introl eq_refl)).
Defined.

(** C3, counterexample: the table has a non-empty entry for the lid's
    reference, but the frame selected at outer frame 0 is a dict without
    [children] and the one selected at outer frame 1 is [null]: the lid
    keeps its own lash at both, and the flattener emits it. *)
Lemma loop_frame_without_children_keeps_own :
  effective_kids (JDict ex_bare_table) (JDict ex_lid) 0 = Ok ex_own /\
  effective_kids (JDict ex_bare_table) (JDict ex_lid) 1 = Ok ex_own /\
  compose_list no_numeric_strings (JDict ex_bare_table) 2 (JDict ex_lid) mat 1 0 =
  Ok [(JStr "lid", Affine 1 0 0 1 2 0, 1%float);
      (JStr "lash", Affine 1 0 0 1 2 0, 1%float)].
Proof. repeat split; vm_compute; reflexivity. Qed.

(** *** The draw order *)

Lemma count_occ_filter (p : string -> bool) (l : list string) (k : string) :
  count_occ string_dec (filter p l) k =
  if p k then count_occ string_dec l k else O.
Proof.
  induction l as [|x l IH]; cbn [filter count_occ].
  - destruct (p k); reflexivity.
  - destruct (p x) eqn:Epx; cbn [count_occ]; destruct (string_dec x k) as [-> | Hne].
    + rewrite IH, Epx. reflexivity.
    + exact IH.
    + rewrite IH, Epx. reflexivity.
    + exact IH.
Qed.

Lemma existsb_eqb_in (k : string) (l : list string) :
  existsb (String.eqb k) l = true <-> In k l.
Proof.
  rewrite existsb_exists. split.
  - intros (x & Hx & E). apply String.eqb_eq in E. subst. assumption.
  - intros H. exists k. split; [assumption | apply String.eqb_refl].
Qed.

Lemma dict_keys_sset_in {V : Type} (k k0 : string) (v : V) (d : list (string * V)) :
  In k (dict_keys (sset k0 v d)) <-> k = k0 \/ In k (dict_keys d).
Proof.
  destruct (smem k0 d) eqn:E.
  - rewrite dict_keys_set_mem by assumption. apply smem_in in E.
    split; [auto | intros [-> | H]; assumption].
  - rewrite dict_keys_set_new by assumption. rewrite in_app_iff. cbn.
    split; [intros [H | [H | []]]; auto | intros [H | H]; auto].
Qed.

Lemma init_layer_frames_nodup (n2i : list (string * string)) :
  NoDup (dict_keys (init_layer_frames n2i)).
Proof.
  unfold init_layer_frames.
  assert (G : forall (l : list string) (d : layer_table),
             NoDup (dict_keys d) ->
             NoDup (dict_keys (fold_left (fun lf n => sset (sanitize n) [] lf) l d))).
  { induction l as [|n l IH]; cbn [fold_left]; intros d Hd; [assumption|].
    apply IH. apply (dict_keys_set_nodup String.eqb String.eqb_eq). assumption. }
  apply G. constructor.
Qed.

Lemma init_layer_frames_keys (n2i : list (string * string)) (k : string) :
  In k (dict_keys (init_layer_frames n2i)) <->
  exists n, In n (dict_keys n2i) /\ k = sanitize n.
Proof.
  unfold init_layer_frames.
  assert (G : forall (l : list string) (d : layer_table),
             In k (dict_keys (fold_left (fun lf n => sset (sanitize n) [] lf) l d)) <->
             In k (dict_keys d) \/ exists n, In n l /\ k = sanitize n).
  { induction l as [|n l IH]; cbn [fold_left]; intros d.
    - split; [auto | intros [H | (n & [] & _)]; assumption].
    - rewrite IH, dict_keys_sset_in. split.
      + intros [[-> | H] | (n' & Hn' & ->)].
        * right. exists n. cbn. auto.
        * left. assumption.
        * right. exists n'. cbn. auto.
      + intros [H | (n' & [<- | Hn'] & ->)].
        * left. right. assumption.
        * left. left. reflexivity.
        * right. exists n'. auto. }
  rewrite G. cbn. split; [intros [[] | H]; assumption | auto].
Qed.

Section OrderFacts.

Variable order : list string.
Variable lf : layer_table.
Hypothesis order_sanitized : map sanitize order = order.
Hypothesis keys_nodup : NoDup (dict_keys lf).

Lemma bottom_to_top_eq :
  bottom_to_top order lf =
  filter (fun n => existsb (String.eqb n) (dict_keys lf)) order
  ++ filter (fun n => negb (existsb (String.eqb n) order)) (dict_keys lf).
Proof.
  unfold bottom_to_top. rewrite order_sanitized. f_equal.
  apply filter_ext. intros n.
  destruct (smem n lf) eqn:E.
  - symmetry. apply existsb_eqb_in, smem_in. assumption.
  - destruct (existsb (String.eqb n) (dict_keys lf)) eqn:E'; [|reflexivity].
    apply existsb_eqb_in, smem_in in E'. congruence.
Qed.

Lemma bottom_to_top_in (k : string) :
  In k (bottom_to_top order lf) <-> In k (dict_keys lf).
Proof.
  rewrite bottom_to_top_eq, in_app_iff, !filter_In. split.
  - intros [[_ H] | [H _]]; [apply existsb_eqb_in in H|]; assumption.
  - intros H. destruct (existsb (String.eqb k) order) eqn:E.
    + left. split; [apply existsb_eqb_in; assumption | apply existsb_eqb_in; assumption].
    + right. auto.
Qed.

Lemma bottom_to_top_count (k : string) :
  In k (dict_keys lf) ->
  count_occ string_dec (bottom_to_top order lf) k =
  Nat.max 1 (count_occ string_dec order k).
Proof.
  intros Hk. rewrite bottom_to_top_eq, count_occ_app, !count_occ_filter.
  rewrite (proj2 (existsb_eqb_in k (dict_keys lf)) Hk).
  destruct (existsb (String.eqb k) order) eqn:E; cbn [negb].
  - apply existsb_eqb_in in E. apply (count_occ_In string_dec) in E. lia.
  - assert (Hn : ~ In k order).
    { intros H. apply existsb_eqb_in in H. congruence. }
    apply (count_occ_not_In string_dec) in Hn. rewrite Hn.
    rewrite (proj1 (NoDup_count_occ' string_dec _) keys_nodup k Hk). reflexivity.
Qed.

End OrderFacts.

Lemma stage_layers_names (g_sx g_sy : float) (n : nat) (lf : layer_table)
      (top_first : list string) :
  forall ls, stage_layers g_sx g_sy n lf top_first = Ok ls -> map fst ls = top_first.
Proof.
  induction top_first as [|lname rest IH]; cbn [stage_layers]; intros ls H.
  - injection H as <-. reflexivity.
  - destruct (sget lname lf); [|discriminate]. inv_bind H. injection H as <-.
    cbn [map fst]. rewrite (IH _ Hx). reflexivity.
Qed.

Lemma map_filter_fixed {A : Type} (f : A -> A) (p : A -> bool) (l : list A) :
  map f l = l -> map f (filter p l) = filter p l.
Proof.
  induction l as [|x l IH]; cbn [map filter]; intros H; [reflexivity|].
  injection H as Hx Hl. destruct (p x); cbn [map]; rewrite IH by assumption; congruence.
Qed.

Lemma main_done (float_of_str : string -> option float) (shared : json) (depth : nat)
      (frames : list json) (plist : list (string * json)) (idx : list (string * string))
      (names : list string) (g_sx g_sy : float) (s : stage) :
  main float_of_str shared depth frames plist idx names g_sx g_sy = Done s ->
  frames <> [] /\
  build_stage float_of_str shared depth frames plist idx names g_sx g_sy = Ok s.
Proof.
  unfold main. destruct frames as [|f0 rest]; [discriminate|].
  destruct (build_stage float_of_str shared depth (f0 :: rest) plist idx names g_sx g_sy);
    [|discriminate].
  intros H. injection H as <-. split; [discriminate | reflexivity].
Qed.

(** C4 (as amended).  The draw order comes from frame 0 only: it is the
    sequence of the sanitised non-empty names of the records of frame 0 (the
    flattener's own depth-first traversal, shared animations substituted at
    [fi = 0]), one entry for every visit --- a name visited twice is there
    twice ---, kept to the layer keys, and followed by the layer keys never
    visited at frame 0 in the order of the layer table.  The layer keys are
    the sanitised names of the pieces a PNG was found for.  Every layer key
    is in the order, as often as it was visited at frame 0 and once when it
    was not, and nothing else is.  The layers of the stage are this order
    reversed. *)
Theorem draw_order_of_main
        (float_of_str : string -> option float) (shared : json) (depth : nat)
        (frames : list json) (plist : list (string * json)) (idx : list (string * string))
        (names : list string) (g_sx g_sy : float) (s : stage) :
  main float_of_str shared depth frames plist idx names g_sx g_sy = Done s ->
  exists f0 rest imgs n2i out ks,
    frames = f0 :: rest /\
    image_symbols float_of_str plist idx names [] [] = Ok (imgs, n2i) /\
    frame_flats float_of_str shared depth 0 f0 = Ok out /\
    flat_keys out = Ok ks /\
    dfs_draw_order shared depth frames = dfs_draw_order shared depth [f0] /\
    dfs_draw_order shared depth frames = Ok (filter str_truthy ks) /\
    NoDup (dict_keys (init_layer_frames n2i)) /\
    rev (map fst (st_layers s)) =
      filter (fun n => existsb (String.eqb n) (dict_keys (init_layer_frames n2i)))
             (filter str_truthy ks)
      ++ filter (fun n => negb (existsb (String.eqb n) (filter str_truthy ks)))
                (dict_keys (init_layer_frames n2i)) /\
    (forall k, In k (map fst (st_layers s)) <->
               exists n, In n (dict_keys n2i) /\ k = sanitize n) /\
    (forall k, In k (dict_keys (init_layer_frames n2i)) ->
               count_occ string_dec (map fst (st_layers s)) k =
               Nat.max 1 (count_occ string_dec (filter str_truthy ks) k)).
Proof.
  intros Hmain. destruct (main_done _ _ _ _ _ _ _ _ _ _ Hmain) as (Hne & Hb).
  destruct frames as [|f0 rest]; [contradiction Hne; reflexivity|].
  unfold build_stage in Hb. bind_inv Hb as syms Hsyms. destruct syms as [imgs n2i].
  bind_inv Hb as lf Hlf. bind_inv Hb as order Horder. bind_inv Hb as layers Hlayers.
  injection Hb as <-. cbn [st_layers].
  destruct (record_frames_nth _ _ _ _ _ _ _ 0%nat f0 Hlf eq_refl)
    as (out & lfa & lfb & Hflats & _ & Hr & _).
  cbn [Nat.add] in *.
  destruct (record_flats_keys_ok _ _ _ _ Hr) as (ks & Hks).
  pose proof (dfs_draw_order_like_flats _ _ _ _ rest _ _ Hflats Hks) as Hord.
  rewrite Hord in Horder. injection Horder as <-.
  pose proof (record_frames_keys _ _ _ _ _ _ _ Hlf) as Hkeys.
  pose proof (init_layer_frames_nodup n2i) as Hnd.
  assert (Hsan : map sanitize (filter str_truthy ks) = filter str_truthy ks).
  { apply map_filter_fixed. eapply flat_keys_sanitized. eassumption. }
  assert (Hnd' : NoDup (dict_keys lf)) by (rewrite Hkeys; assumption).
  pose proof (stage_layers_names _ _ _ _ _ _ Hlayers) as Hnames.
  exists f0, rest, imgs, n2i, out, ks.
  repeat (split; [first [reflexivity | assumption]|]).
  split; [|split].
  - rewrite Hnames, rev_involutive, (bottom_to_top_eq _ _ Hsan), Hkeys. reflexivity.
  - intros k. rewrite Hnames, <- in_rev, (bottom_to_top_in _ _ Hsan), Hkeys.
    apply init_layer_frames_keys.
  - intros k Hk. rewrite Hnames, count_occ_rev.
    apply (bottom_to_top_count _ _ Hsan Hnd'). rewrite Hkeys. assumption.
Qed.

(** The head-and-eye frame with PNGs for both pieces. *)
Lemma draw_order_of_main_witness :
  exists s,
    main no_numeric_strings (JDict []) 5 [ex_frame] []
         (build_png_index ["eye"; "head"]) ["eye"; "head"] 1 1 = Done s /\
    exists f0 rest imgs n2i out ks,
      [ex_frame] = f0 :: rest /\
      image_symbols no_numeric_strings [] (build_png_index ["eye"; "head"])
                    ["eye"; "head"] [] [] = Ok (imgs, n2i) /\
      frame_flats no_numeric_strings (JDict []) 5 0 f0 = Ok out /\
      flat_keys out = Ok ks /\
      dfs_draw_order (JDict []) 5 [ex_frame] = dfs_draw_order (JDict []) 5 [f0] /\
      dfs_draw_order (JDict []) 5 [ex_frame] = Ok (filter str_truthy ks) /\
      NoDup (dict_keys (init_layer_frames n2i)) /\
      rev (map fst (st_layers s)) =
        filter (fun n => existsb (String.eqb n) (dict_keys (init_layer_frames n2i)))
               (filter str_truthy ks)
        ++ filter (fun n => negb (existsb (String.eqb n) (filter str_truthy ks)))
                  (dict_keys (init_layer_frames n2i)) /\
      (forall k, In k (map fst (st_layers s)) <->
                 exists n, In n (dict_keys n2i) /\ k = sanitize n) /\
      (forall k, In k (dict_keys (init_layer_frames n2i)) ->
                 count_occ string_dec (map fst (st_layers s)) k =
                 Nat.max 1 (count_occ string_dec (filter str_truthy ks) k)).
Proof.
  eexists. split.
  - vm_compute. reflexivity.
  - apply (draw_order_of_main no_numeric_strings (JDict []) 5 [ex_frame] []
             (build_png_index ["eye"; "head"]) ["eye"; "head"] 1 1).
    vm_compute. reflexivity.
Defined.

(** The stage of the head-and-eye frame has the eye above the head. *)
Example head_eye_layers :
  exists s,
    main no_numeric_strings (JDict []) 5 [ex_frame] []
         (build_png_index ["eye"; "head"]) ["eye"; "head"] 1 1 = Done s /\
    map fst (st_layers s) = ["eye"; "head"].
Proof. eexists. split; vm_compute; reflexivity. Qed.

(** C4, counterexample: the piece "a" is visited twice at frame 0 and is
    twice in the order; the stage gets two layers of that name. *)
Lemma twice_visited_piece_twice_in_order :
  dfs_draw_order (JDict []) 5 [ex_two_a] = Ok ["a"; "a"] /\
  exists s,
    main no_numeric_strings (JDict []) 5 [ex_two_a] [] ex_idx_a ["a"] 1 1 = Done s /\
    map fst (st_layers s) = ["a"; "a"].
Proof.
  split; [reflexivity|]. eexists. split; vm_compute; reflexivity.
Qed.

(** *** Label spans *)

Local Open Scope Z_scope.

Lemma insert_uniq_in (x y : Z) (l : list Z) :
  In y (insert_uniq x l) <-> y = x \/ In y l.
Proof.
  induction l as [|z l IH]; cbn [insert_uniq].
  - cbn. intuition.
  - destruct (Z.ltb_spec x z); [cbn; intuition|].
    destruct (Z.eqb_spec x z) as [-> | Hne]; [cbn; intuition|].
    cbn [In]. rewrite IH. intuition.
Qed.

Lemma ascending_cons (x : Z) (l : list Z) :
  ascending (x :: l) <-> (forall y, hd_error l = Some y -> x < y) /\ ascending l.
Proof.
  destruct l as [|y l]; cbn [ascending hd_error].
  - split; [intros _; split; [discriminate | exact I] | auto].
  - split.
    + intros [H1 H2]. split; [intros y' E; injection E as <-; assumption | assumption].
    + intros [H1 H2]. split; [apply H1; reflexivity | assumption].
Qed.

Lemma insert_uniq_ascending (x : Z) (l : list Z) :
  ascending l -> ascending (insert_uniq x l).
Proof.
  induction l as [|z l IH]; intros Hl; [exact I|].
  cbn [insert_uniq].
  destruct (Z.ltb_spec x z) as [Hlt | Hge].
  - split; assumption.
  - destruct (Z.eqb_spec x z) as [-> | Hne]; [assumption|].
    apply ascending_cons in Hl. destruct Hl as [Hhd Hl].
    apply ascending_cons. split; [|apply IH; assumption].
    intros y Hy. destruct l as [|w l]; cbn [insert_uniq] in Hy.
    + injection Hy as <-. lia.
    + destruct (Z.ltb_spec x w).
      * injection Hy as <-. lia.
      * destruct (Z.eqb_spec x w); injection Hy as <-; apply Hhd; reflexivity.
Qed.

Lemma sorted_set_in (y : Z) (l : list Z) : In y (sorted_set l) <-> In y l.
Proof.
  unfold sorted_set. induction l as [|x l IH]; cbn [fold_right]; [reflexivity|].
  rewrite insert_uniq_in, IH. cbn. intuition.
Qed.

Lemma sorted_set_ascending (l : list Z) : ascending (sorted_set l).
Proof.
  unfold sorted_set. induction l as [|x l IH]; cbn [fold_right]; [exact I|].
  apply insert_uniq_ascending. assumption.
Qed.

Lemma ascending_snoc (l : list Z) (b : Z) :
  ascending l -> (forall x, In x l -> x < b) -> ascending (l ++ [b]).
Proof.
  induction l as [|x l IH]; intros Hl Hb; [exact I|].
  cbn [app]. apply ascending_cons in Hl. destruct Hl as [Hhd Hl].
  apply ascending_cons. split.
  - intros y Hy. destruct l as [|z l]; cbn in Hy; injection Hy as <-.
    + apply Hb. left. reflexivity.
    + apply Hhd. reflexivity.
  - apply IH; [assumption|]. intros y Hy. apply Hb. right. assumption.
Qed.

Lemma last_cons_default (l : list Z) :
  forall x d d', last (x :: l) d = last (x :: l) d'.
Proof.
  induction l as [|y l IH]; intros x d d'; [reflexivity|].
  change (last (y :: l) d = last (y :: l) d'). apply IH.
Qed.

Section SpanFacts.

Variable labels : list (string * Z).

Lemma spans_of_tiles (starts : list Z) :
  forall a, ascending (a :: starts) ->
            tiles a (spans_of labels (a :: starts)) (last starts a).
Proof.
  induction starts as [|e rest IH]; intros a Ha; [reflexivity|].
  destruct Ha as [Hlt Ha].
  change (spans_of labels (a :: e :: rest))
    with (Span a (Z.max 1 (e - a)) (name_here labels a) :: spans_of labels (e :: rest)).
  cbn [tiles s_index s_duration].
  split; [reflexivity|]. split; [lia|].
  replace (a + Z.max 1 (e - a)) with e by lia.
  replace (last (e :: rest) a) with (last rest e); [apply IH; assumption|].
  destruct rest as [|x rest]; [reflexivity|].
  change (last (e :: x :: rest) a) with (last (x :: rest) a).
  apply last_cons_default.
Qed.

Lemma spans_of_starts (l : list Z) (b : Z) :
  map s_index (spans_of labels (l ++ [b])) = l.
Proof.
  induction l as [|a l IH]; [reflexivity|].
  destruct l as [|e l]; [reflexivity|].
  change (spans_of labels ((a :: e :: l) ++ [b]))
    with (Span a (Z.max 1 (e - a)) (name_here labels a)
            :: spans_of labels ((e :: l) ++ [b])).
  cbn [map s_index]. rewrite IH. reflexivity.
Qed.

Lemma spans_of_names (starts : list Z) (sp : span) :
  In sp (spans_of labels starts) -> s_name sp = name_here labels (s_index sp).
Proof.
  induction starts as [|a starts IH]; [intros []|].
  destruct starts as [|e rest]; [intros []|].
  change (spans_of labels (a :: e :: rest))
    with (Span a (Z.max 1 (e - a)) (name_here labels a) :: spans_of labels (e :: rest)).
  intros [<- | H]; [reflexivity | apply IH; assumption].
Qed.

Lemma name_here_label (s : Z) (nm : string) :
  name_here labels s = Some nm ->
  exists v, In (nm, v) labels /\ label_start v = s.
Proof.
  unfold name_here.
  destruct (find (fun kv => label_start (snd kv) =? s) labels) as [[lbl v]|] eqn:E;
    [|discriminate].
  destruct (str_truthy lbl); [|discriminate]. intros H. injection H as <-.
  apply find_some in E. destruct E as [Hin Heq]. cbn [snd] in Heq.
  exists v. split; [assumption | lia].
Qed.

End SpanFacts.

Lemma tiles_total (spans : list span) :
  forall a b, tiles a spans b -> total_duration spans = b - a.
Proof.
  induction spans as [|s spans IH]; cbn [tiles total_duration fold_right]; intros a b H.
  - lia.
  - destruct H as (_ & _ & H). apply IH in H. unfold total_duration in H. lia.
Qed.

Lemma last_snoc (l : list Z) (b d : Z) : last (l ++ [b]) d = b.
Proof. apply last_last. Qed.

(** C5 (as amended).  For every non-empty label table whose 0-based label
    frames all lie below the frame count N, the emitted label spans
    partition [0, N) exactly: the span starts are the distinct 0-based
    label frame numbers in increasing order, with frame 0 included also
    when no label claims it; each span runs from its start to the next
    start, the last one to the sentinel N, so that the spans are
    contiguous, none is empty or overlaps another, and the durations sum to
    N; a span carries a name only if a label maps exactly to its start
    frame. *)
Theorem label_spans_partition (labels : list (string * Z)) (N : Z) :
  labels <> [] ->
  (forall l v, In (l, v) labels -> label_start v < N) ->
  exists spans,
    label_layer labels N = Some spans /\
    tiles 0 spans N /\
    total_duration spans = N /\
    ascending (map s_index spans) /\
    (forall s, In s (map s_index spans) <->
               s = 0 \/ exists l v, In (l, v) labels /\ s = label_start v) /\
    (forall sp nm, In sp spans -> s_name sp = Some nm ->
                   exists v, In (nm, v) labels /\ label_start v = s_index sp).
Proof.
  intros Hne Hlt.
  set (l0 := sorted_set (map (fun kv => label_start (snd kv)) labels)).
  set (starts0 := match l0 with
                  | [] => [0]
                  | s0 :: _ => if negb (s0 =? 0) then 0 :: l0 else l0
                  end).
  assert (Hin0 : forall s, In s l0 <-> exists l v, In (l, v) labels /\ s = label_start v).
  { intros s. unfold l0. rewrite sorted_set_in, in_map_iff. split.
    - intros ([l v] & <- & Hin). exists l, v. auto.
    - intros (l & v & Hin & ->). exists (l, v). auto. }
  assert (Hasc0 : ascending l0) by apply sorted_set_ascending.
  assert (Hnonneg : forall s, In s l0 -> 0 <= s).
  { intros s Hs. apply Hin0 in Hs. destruct Hs as (l & v & _ & ->). unfold label_start. lia. }
  assert (Hstarts : exists rest, starts0 = 0 :: rest /\ ascending starts0 /\
                                 forall s, In s starts0 <-> s = 0 \/ In s l0).
  { unfold starts0. destruct l0 as [|s0 l1] eqn:El0.
    - exists []. split; [reflexivity|]. split; [exact I|]. cbn. intuition.
    - destruct (Z.eqb_spec s0 0) as [-> | Hs0]; cbn [negb].
      + exists l1. split; [reflexivity|]. split; [assumption|]. cbn. intuition.
      + exists (s0 :: l1). split; [reflexivity|]. split.
        * split; [|assumption]. specialize (Hnonneg s0 (or_introl eq_refl)). lia.
        * cbn. intuition. }
  destruct Hstarts as (rest & Hst & Hasc & Hin).
  assert (HN : forall s, In s starts0 -> s < N).
  { intros s Hs. apply Hin in Hs. destruct Hs as [-> | Hs].
    - destruct labels as [|[l v] labels']; [contradiction Hne; reflexivity|].
      specialize (Hlt l v (or_introl eq_refl)). unfold label_start in Hlt. lia.
    - apply Hin0 in Hs. destruct Hs as (l & v & Hlv & ->). eapply Hlt. eassumption. }
  assert (Hlayer : label_layer labels N = Some (spans_of labels (starts0 ++ [N]))).
  { unfold label_layer. destruct labels; [contradiction Hne; reflexivity | reflexivity]. }
  exists (spans_of labels (starts0 ++ [N])).
  assert (Htiles : tiles 0 (spans_of labels (starts0 ++ [N])) N).
  { rewrite Hst. cbn [app].
    replace N with (last (rest ++ [N]) 0) at 2 by apply last_snoc.
    apply spans_of_tiles. change (ascending ((0 :: rest) ++ [N])).
    rewrite <- Hst. apply ascending_snoc; assumption. }
  split; [assumption|]. split; [assumption|].
  split; [rewrite (tiles_total _ _ _ Htiles); lia|].
  rewrite spans_of_starts.
  split; [assumption|]. split.
  - intros s. rewrite Hin, Hin0. reflexivity.
  - intros sp nm Hsp Hnm. rewrite (spans_of_names _ _ _ Hsp) in Hnm.
    apply name_here_label. assumption.
Qed.

(** Labels walk at frame 1 and idle at frame 6 over ten frames. *)
Lemma label_spans_partition_witness :
  exists spans,
    label_layer [("walk", 1); ("idle", 6)] 10 = Some spans /\
    tiles 0 spans 10 /\
    total_duration spans = 10 /\
    ascending (map s_index spans) /\
    (forall s, In s (map s_index spans) <->
               s = 0 \/ exists l v, In (l, v) [("walk", 1); ("idle", 6)] /\ s = label_start v) /\
    (forall sp nm, In sp spans -> s_name sp = Some nm ->
                   exists v, In (nm, v) [("walk", 1); ("idle", 6)] /\
                             label_start v = s_index sp).
Proof.
  apply (label_spans_partition [("walk", 1); ("idle", 6)] 10).
  - discriminate.
  - intros l v [H | [H | []]]; injection H as <- <-; reflexivity.
Defined.

Example label_spans_walk_idle :
  label_layer [("walk", 1); ("idle", 6)] 10 =
  Some [Span 0 5 (Some "walk"); Span 5 5 (Some "idle")].
Proof. reflexivity. Qed.

(** C5, counterexample: an empty label table gives no span at all, and a
    label beyond the last frame gives spans that run past N: over two
    frames, a label at frame 5 gives the spans [0,4) and a span of
    duration 1 at 4; the durations sum to 5. *)
Lemma label_spans_not_always_a_partition :
  label_layer [] 1 = None /\
  label_layer [("x", 5)] 2 = Some [Span 0 4 None; Span 4 1 (Some "x")] /\
  total_duration [Span 0 4 None; Span 4 1 (Some "x")] = 5 /\
  ~ tiles 0 [Span 0 4 None; Span 4 1 (Some "x")] 2.
Proof.
  repeat split. cbn. intros (_ & _ & _ & _ & H). discriminate.
Qed.

Local Close Scope Z_scope.

(** *** Origin, scale and global scale of a sprite instance *)

Section CompositorFacts.

Variable float_of_str : string -> option float.

Lemma field_float_dict (d : list (string * json)) (k : string) (dflt : float) :
  field_float float_of_str (JDict d) k dflt = Ok (component float_of_str d k dflt).
Proof. reflexivity. Qed.

Lemma field_float_ok (o : json) (k : string) (dflt x : float) :
  field_float float_of_str o k dflt = Ok x -> exists d, o = JDict d.
Proof. destruct o; try discriminate. eauto. Qed.

Lemma compose_instance_matrix_dict (fmd pd : list (string * json)) :
  compose_instance_matrix float_of_str (JDict fmd) (JDict pd) =
  Ok (let a := component float_of_str fmd "a" 1 in
      let b := component float_of_str fmd "b" 0 in
      let c := component float_of_str fmd "c" 0 in
      let d := component float_of_str fmd "d" 1 in
      let tx := component float_of_str fmd "tx" 0 in
      let ty := component float_of_str fmd "ty" 0 in
      let ox := component float_of_str pd "origin_x" 0 in
      let oy := component float_of_str pd "origin_y" 0 in
      let sx := component float_of_str pd "scale_x" 1 in
      let sy := component float_of_str pd "scale_y" 1 in
      Affine (a * sx) (b * sx) (c * sy) (d * sy)
             (a * ox + c * oy + tx) (b * ox + d * oy + ty)).
Proof. reflexivity. Qed.

Lemma compose_instance_matrix_ok (fm pinfo : json) (M : affine) :
  compose_instance_matrix float_of_str fm pinfo = Ok M ->
  exists fmd pd, fm = JDict fmd /\ pinfo = JDict pd.
Proof.
  unfold compose_instance_matrix. intros H.
  bind_inv H as a Ha. destruct (field_float_ok _ _ _ _ Ha) as (fmd & ->).
  do 5 (let x := fresh "x" in let Hx := fresh "Hx" in bind_inv H as x Hx).
  bind_inv H as ox Hox. destruct (field_float_ok _ _ _ _ Hox) as (pd & ->).
  eauto.
Qed.

Lemma sprite_frame_of_index (g : float) (name : string) (pinfo : json)
      (fmap : list (list (string * json))) (idx : nat) (fr : sprite_frame) :
  sprite_frame_of float_of_str g name pinfo fmap idx = Ok fr -> pf_index fr = idx.
Proof.
  unfold sprite_frame_of. destruct (nth_error fmap idx) as [per|]; [|discriminate].
  destruct (sget name per) as [node|]; [|intros H; injection H as <-; reflexivity].
  destruct (negb (truthy node)); [intros H; injection H as <-; reflexivity|].
  intros H. inv_binds H. injection H as <-. reflexivity.
Qed.

Lemma sprite_frame_of_instance (g : float) (name : string) (pinfo : json)
      (fmap : list (list (string * json))) (idx : nat) (fr : sprite_frame)
      (inst : sprite_instance) :
  sprite_frame_of float_of_str g name pinfo fmap idx = Ok fr ->
  pf_element fr = Some inst ->
  exists per node M,
    nth_error fmap idx = Some per /\
    sget name per = Some node /\
    instance_matrix float_of_str g node pinfo = Ok M /\
    pi_matrix inst = Some M.
Proof.
  unfold sprite_frame_of. destruct (nth_error fmap idx) as [per|]; [|discriminate].
  destruct (sget name per) as [node|] eqn:Enode;
    [|intros H; injection H as <-; discriminate].
  destruct (negb (truthy node)); [intros H; injection H as <-; discriminate|].
  intros H Hel. bind_inv H as M HM. inv_binds H. injection H as <-.
  cbn [pf_element] in Hel. injection Hel as <-.
  exists per, node, M. repeat split; auto.
Qed.

Lemma sprite_frames_in (g : float) (name : string) (pinfo : json)
      (fmap : list (list (string * json))) (idxs : list nat) :
  forall fs fr,
    sprite_frames float_of_str g name pinfo fmap idxs = Ok fs ->
    In fr fs ->
    exists idx, In idx idxs /\ sprite_frame_of float_of_str g name pinfo fmap idx = Ok fr.
Proof.
  induction idxs as [|idx idxs IH]; cbn [sprite_frames]; intros fs fr H Hin.
  - injection H as <-. destruct Hin.
  - bind_inv H as f Hf. bind_inv H as fs' Hfs. injection H as <-.
    destruct Hin as [<- | Hin].
    + exists idx. split; [left; reflexivity | assumption].
    + destruct (IH _ _ Hfs Hin) as (i & Hi & Hfr). exists i. split; [right|]; assumption.
Qed.

Lemma sprite_layers_in (g : float) (plist : list (string * json))
      (fmap : list (list (string * json))) (total : nat) (order : list string) :
  forall layers name fs,
    sprite_layers float_of_str g plist fmap total order = Ok layers ->
    In (name, fs) layers ->
    In name order /\
    sprite_frames float_of_str g name
      (match sget name plist with Some e => e | None => JDict [] end)
      fmap (seq 0 total) = Ok fs.
Proof.
  induction order as [|n order IH]; cbn [sprite_layers]; intros layers name fs H Hin.
  - injection H as <-. destruct Hin.
  - bind_inv H as fs0 Hfs0. bind_inv H as ls Hls. injection H as <-.
    destruct Hin as [E | Hin].
    + injection E as <- <-. split; [left; reflexivity | assumption].
    + destruct (IH _ _ _ Hls Hin) as (Ho & Hf). split; [right|]; assumption.
Qed.

End CompositorFacts.

(** *** The stage timeline, slot by slot *)

Lemma files_flat_true (key : string) (t : flat) :
  files_flat key t = true <-> flat_key t = Ok key.
Proof.
  unfold files_flat. destruct (flat_key t) as [k|e].
  - split.
    + intros H. apply String.eqb_eq in H. congruence.
    + intros H. injection H as ->. apply String.eqb_refl.
  - split; discriminate.
Qed.

Lemma last_filed_snoc (key : string) (l : list flat) (t : flat) :
  last_filed key (l ++ [t]) = if files_flat key t then Some t else last_filed key l.
Proof. unfold last_filed. rewrite rev_app_distr. reflexivity. Qed.

Lemma init_layer_frames_empty (n2i : list (string * string)) (key : string) (fi : nat) :
  slot (init_layer_frames n2i) key fi = None.
Proof.
  unfold slot, init_layer_frames.
  assert (G : forall (l : list string) (d : layer_table),
             (forall k slots, sget k d = Some slots -> slots = []) ->
             forall k slots,
               sget k (fold_left (fun lf n => sset (sanitize n) [] lf) l d) = Some slots ->
               slots = []).
  { induction l as [|n l IH]; cbn [fold_left]; intros d Hd; [exact Hd|].
    apply IH. intros k slots.
    destruct (String.eqb_spec k (sanitize n)) as [-> | Hne].
    - rewrite sget_sset_same. intros H. injection H as <-. reflexivity.
    - rewrite sget_sset_other by assumption. apply Hd. }
  destruct (sget key (fold_left _ (dict_keys n2i) [])) as [slots|] eqn:E; [|reflexivity].
  apply G in E; [subst; reflexivity | intros k s H; discriminate H].
Qed.

Section StageTrackFacts.

Variable float_of_str : string -> option float.
Variable shared : json.
Variable depth : nat.

Lemma record_flats_slot (fi : nat) (key : string) (l : list flat) :
  forall lf lf',
    record_flats fi lf l = Ok lf' ->
    smem key lf = true ->
    slot lf' key fi =
    match last_filed key l with
    | Some t => Some (entry_of key t)
    | None => slot lf key fi
    end.
Proof.
  induction l as [|t l IH] using rev_ind; intros lf lf' H Hm.
  - injection H as <-. reflexivity.
  - rewrite record_flats_app in H. bind_inv H as lf1 Hlf1.
    cbn [record_flats] in H. bind_inv H as lf2 Hlf2. injection H as <-.
    rewrite last_filed_snoc.
    assert (Hm1 : smem key lf1 = true).
    { apply smem_in. rewrite (record_flats_keys _ _ _ _ Hlf1). apply smem_in. assumption. }
    destruct (files_flat key t) eqn:Ef.
    + apply files_flat_true in Ef. eapply record_flat_hit; eassumption.
    + rewrite (record_flat_miss fi fi _ _ _ key Hlf2).
      * apply IH; assumption.
      * left. intros Hk. apply files_flat_true in Hk. congruence.
Qed.

Lemma record_frames_slot (frames : list json) :
  forall fi lf lf' i fr,
    record_frames float_of_str shared depth fi lf frames = Ok lf' ->
    nth_error frames i = Some fr ->
    exists flats,
      frame_flats float_of_str shared depth (fi + i) fr = Ok flats /\
      forall key,
        smem key lf = true ->
        slot lf' key (fi + i) =
        match last_filed key flats with
        | Some t => Some (entry_of key t)
        | None => slot lf key (fi + i)
        end.
Proof.
  induction frames as [|fr0 frames IH]; intros fi lf lf' i fr H Hi.
  - destruct i; discriminate.
  - cbn [record_frames] in H. bind_inv H as roots Hroots. bind_inv H as bones Hbones.
    bind_inv H as lf1 Hlf1.
    destruct (record_bones_flats _ _ _ _ _ _ _ Hlf1) as (flats & Hc & Hr).
    destruct i as [|i]; cbn [nth_error] in Hi.
    + injection Hi as <-. rewrite Nat.add_0_r. exists flats. split.
      * unfold frame_flats, frame_roots. rewrite Hroots. cbn [bind].
        rewrite Hbones. cbn [bind]. assumption.
      * intros key Hm.
        rewrite (record_frames_before _ _ _ _ _ _ _ key fi H) by lia.
        apply record_flats_slot; assumption.
    + destruct (IH _ _ _ _ _ H Hi) as (flats' & Hf & Hslot).
      replace (fi + S i)%nat with (S fi + i)%nat by lia.
      exists flats'. split; [assumption|]. intros key Hm.
      rewrite Hslot.
      * rewrite (record_flats_miss fi (S fi + i) key flats lf lf1 Hr) by (left; lia).
        reflexivity.
      * apply smem_in. rewrite (record_flats_keys _ _ _ _ Hr). apply smem_in. assumption.
Qed.

End StageTrackFacts.

Lemma stage_layers_in (g_sx g_sy : float) (n : nat) (lf : layer_table)
      (top_first : list string) :
  forall ls lname fs,
    stage_layers g_sx g_sy n lf top_first = Ok ls ->
    In (lname, fs) ls ->
    exists fmap,
      sget lname lf = Some fmap /\
      fs = map (stage_frame_of g_sx g_sy fmap) (seq 0 n).
Proof.
  induction top_first as [|l0 rest IH]; cbn [stage_layers]; intros ls lname fs H Hin.
  - injection H as <-. destruct Hin.
  - destruct (sget l0 lf) as [fmap|] eqn:E; [|discriminate].
    bind_inv H as ls' Hls'. injection H as <-.
    destruct Hin as [Heq | Hin].
    + injection Heq as <- <-. exists fmap. auto.
    + eapply IH; eassumption.
Qed.

Lemma build_stage_parts (float_of_str : string -> option float) (shared : json)
      (depth : nat) (frames : list json) (plist : list (string * json))
      (idx : list (string * string)) (names : list string) (g_sx g_sy : float)
      (s : stage) :
  build_stage float_of_str shared depth frames plist idx names g_sx g_sy = Ok s ->
  exists n2i lf order,
    image_symbols float_of_str plist idx names [] [] = Ok (st_images s, n2i) /\
    st_sprites s = map (fun kv => (sanitize (fst kv), snd kv)) n2i /\
    record_frames float_of_str shared depth 0 (init_layer_frames n2i) frames = Ok lf /\
    dfs_draw_order shared depth frames = Ok order /\
    stage_layers g_sx g_sy (length frames) lf (rev (bottom_to_top order lf))
    = Ok (st_layers s).
Proof.
  unfold build_stage. intros H. bind_inv H as syms Hsyms. destruct syms as [imgs n2i].
  bind_inv H as lf Hlf. bind_inv H as order Horder. bind_inv H as layers Hlayers.
  injection H as <-. cbn [st_images st_layers st_sprites].
  exists n2i, lf, order. auto.
Qed.

(** C6 (as amended).  In [bbone_to_xfl.py], every instance [_sprite_symbol]
    emits for a piece carries the matrix of the node that [fmap] holds for
    that piece and frame, composed with the origin and the scale of the
    piece's catalogue entry: [tx' = a*ox + c*oy + tx],
    [ty' = b*ox + d*oy + ty], [a' = a*sx], [b' = b*sx], [c' = c*sy],
    [d' = d*sy]; the origin is 0 and the scale 1 when the catalogue has no
    entry for the piece.  When the global scale [g] is not 1.0, all six
    components of that composed matrix are multiplied by [g], once, after
    the composition.  In [main] of [bbone_to_xfl_symbols.py], an instance
    on the stage carries the world matrix of the last flattened record of
    its frame filed under the layer's key, with no origin and no scale of
    the catalogue composed into it, and there is no single global factor:
    [a], [b], [tx] are multiplied by the horizontal stage factor [g_sx]
    and [c], [d], [ty] by the vertical one [g_sy]. *)
Theorem instance_matrix_composition :
  (forall (float_of_str : string -> option float)
          (frames : list json) (piece_names : list string) (labels : list (string * Z))
          (plist : list (string * json)) (include_unused : bool)
          (only : option (list string)) (aliases : list (string * string)) (g : float)
          (sp : sprite) (name : string) (fs : list sprite_frame) (fr : sprite_frame)
          (inst : sprite_instance),
      _sprite_symbol float_of_str frames piece_names labels plist include_unused only
                     aliases g = Ok sp ->
      In (name, fs) (sp_layers sp) ->
      In fr fs ->
      pf_element fr = Some inst ->
      exists fmap counts per nd fmd pd,
        build_fmap aliases frames [] [] = Ok (fmap, counts) /\
        nth_error fmap (pf_index fr) = Some per /\
        sget name per = Some (JDict nd) /\
        match sget "matrix" nd with Some v => v | None => JDict [] end = JDict fmd /\
        match sget name plist with Some e => e | None => JDict [] end = JDict pd /\
        let a := component float_of_str fmd "a" 1 in
        let b := component float_of_str fmd "b" 0 in
        let c := component float_of_str fmd "c" 0 in
        let d := component float_of_str fmd "d" 1 in
        let tx := component float_of_str fmd "tx" 0 in
        let ty := component float_of_str fmd "ty" 0 in
        let ox := component float_of_str pd "origin_x" 0 in
        let oy := component float_of_str pd "origin_y" 0 in
        let sx := component float_of_str pd "scale_x" 1 in
        let sy := component float_of_str pd "scale_y" 1 in
        let a' := (a * sx)%float in
        let b' := (b * sx)%float in
        let c' := (c * sy)%float in
        let d' := (d * sy)%float in
        let tx' := (a * ox + c * oy + tx)%float in
        let ty' := (b * ox + d * oy + ty)%float in
        pi_matrix inst =
          Some (if PrimFloat.eqb g 1 then Affine a' b' c' d' tx' ty'
                else Affine (a' * g) (b' * g) (c' * g) (d' * g) (tx' * g) (ty' * g)) /\
        (sget name plist = None ->
         ox = 0%float /\ oy = 0%float /\ sx = 1%float /\ sy = 1%float))
  /\
  (forall (float_of_str : string -> option float) (shared : json) (depth : nat)
          (frames : list json) (plist : list (string * json))
          (idx : list (string * string)) (names : list string) (g_sx g_sy : float)
          (s : stage) (lname : string) (fs : list stage_frame) (sf : stage_frame)
          (inst : stage_instance),
      main float_of_str shared depth frames plist idx names g_sx g_sy = Done s ->
      In (lname, fs) (st_layers s) ->
      In sf fs ->
      sf_element sf = Some inst ->
      exists fr flats nm M alpha,
        nth_error frames (sf_index sf) = Some fr /\
        frame_flats float_of_str shared depth (sf_index sf) fr = Ok flats /\
        last_filed lname flats = Some (nm, M, alpha) /\
        si_matrix inst =
          Affine (m_a M * g_sx) (m_b M * g_sx) (m_c M * g_sy) (m_d M * g_sy)
                 (m_tx M * g_sx) (m_ty M * g_sy)).
Proof.
  split.
  - intros float_of_str frames piece_names labels plist include_unused only aliases g
           sp name fs fr inst Hsp Hlayer Hfr Hinst.
    unfold _sprite_symbol in Hsp. bind_inv Hsp as fc Hfc. destruct fc as [fmap counts].
    bind_inv Hsp as layers Hlayers. injection Hsp as <-. cbn [sp_layers] in Hlayer.
    destruct (sprite_layers_in _ _ _ _ _ _ _ _ _ Hlayers Hlayer) as (_ & Hfs).
    destruct (sprite_frames_in _ _ _ _ _ _ _ _ Hfs Hfr) as (idx & _ & Hof).
    rewrite (sprite_frame_of_index _ _ _ _ _ _ _ Hof).
    destruct (sprite_frame_of_instance _ _ _ _ _ _ _ _ Hof Hinst)
      as (per & node & M & Hper & Hnode & HM & HpM).
    unfold instance_matrix in HM. bind_inv HM as fm Hfm. bind_inv HM as composed Hc.
    injection HM as <-.
    destruct node as [| | | | |nd]; try discriminate.
    destruct (compose_instance_matrix_ok _ _ _ _ Hc) as (fmd & pd & -> & Hpd).
    rewrite Hpd, compose_instance_matrix_dict in Hc. injection Hc as <-.
    unfold get_or, py_get in Hfm. cbn [bind] in Hfm. injection Hfm as Hfm.
    exists fmap, counts, per, nd, fmd, pd.
    repeat (split; [assumption|]). cbv zeta. split.
    + rewrite HpM. unfold apply_global_scale. cbn [m_a m_b m_c m_d m_tx m_ty].
      destruct (PrimFloat.eqb g 1); reflexivity.
    + intros Habs. rewrite Habs in Hpd. injection Hpd as <-. repeat split.
  - intros float_of_str shared depth frames plist idx names g_sx g_sy s lname fs sf inst
           Hmain Hin Hsf Hel.
    destruct (main_done _ _ _ _ _ _ _ _ _ _ Hmain) as (_ & Hb).
    destruct (build_stage_parts _ _ _ _ _ _ _ _ _ _ Hb)
      as (n2i & lf & order & _ & _ & Hlf & _ & Hlayers).
    destruct (stage_layers_in _ _ _ _ _ _ _ _ Hlayers Hin) as (fmap & Hfmap & ->).
    apply in_map_iff in Hsf. destruct Hsf as (fi & <- & Hfi).
    apply in_seq in Hfi.
    assert (Hidx : sf_index (stage_frame_of g_sx g_sy fmap fi) = fi).
    { unfold stage_frame_of. destruct (nget fi fmap); reflexivity. }
    rewrite Hidx.
    destruct (nth_error frames fi) as [fr|] eqn:Hnth;
      [|apply nth_error_None in Hnth; lia].
    destruct (record_frames_slot _ _ _ _ _ _ _ _ _ Hlf Hnth) as (flats & Hflats & Hslot).
    cbn [Nat.add] in *.
    assert (Hm : smem lname (init_layer_frames n2i) = true).
    { apply smem_in. rewrite <- (record_frames_keys _ _ _ _ _ _ _ Hlf).
      apply smem_in, smem_sget. eauto. }
    specialize (Hslot lname Hm). rewrite init_layer_frames_empty in Hslot.
    unfold slot in Hslot. rewrite Hfmap in Hslot.
    unfold stage_frame_of in Hel. rewrite Hslot in Hel.
    destruct (last_filed lname flats) as [[[nm M] alpha]|] eqn:El; [|discriminate Hel].
    cbn [sf_element entry_of e_m e_name e_alpha fst snd] in Hel. injection Hel as <-.
    exists fr, flats, nm, M, alpha. repeat split; try assumption.
Qed.

(** The eye of the side-by-side frame, with its catalogue entry: in the
    sprite at the global scale 0.5, and on the stage at the stage factors
    0.5 across and 2 down. *)
Lemma instance_matrix_composition_witness :
  (exists sp fs fr inst,
      _sprite_symbol no_numeric_strings [ex_flat_frame] ["eye"; "head"] [] ex_plist
                     false None [] 0.5 = Ok sp /\
      In ("eye", fs) (sp_layers sp) /\ In fr fs /\ pf_element fr = Some inst /\
      pi_matrix inst = Some (Affine 1 0 0 0.5 3.5 6.5) /\
      exists fmap counts per nd fmd pd,
        build_fmap [] [ex_flat_frame] [] [] = Ok (fmap, counts) /\
        nth_error fmap (pf_index fr) = Some per /\
        sget "eye" per = Some (JDict nd) /\
        match sget "matrix" nd with Some v => v | None => JDict [] end = JDict fmd /\
        match sget "eye" ex_plist with Some e => e | None => JDict [] end = JDict pd /\
        let a := component no_numeric_strings fmd "a" 1 in
        let b := component no_numeric_strings fmd "b" 0 in
        let c := component no_numeric_strings fmd "c" 0 in
        let d := component no_numeric_strings fmd "d" 1 in
        let tx := component no_numeric_strings fmd "tx" 0 in
        let ty := component no_numeric_strings fmd "ty" 0 in
        let ox := component no_numeric_strings pd "origin_x" 0 in
        let oy := component no_numeric_strings pd "origin_y" 0 in
        let sx := component no_numeric_strings pd "scale_x" 1 in
        let sy := component no_numeric_strings pd "scale_y" 1 in
        let a' := (a * sx)%float in
        let b' := (b * sx)%float in
        let c' := (c * sy)%float in
        let d' := (d * sy)%float in
        let tx' := (a * ox + c * oy + tx)%float in
        let ty' := (b * ox + d * oy + ty)%float in
        pi_matrix inst =
          Some (if PrimFloat.eqb 0.5 1 then Affine a' b' c' d' tx' ty'
                else Affine (a' * 0.5) (b' * 0.5) (c' * 0.5) (d' * 0.5)
                            (tx' * 0.5) (ty' * 0.5)) /\
        (sget "eye" ex_plist = None ->
         ox = 0%float /\ oy = 0%float /\ sx = 1%float /\ sy = 1%float))
  /\
  (exists s fs sf inst,
      main no_numeric_strings (JDict []) 5 [ex_flat_frame] ex_plist
           (build_png_index ["eye"%string]) ["eye"%string] 0.5 2 = Done s /\
      In ("eye"%string, fs) (st_layers s) /\ In sf fs /\ sf_element sf = Some inst /\
      si_matrix inst = Affine 0.5 0 0 2 2.5 20 /\
      exists fr flats nm M alpha,
        nth_error [ex_flat_frame] (sf_index sf) = Some fr /\
        frame_flats no_numeric_strings (JDict []) 5 (sf_index sf) fr = Ok flats /\
        last_filed "eye" flats = Some (nm, M, alpha) /\
        si_matrix inst =
          Affine (m_a M * 0.5) (m_b M * 0.5) (m_c M * 2) (m_d M * 2)
                 (m_tx M * 0.5) (m_ty M * 2)).
Proof.
  split.
  - do 4 eexists.
    split; [vm_compute; reflexivity|].
    split; [left; reflexivity|].
    split; [left; reflexivity|].
    split; [reflexivity|].
    split; [reflexivity|].
    apply (proj1 instance_matrix_composition no_numeric_strings [ex_flat_frame]
             ["eye"; "head"] [] ex_plist false None [] 0.5%float _ "eye" _ _ _
             eq_refl (or_introl eq_refl) (or_introl eq_refl) eq_refl).
  - do 4 eexists.
    split; [vm_compute; reflexivity|].
    split; [left; reflexivity|].
    split; [left; reflexivity|].
    split; [reflexivity|].
    split; [reflexivity|].
    apply (proj2 instance_matrix_composition no_numeric_strings (JDict []) 5%nat
             [ex_flat_frame] ex_plist (build_png_index ["eye"%string]) ["eye"%string]
             0.5%float 2%float _ "eye"%string _ _ _
             eq_refl (or_introl eq_refl) (or_introl eq_refl) eq_refl).
Defined.

(** C6, counterexample: the eye at (5, 10) with the catalogue entry of origin
    (2, 3) and horizontal scale 2.  On the stage [main] builds at the
    stage factors 0.5 and 2, its instance has the matrix
    [(0.5, 0, 0, 2, 2.5, 20)]: neither the origin nor the scale of the
    catalogue is composed into it, and [a] and [d] are scaled by different
    factors.  The sprite of [bbone_to_xfl.py] at the global scale 0.5 has
    [(1, 0, 0, 0.5, 3.5, 6.5)] for the same eye. *)
Lemma stage_instance_is_not_composed_with_the_catalogue :
  main no_numeric_strings (JDict []) 5 [JDict [("children", JList [ex_eye])]] ex_plist
       (build_png_index ["eye"%string]) ["eye"%string] 0.5 2
  = Done (Stage [("eye"%string, Affine 2 0 0 1 2 3)]
                [("eye"%string, "image/eye"%string)]
                [("eye"%string,
                  [StageFrame 0 1
                     (Some (StageInstance "sprite/eye" (Affine 0.5 0 0 2 2.5 20) None))])])
  /\
  _sprite_symbol no_numeric_strings [JDict [("children", JList [ex_eye])]] ["eye"%string] [] ex_plist
                 false None [] 0.5
  = Ok (Sprite None
          [("eye"%string,
            [SpriteFrame 0 1
               (Some (SpriteInstance "image/eye" "eye_inst"
                        (Some (Affine 1 0 0 0.5 3.5 6.5)) None))])]).
Proof. split; vm_compute; reflexivity. Qed.

(** The scenario of the specification: an eye at (5, 10) under a head, no
    origin or scale, global scale 0.5. *)
Example eye_at_half_scale :
  exists layers,
    _sprite_symbol no_numeric_strings [ex_flat_frame] ["eye"] [] [] false None [] 0.5
    = Ok (Sprite None layers) /\
    layers = [("eye", [SpriteFrame 0 1
                         (Some (SpriteInstance "image/eye" "eye_inst"
                                  (Some (Affine 0.5 0 0 0.5 2.5 5)) None))])].
Proof. eexists. split; vm_compute; reflexivity. Qed.

(** In [main] of [bbone_to_xfl_symbols.py] the stage instance has no origin
    or scale of its own (they are the matrix of the image symbol) and the
    two stage factors scale it by column and by row. *)
Lemma stage_frame_scaling (g_sx g_sy : float) (fmap : list (nat * entry)) (fi : nat)
      (e : entry) :
  nget fi fmap = Some e ->
  sf_element (stage_frame_of g_sx g_sy fmap fi) =
  Some (StageInstance (e_name e)
          (Affine (m_a (e_m e) * g_sx) (m_b (e_m e) * g_sx)
                  (m_c (e_m e) * g_sy) (m_d (e_m e) * g_sy)
                  (m_tx (e_m e) * g_sx) (m_ty (e_m e) * g_sy))
          (if PrimFloat.eqb (e_alpha e) 1 then None else Some (e_alpha e))).
Proof. unfold stage_frame_of. intros ->. reflexivity. Qed.

(** *** Strings *)

Local Open Scope string_scope.

Lemma sapp_assoc (a b c : string) : (a ++ b) ++ c = a ++ (b ++ c).
Proof. induction a as [|x a IH]; cbn; [reflexivity | rewrite IH; reflexivity]. Qed.

Lemma sapp_nil_r (a : string) : a ++ EmptyString = a.
Proof. induction a as [|x a IH]; cbn; [reflexivity | rewrite IH; reflexivity]. Qed.

Lemma slength_app (a b : string) :
  String.length (a ++ b) = (String.length a + String.length b)%nat.
Proof. induction a as [|x a IH]; cbn; [reflexivity | rewrite IH; reflexivity]. Qed.

Lemma substring_all (a : string) : substring 0 (String.length a) a = a.
Proof. induction a as [|x a IH]; cbn; [reflexivity | rewrite IH; reflexivity]. Qed.

Lemma substring_app_l (a b : string) : substring 0 (String.length a) (a ++ b) = a.
Proof.
  induction a as [|x a IH]; cbn.
  - destruct b; reflexivity.
  - rewrite IH. reflexivity.
Qed.

Lemma drop_last_app (a b : string) : drop_last (String.length b) (a ++ b) = a.
Proof.
  unfold drop_last. rewrite slength_app.
  replace (String.length a + String.length b - String.length b)%nat
    with (String.length a) by lia.
  apply substring_app_l.
Qed.

Lemma last_char_snoc (a : string) (c : ascii) :
  last_char (a ++ String c EmptyString) = Some c.
Proof.
  induction a as [|x a IH]; [reflexivity|].
  cbn [append last_char]. rewrite IH.
  destruct (a ++ String c EmptyString) eqn:E; [|reflexivity].
  destruct a; discriminate.
Qed.

Lemma contains_char_app (a : ascii) (p q : string) :
  contains_char a (p ++ q) = contains_char a p || contains_char a q.
Proof.
  induction p as [|x p IH]; cbn; [reflexivity|].
  rewrite IH. apply orb_assoc.
Qed.

Lemma all_space_app (p q : string) :
  all_space (p ++ q) = all_space p && all_space q.
Proof.
  induction p as [|x p IH]; cbn; [reflexivity|].
  rewrite IH. apply andb_assoc.
Qed.

(** **** [strip] *)

Lemma lstrip_split (s : string) :
  exists ws, s = ws ++ lstrip s /\ all_space ws = true /\ starts_clean (lstrip s) = true.
Proof.
  induction s as [|c s IH]; cbn [lstrip].
  - exists EmptyString. auto.
  - destruct (is_space c) eqn:E.
    + destruct IH as (ws & Hs & Hws & Hc). exists (String c ws). cbn.
      rewrite <- Hs, E, Hws. auto.
    + exists EmptyString. cbn. rewrite E. auto.
Qed.

Lemma rstrip_split (s : string) :
  exists ws, s = rstrip s ++ ws /\ all_space ws = true /\ ends_clean (rstrip s) = true.
Proof.
  induction s as [|c s IH]; cbn [rstrip].
  - exists EmptyString. auto.
  - destruct IH as (ws & Hs & Hws & Hc).
    destruct (rstrip s) as [|r0 r] eqn:Er.
    + cbn [append] in Hs. subst ws. destruct (is_space c) eqn:E.
      * exists (String c s). cbn. rewrite E, Hws. auto.
      * exists s. cbn. unfold ends_clean. cbn. rewrite E. auto.
    + exists ws. cbn [append]. cbn [append] in Hs. rewrite <- Hs.
      split; [reflexivity|]. split; [assumption|].
      unfold ends_clean in *. cbn [last_char] in *. exact Hc.
Qed.

Lemma rstrip_starts_clean (s : string) :
  starts_clean s = true -> starts_clean (rstrip s) = true.
Proof.
  destruct s as [|c s]; [reflexivity|]. cbn [starts_clean rstrip]. intros Hc.
  destruct (rstrip s).
  - destruct (is_space c) eqn:E; [discriminate | cbn; rewrite E; reflexivity].
  - exact Hc.
Qed.

Lemma strip_split (s : string) :
  exists ws1 ws2,
    s = ws1 ++ strip s ++ ws2 /\
    all_space ws1 = true /\ all_space ws2 = true /\
    starts_clean (strip s) = true /\ ends_clean (strip s) = true.
Proof.
  unfold strip.
  destruct (lstrip_split s) as (ws1 & Hs1 & Hws1 & Hc1).
  destruct (rstrip_split (lstrip s)) as (ws2 & Hs2 & Hws2 & Hc2).
  exists ws1, ws2. rewrite <- Hs2.
  repeat split; try assumption. apply rstrip_starts_clean. assumption.
Qed.

(** **** The last path separator *)

Lemma after_last_none (a : ascii) (s : string) :
  contains_char a s = false -> after_last a s = s.
Proof.
  induction s as [|c s IH]; [reflexivity|].
  cbn [contains_char after_last]. intros H. apply orb_false_iff in H.
  destruct H as [Hc Hs]. rewrite Hs, Hc. reflexivity.
Qed.

Lemma after_last_split (a : ascii) (s : string) :
  contains_char a s = true ->
  exists pre, s = pre ++ String a (after_last a s).
Proof.
  induction s as [|c s IH]; [discriminate|].
  cbn [contains_char after_last]. intros H.
  destruct (contains_char a s) eqn:Es.
  - destruct (IH eq_refl) as (pre & Hpre). exists (String c pre). cbn.
    rewrite <- Hpre. reflexivity.
  - rewrite orb_false_r in H. rewrite H. apply Ascii.eqb_eq in H. subst c.
    exists EmptyString. reflexivity.
Qed.

Lemma after_last_clean (a : ascii) (s : string) :
  contains_char a (after_last a s) = false.
Proof.
  induction s as [|c s IH]; [reflexivity|].
  cbn [after_last]. destruct (contains_char a s) eqn:Es; [assumption|].
  destruct (Ascii.eqb c a) eqn:Ec; [assumption|].
  cbn [contains_char]. rewrite Ec, Es. reflexivity.
Qed.

(** What is left of [s] after the last [a]: all of [s], or what follows a
    prefix that ends in [a]. *)
Lemma after_last_suffix (a : ascii) (s : string) :
  exists pre,
    s = pre ++ after_last a s /\
    (pre = EmptyString \/ last_char pre = Some a).
Proof.
  destruct (contains_char a s) eqn:E.
  - destruct (after_last_split a s E) as (pre & Hpre).
    exists (pre ++ String a EmptyString). split.
    + rewrite sapp_assoc. exact Hpre.
    + right. apply last_char_snoc.
  - exists EmptyString. rewrite (after_last_none a s E). auto.
Qed.

(** **** The extension *)

Lemma endswith_split (suf s : string) :
  endswith suf s = true -> exists pre, s = pre ++ suf.
Proof.
  induction s as [|c s IH]; cbn [endswith]; intros H.
  - rewrite orb_false_r in H. apply String.eqb_eq in H. subst suf.
    exists EmptyString. reflexivity.
  - apply orb_true_iff in H. destruct H as [H | H].
    + apply String.eqb_eq in H. subst suf. exists EmptyString. reflexivity.
    + destruct (IH H) as (pre & ->). exists (String c pre). reflexivity.
Qed.

Lemma lower_app_inv (s p q : string) :
  lower s = p ++ q ->
  exists s1 s2,
    s = s1 ++ s2 /\ lower s1 = p /\ lower s2 = q /\ String.length s2 = String.length q.
Proof.
  revert s. induction p as [|x p IH]; intros s H.
  - exists EmptyString, s. cbn in *. repeat split; try assumption.
    rewrite <- H. clear. induction s as [|c s IH]; cbn; [reflexivity | rewrite IH; reflexivity].
  - destruct s as [|c s]; [discriminate|]. cbn in H. injection H as Hc Hs.
    destruct (IH _ Hs) as (s1 & s2 & -> & H1 & H2 & Hl).
    exists (String c s1), s2. cbn. rewrite H1, Hc. auto.
Qed.

Lemma last_char_app (p q : string) :
  q <> EmptyString -> last_char (p ++ q) = last_char q.
Proof.
  intros Hq. induction p as [|x p IH]; [reflexivity|].
  cbn [append last_char]. rewrite IH.
  destruct (p ++ q) eqn:E; [|reflexivity].
  destruct p; [cbn in E; contradiction | discriminate].
Qed.

(** **** [_norm_name] *)

(** The two guards on the separators change nothing: without the separator
    [split(sep)[-1]] is the string itself. *)
Lemma norm_name_steps (raw : string) :
  _norm_name raw =
  let n := after_last backslash (after_last "/"%char (strip raw)) in
  if endswith ".png" (lower n) then drop_last 4 n else n.
Proof.
  unfold _norm_name. destruct raw as [|c raw]; [reflexivity|].
  cbn [str_truthy negb].
  set (n0 := strip (String c raw)).
  assert (E1 : (if contains_char "/"%char n0 then after_last "/"%char n0 else n0)
               = after_last "/"%char n0).
  { destruct (contains_char "/"%char n0) eqn:E; [reflexivity|].
    symmetry. apply after_last_none. assumption. }
  rewrite E1. set (n1 := after_last "/"%char n0).
  assert (E2 : (if contains_char backslash n1 then after_last backslash n1 else n1)
               = after_last backslash n1).
  { destruct (contains_char backslash n1) eqn:E; [reflexivity|].
    symmetry. apply after_last_none. assumption. }
  rewrite E2. reflexivity.
Qed.

Lemma lower_char_dot (c : ascii) :
  Ascii.eqb (lower_char c) "."%char = Ascii.eqb c "."%char.
Proof. destruct c as [[] [] [] [] [] [] [] []]; vm_compute; reflexivity. Qed.

Lemma lower_char_p (c : ascii) :
  Ascii.eqb (lower_char c) "p"%char = Ascii.eqb c "p"%char || Ascii.eqb c "P"%char.
Proof. destruct c as [[] [] [] [] [] [] [] []]; vm_compute; reflexivity. Qed.

Lemma lower_char_n (c : ascii) :
  Ascii.eqb (lower_char c) "n"%char = Ascii.eqb c "n"%char || Ascii.eqb c "N"%char.
Proof. destruct c as [[] [] [] [] [] [] [] []]; vm_compute; reflexivity. Qed.

Lemma lower_char_g (c : ascii) :
  Ascii.eqb (lower_char c) "g"%char = Ascii.eqb c "g"%char || Ascii.eqb c "G"%char.
Proof. destruct c as [[] [] [] [] [] [] [] []]; vm_compute; reflexivity. Qed.

Lemma lower_is_png (e : string) : String.eqb (lower e) ".png" = is_png_ext e.
Proof.
  destruct e as [|c0 [|c1 [|c2 [|c3 [|c4 e]]]]];
    cbn [lower is_png_ext String.eqb];
    rewrite ?lower_char_dot, ?lower_char_p, ?lower_char_n, ?lower_char_g;
    repeat match goal with
           | |- context [Ascii.eqb ?c ?x] => destruct (Ascii.eqb c x)
           end;
    reflexivity.
Qed.

Lemma lower_app (a b : string) : lower (a ++ b) = lower a ++ lower b.
Proof. induction a as [|x a IH]; cbn; [reflexivity | rewrite IH; reflexivity]. Qed.

Lemma endswith_app (pre suf : string) : endswith suf (pre ++ suf) = true.
Proof.
  induction pre as [|x pre IH]; cbn [append].
  - destruct suf; cbn [endswith]; rewrite String.eqb_refl; reflexivity.
  - cbn [endswith]. rewrite IH. apply orb_true_r.
Qed.

(** The test of the extension, without the code's lower-casing: the name
    ends in [.png] in some letter case. *)
Lemma endswith_png_iff (n : string) :
  endswith ".png" (lower n) = true <->
  exists stem e, n = stem ++ e /\ is_png_ext e = true.
Proof.
  split.
  - intros H. destruct (endswith_split _ _ H) as (lp & Hlp).
    destruct (lower_app_inv _ _ _ Hlp) as (s1 & s2 & Hn & _ & Hlow & _).
    exists s1, s2. split; [assumption|].
    rewrite <- lower_is_png, Hlow. reflexivity.
  - intros (stem & e & -> & He).
    rewrite <- lower_is_png in He. apply String.eqb_eq in He.
    rewrite lower_app, He. apply endswith_app.
Qed.

(** C8 (as amended).  For every raw part name, [_norm_name] first trims the
    white space around the whole name; of the trimmed name it keeps what
    follows the last ['/'] or ['\'] --- the result holds no separator, and
    what is cut in front is empty or ends in one ---, and last it cuts a
    trailing [.png] in any letter case, and no other extension.  So the
    raw name is white space, a path prefix, the normalised name, the
    extension cut (if any), and white space; white space that follows the
    last separator or precedes the extension stays in the result.  The
    alias map is read with that normalised name, only when it is not
    empty, and its entry replaces the name when there is one.  The name a
    child is filed under in a frame's map is this function of the raw name
    and the alias map, whatever the map and the counts hold already. *)
Theorem name_normalisation (raw : string) (aliases : list (string * string)) :
  (exists ws1 ws2 pre ext,
      raw = ws1 ++ (pre ++ _norm_name raw ++ ext) ++ ws2 /\
      all_space ws1 = true /\ all_space ws2 = true /\
      starts_clean (pre ++ _norm_name raw ++ ext) = true /\
      ends_clean (pre ++ _norm_name raw ++ ext) = true /\
      (pre = EmptyString \/ exists c, last_char pre = Some c /\ is_sep c = true) /\
      contains_char "/"%char (_norm_name raw ++ ext) = false /\
      contains_char backslash (_norm_name raw ++ ext) = false /\
      ((ext = EmptyString /\
        forall stem e, is_png_ext e = true -> _norm_name raw <> stem ++ e)
       \/ is_png_ext ext = true))
  /\
  norm_name_obj (Some (JStr raw)) = Ok (_norm_name raw)
  /\
  resolve_name aliases (Some (JStr raw)) =
    Ok (if str_truthy (_norm_name raw)
        then Some (match sget (_norm_name raw) aliases with
                   | Some c => c
                   | None => _norm_name raw
                   end)
        else None)
  /\
  (forall (rest per : list (string * json)) (counts : list (string * nat)),
      file_child aliases (per, counts) (JDict (("name", JStr raw) :: rest)) =
      Ok (if str_truthy (_norm_name raw)
          then
            let n := match sget (_norm_name raw) aliases with
                     | Some c => c
                     | None => _norm_name raw
                     end in
            (sset n (JDict (("name", JStr raw) :: rest)) per,
             sset n (S (match sget n counts with Some k => k | None => O end)) counts)
          else (per, counts))).
Proof.
  assert (Hobj : norm_name_obj (Some (JStr raw)) = Ok (_norm_name raw)).
  { unfold norm_name_obj. destruct raw; reflexivity. }
  assert (Hres : resolve_name aliases (Some (JStr raw)) =
                 Ok (if str_truthy (_norm_name raw)
                     then Some (match sget (_norm_name raw) aliases with
                                | Some c => c
                                | None => _norm_name raw
                                end)
                     else None)).
  { unfold resolve_name. rewrite Hobj. cbn [bind].
    destruct (str_truthy (_norm_name raw)); reflexivity. }
  split; [|split; [exact Hobj | split; [exact Hres|]]].
  - destruct (strip_split raw) as (ws1 & ws2 & Hraw & Hws1 & Hws2 & Hsc & Hec).
    destruct (after_last_suffix "/"%char (strip raw)) as (p0 & Hp0 & Hp0end).
    set (n1 := after_last "/"%char (strip raw)) in *.
    destruct (after_last_suffix backslash n1) as (p1 & Hp1 & Hp1end).
    set (n2 := after_last backslash n1) in *.
    assert (Hslash : contains_char "/"%char n2 = false).
    { pose proof (after_last_clean "/"%char (strip raw)) as H. fold n1 in H.
      rewrite Hp1, contains_char_app in H. apply orb_false_iff in H. apply H. }
    assert (Hback : contains_char backslash n2 = false) by apply after_last_clean.
    assert (Hpre : p0 ++ p1 = EmptyString \/
                   exists c, last_char (p0 ++ p1) = Some c /\ is_sep c = true).
    { destruct Hp1end as [-> | Hl1].
      - rewrite sapp_nil_r. destruct Hp0end as [-> | Hl0]; [left; reflexivity|].
        right. exists "/"%char. split; [assumption | reflexivity].
      - right. exists backslash. split; [|reflexivity].
        rewrite last_char_app; [assumption|]. intros ->. discriminate. }
    assert (Hstrip : strip raw = (p0 ++ p1) ++ n2).
    { rewrite sapp_assoc, <- Hp1. exact Hp0. }
    rewrite norm_name_steps. cbv zeta. fold n1. fold n2.
    destruct (endswith ".png" (lower n2)) eqn:Eext.
    + destruct (endswith_split _ _ Eext) as (lp & Hlp).
      destruct (lower_app_inv _ _ _ Hlp) as (s1 & s2 & Hn2 & _ & Hlow & Hlen).
      exists ws1, ws2, (p0 ++ p1), s2.
      replace (drop_last 4 n2) with s1
        by (rewrite Hn2; change 4%nat with (String.length ".png"); rewrite <- Hlen;
            symmetry; apply drop_last_app).
      rewrite <- Hn2, <- Hstrip. repeat split; try assumption. right.
      rewrite <- lower_is_png, Hlow. reflexivity.
    + exists ws1, ws2, (p0 ++ p1), EmptyString.
      rewrite sapp_nil_r, <- Hstrip. repeat split; try assumption. left.
      split; [reflexivity|]. intros stem e He Habs.
      assert (Ht : endswith ".png" (lower n2) = true)
        by (apply endswith_png_iff; eauto).
      rewrite Ht in Eext. discriminate Eext.
  - intros rest per counts. unfold file_child.
    change (py_get (JDict (("name", JStr raw) :: rest)) "name")
      with (Ok (A := option json) (Some (JStr raw))).
    cbn [bind]. rewrite Hres. cbn [bind].
    destruct (str_truthy (_norm_name raw)); reflexivity.
Qed.

(** A raw name with white space around it, a path of both separators and
    an upper-case extension; the alias map knows the normalised name. *)
Lemma name_normalisation_witness :
  (exists ws1 ws2 pre ext,
      "  dir/sub\Eye.PNG " = ws1 ++ (pre ++ "Eye" ++ ext) ++ ws2 /\
      all_space ws1 = true /\ all_space ws2 = true /\
      starts_clean (pre ++ "Eye" ++ ext) = true /\
      ends_clean (pre ++ "Eye" ++ ext) = true /\
      (pre = EmptyString \/ exists c, last_char pre = Some c /\ is_sep c = true) /\
      contains_char "/"%char ("Eye" ++ ext) = false /\
      contains_char backslash ("Eye" ++ ext) = false /\
      ((ext = EmptyString /\
        forall stem e, is_png_ext e = true -> "Eye" <> stem ++ e)
       \/ is_png_ext ext = true))
  /\
  resolve_name [("Eye", "eye_01")] (Some (JStr "  dir/sub\Eye.PNG ")) = Ok (Some "eye_01")
  /\
  resolve_name [("Eye", "eye_01")] (Some (JStr "arm.Png")) = Ok (Some "arm").
Proof.
  split; [|split].
  - exact (proj1 (name_normalisation "  dir/sub\Eye.PNG " [("Eye", "eye_01")])).
  - exact (proj1 (proj2 (proj2 (name_normalisation "  dir/sub\Eye.PNG "
                                   [("Eye", "eye_01")])))).
  - exact (proj1 (proj2 (proj2 (name_normalisation "arm.Png" [("Eye", "eye_01")])))).
Defined.

(** C8, counterexample: the white space is trimmed around the raw name
    only, before the path and the extension are cut, so the result can
    begin or end with white space; and [.png] is the only extension cut. *)
Lemma norm_name_trims_first_and_cuts_only_png :
  _norm_name "x/ y.png" = " y" /\
  _norm_name "eye .png" = "eye " /\
  _norm_name "arm.jpg" = "arm.jpg" /\
  _norm_name "arm.PNG.gif" = "arm.PNG.gif".
Proof. repeat split. Qed.

Example norm_name_examples :
  _norm_name "  dir/sub\Eye.PNG " = "Eye" /\
  _norm_name "a.png " = "a" /\
  _norm_name "x/ y.png" = " y" /\
  _norm_name "arm.jpg" = "arm.jpg" /\
  resolve_name [("Eye", "eye_01")] (Some (JStr "art/Eye.png")) = Ok (Some "eye_01").
Proof. repeat split. Qed.

Local Open Scope list_scope.

(** *** Missing and malformed numeric fields *)

Section NumericFacts.

Variable float_of_str : string -> option float.
Variable shared : json.

Lemma float_field_missing (d : list (string * json)) (k : string) (dflt : float) :
  sget k d = None -> float_field float_of_str (JDict d) k dflt = Ok dflt.
Proof. unfold float_field, get_or, py_get. cbn [bind]. intros ->. reflexivity. Qed.

Lemma float_field_number (d : list (string * json)) (k : string) (dflt x : float) :
  sget k d = Some (JNum x) -> float_field float_of_str (JDict d) k dflt = Ok x.
Proof. unfold float_field, get_or, py_get. cbn [bind]. intros ->. reflexivity. Qed.

Lemma float_field_number_or (d : list (string * json)) (k : string) (dflt : float) :
  (sget k d = None \/ exists x, sget k d = Some (JNum x)) ->
  float_field float_of_str (JDict d) k dflt = Ok (number_or d k dflt).
Proof.
  unfold number_or. intros [H | (x & H)]; rewrite H.
  - apply float_field_missing. assumption.
  - apply float_field_number. assumption.
Qed.

Lemma float_field_malformed (d : list (string * json)) (k : string) (dflt : float)
      (v : json) (e : exn) :
  sget k d = Some v -> to_float float_of_str v = Raise e ->
  float_field float_of_str (JDict d) k dflt = Raise e.
Proof. unfold float_field, get_or, py_get. cbn [bind]. intros -> ->. reflexivity. Qed.

Lemma component_missing (d : list (string * json)) (k : string) (dflt : float) :
  sget k d = None -> component float_of_str d k dflt = dflt.
Proof. unfold component. intros ->. reflexivity. Qed.

End NumericFacts.

Section NodeLocalFacts.

Variable float_of_str : string -> option float.
Variables nd md cd : list (string * json).

Hypothesis matrix_is : 
  py_or (match sget "matrix" nd with Some v => v | None => JDict [] end) (JDict [])
  = JDict md.
Hypothesis color_is :
  py_or (match sget "color" nd with Some v => v | None => JNull end) (JDict [])
  = JDict cd.

Lemma node_local_dict :
  node_local float_of_str (JDict nd) =
  (a <- float_field float_of_str (JDict md) "a" 1 ;;
   b <- float_field float_of_str (JDict md) "b" 0 ;;
   c <- float_field float_of_str (JDict md) "c" 0 ;;
   d <- float_field float_of_str (JDict md) "d" 1 ;;
   tx <- float_field float_of_str (JDict md) "tx" 0 ;;
   ty <- float_field float_of_str (JDict md) "ty" 0 ;;
   am <- float_field float_of_str (JDict cd) "alphaMultiplier" 1 ;;
   Ok (match sget "name" nd with Some v => v | None => JStr EmptyString end,
       Affine a b c d tx ty, am)).
Proof.
  unfold node_local.
  change (get_or (JDict nd) "name" (JStr EmptyString))
    with (Ok (A := json) (match sget "name" nd with Some v => v | None => JStr EmptyString end)).
  change (get_or (JDict nd) "matrix" (JDict []))
    with (Ok (A := json) (match sget "matrix" nd with Some v => v | None => JDict [] end)).
  change (get_or (JDict nd) "color" JNull)
    with (Ok (A := json) (match sget "color" nd with Some v => v | None => JNull end)).
  cbn [bind]. rewrite matrix_is, color_is. reflexivity.
Qed.

Lemma node_local_defaults :
  (forall k, In k ["a"; "b"; "c"; "d"; "tx"; "ty"]%string ->
             sget k md = None \/ exists x, sget k md = Some (JNum x)) ->
  (sget "alphaMultiplier" cd = None \/
   exists x, sget "alphaMultiplier" cd = Some (JNum x)) ->
  node_local float_of_str (JDict nd) =
  Ok (match sget "name" nd with Some v => v | None => JStr EmptyString end,
      Affine (number_or md "a" 1) (number_or md "b" 0) (number_or md "c" 0)
             (number_or md "d" 1) (number_or md "tx" 0) (number_or md "ty" 0),
      number_or cd "alphaMultiplier" 1).
Proof.
  intros Hm Hc. rewrite node_local_dict.
  rewrite !float_field_number_or; [reflexivity | auto | | | | | |];
    apply Hm; cbn; auto 10.
Qed.

Lemma node_local_malformed (k : string) (v : json) (e : exn) :
  (In k ["a"; "b"; "c"; "d"; "tx"; "ty"]%string /\ sget k md = Some v) \/
  (k = "alphaMultiplier"%string /\ sget k cd = Some v) ->
  to_float float_of_str v = Raise e ->
  exists e', node_local float_of_str (JDict nd) = Raise e'.
Proof.
  intros Hk Hv. destruct (node_local float_of_str (JDict nd)) as [r|e'] eqn:E;
    [|eauto].
  exfalso. rewrite node_local_dict in E.
  bind_inv E as a Ha. bind_inv E as b Hb. bind_inv E as c Hc. bind_inv E as d Hd.
  bind_inv E as tx Htx. bind_inv E as ty Hty. bind_inv E as am Ham.
  destruct Hk as [[Hin Hs] | [-> Hs]].
  - cbn in Hin.
    destruct Hin as [<- | [<- | [<- | [<- | [<- | [<- | []]]]]]];
      match goal with
      | H : float_field _ _ ?key _ = Ok _ |- _ =>
          match type of Hs with
          | sget key _ = _ =>
              rewrite (float_field_malformed _ _ _ _ _ _ Hs Hv) in H; discriminate H
          end
      end.
  - rewrite (float_field_malformed _ _ _ _ _ _ Hs Hv) in Ham. discriminate Ham.
Qed.

End NodeLocalFacts.

(** C9 (as amended).  In the flattener ([compose_list]) a missing matrix
    field defaults component-wise to the identity value (a=1, b=0, c=0, d=1,
    tx=0, ty=0) and a missing alpha multiplier to 1.0, and a numeric field
    is taken as it is; a field that [float] refuses is not defaulted there:
    its exception leaves [compose_list].  In the sprite converter
    ([compose_instance_matrix]) a missing field of the frame matrix or of
    the catalogue entry takes the same defaults, and no field of a dict,
    missing or malformed, raises. *)
Theorem missing_and_malformed_fields
        (float_of_str : string -> option float) (shared : json)
        (nd md cd : list (string * json)) :
  py_or (match sget "matrix" nd with Some v => v | None => JDict [] end) (JDict [])
  = JDict md ->
  py_or (match sget "color" nd with Some v => v | None => JNull end) (JDict [])
  = JDict cd ->
  ((forall k, In k ["a"; "b"; "c"; "d"; "tx"; "ty"]%string ->
              sget k md = None \/ exists x, sget k md = Some (JNum x)) ->
   (sget "alphaMultiplier" cd = None \/
    exists x, sget "alphaMultiplier" cd = Some (JNum x)) ->
   node_local float_of_str (JDict nd) =
   Ok (match sget "name" nd with Some v => v | None => JStr EmptyString end,
       Affine (number_or md "a" 1) (number_or md "b" 0) (number_or md "c" 0)
              (number_or md "d" 1) (number_or md "tx" 0) (number_or md "ty" 0),
       number_or cd "alphaMultiplier" 1))
  /\
  (md = [] -> cd = [] ->
   node_local float_of_str (JDict nd) =
   Ok (match sget "name" nd with Some v => v | None => JStr EmptyString end,
       Affine 1 0 0 1 0 0, 1%float))
  /\
  (forall k v e,
      (In k ["a"; "b"; "c"; "d"; "tx"; "ty"]%string /\ sget k md = Some v) \/
      (k = "alphaMultiplier"%string /\ sget k cd = Some v) ->
      to_float float_of_str v = Raise e ->
      forall d pw pa fi,
      exists e', compose_list float_of_str shared (S d) (JDict nd) pw pa fi = Raise e')
  /\
  (forall fmd pd,
      compose_instance_matrix float_of_str (JDict fmd) (JDict pd) =
      Ok (Affine (component float_of_str fmd "a" 1 * component float_of_str pd "scale_x" 1)
                 (component float_of_str fmd "b" 0 * component float_of_str pd "scale_x" 1)
                 (component float_of_str fmd "c" 0 * component float_of_str pd "scale_y" 1)
                 (component float_of_str fmd "d" 1 * component float_of_str pd "scale_y" 1)
                 (component float_of_str fmd "a" 1 * component float_of_str pd "origin_x" 0
                  + component float_of_str fmd "c" 0 * component float_of_str pd "origin_y" 0
                  + component float_of_str fmd "tx" 0)
                 (component float_of_str fmd "b" 0 * component float_of_str pd "origin_x" 0
                  + component float_of_str fmd "d" 1 * component float_of_str pd "origin_y" 0
                  + component float_of_str fmd "ty" 0)) /\
      (forall k dflt, sget k fmd = None -> component float_of_str fmd k dflt = dflt) /\
      (forall k dflt, sget k pd = None -> component float_of_str pd k dflt = dflt)).
Proof.
  intros Hm Hc. split; [|split; [|split]].
  - apply node_local_defaults; assumption.
  - intros -> ->. rewrite (node_local_defaults float_of_str nd [] [] Hm Hc).
    + reflexivity.
    + intros k _. left. reflexivity.
    + left. reflexivity.
  - intros k v e Hk Hv d pw pa fi.
    destruct (node_local_malformed float_of_str nd md cd Hm Hc k v e Hk Hv) as (e' & He').
    exists e'. rewrite compose_list_S, He'. reflexivity.
  - intros fmd pd. split; [apply compose_instance_matrix_dict|].
    split; intros k dflt; apply component_missing.
Qed.

(** The bare eye takes the identity and alpha 1.0; the eye with [null] for
    [a] stops the flattener. *)
Lemma missing_and_malformed_fields_witness :
  node_local no_numeric_strings (JDict ex_bare_eye) =
  Ok (JStr "eye", Affine 1 0 0 1 0 0, 1%float)
  /\
  exists e', compose_list no_numeric_strings (JDict []) 5 (JDict ex_bad_eye) mat 1 0
             = Raise e'.
Proof.
  split.
  - exact (proj1 (proj2 (missing_and_malformed_fields no_numeric_strings (JDict [])
                           ex_bare_eye [] [] eq_refl eq_refl))
                 eq_refl eq_refl).
  - exact (proj1 (proj2 (proj2 (missing_and_malformed_fields no_numeric_strings (JDict [])
                                  ex_bad_eye [("a", JNull); ("tx", JNum 5)] []
                                  eq_refl eq_refl)))
                 "a"%string JNull TypeError
                 (or_introl (conj (or_introl eq_refl) eq_refl)) eq_refl
                 4%nat mat 1%float 0%nat).
Defined.

(** C9, counterexample: with [null] for the matrix field [a], the flattener
    raises [TypeError], and [compose_instance_matrix] takes 0.0 for [a], not
    the identity value 1.0. *)
Lemma malformed_field_is_not_identity :
  compose_list no_numeric_strings (JDict []) 5 (JDict ex_bad_eye) mat 1 0
  = Raise TypeError
  /\
  compose_instance_matrix no_numeric_strings (JDict [("a", JNull); ("tx", JNum 5)])
                          (JDict [])
  = Ok (Affine 0 0 0 1 5 0).
Proof. split; vm_compute; reflexivity. Qed.

(** *** Bitmap lookup *)

Lemma find_first {A : Type} (f : A -> bool) (l : list A) (x : A) :
  find f l = Some x <->
  exists pre post,
    l = pre ++ x :: post /\ f x = true /\ forall y, In y pre -> f y = false.
Proof.
  induction l as [|a l IH]; cbn [find].
  - split; [discriminate | intros (pre & post & H & _); destruct pre; discriminate].
  - destruct (f a) eqn:Ea.
    + split.
      * intros H. injection H as <-. exists [], l. cbn.
        split; [reflexivity|]. split; [assumption | intros y []].
      * intros (pre & post & H & Hx & Hpre). destruct pre as [|b pre]; cbn in H.
        -- injection H as <- _. reflexivity.
        -- injection H as <- _. rewrite (Hpre a (or_introl eq_refl)) in Ea. discriminate.
    + rewrite IH. split.
      * intros (pre & post & -> & Hx & Hpre). exists (a :: pre), post. cbn.
        split; [reflexivity|]. split; [assumption|].
        intros y [<- | Hy]; [assumption | apply Hpre; assumption].
      * intros (pre & post & H & Hx & Hpre). destruct pre as [|b pre]; cbn in H.
        -- injection H as <- _. congruence.
        -- injection H as <- ->. exists pre, post. split; [reflexivity|].
           split; [assumption|]. intros y Hy. apply Hpre. right. assumption.
Qed.

Lemma find_none_iff {A : Type} (f : A -> bool) (l : list A) :
  find f l = None <-> forall y, In y l -> f y = false.
Proof.
  split; [apply find_none|].
  induction l as [|a l IH]; cbn [find]; intros H; [reflexivity|].
  rewrite (H a (or_introl eq_refl)). apply IH. intros y Hy. apply H. right. assumption.
Qed.

Local Open Scope string_scope.

Lemma prefix_split (sub s : string) :
  String.prefix sub s = true <-> exists post, s = sub ++ post.
Proof.
  revert s. induction sub as [|c sub IH]; intros s.
  - split; [intros _; exists s; reflexivity | intros _; destruct s; reflexivity].
  - destruct s as [|c' s]; cbn [String.prefix].
    + split; [discriminate | intros (post & H); discriminate].
    + destruct (Ascii.ascii_dec c c') as [<- | Hne].
      * rewrite IH. split; intros (post & H); exists post; cbn in *; congruence.
      * split; [discriminate | intros (post & H); cbn in H; congruence].
Qed.

(** [contains sub s] is Python's [sub in s]. *)
Lemma contains_split (sub s : string) :
  contains sub s = true <-> exists pre post, s = pre ++ sub ++ post.
Proof.
  induction s as [|c s IH]; cbn [contains].
  - rewrite orb_false_r, prefix_split. split.
    + intros (post & H). exists EmptyString, post. assumption.
    + intros (pre & post & H). destruct pre; [|discriminate]. exists post. assumption.
  - rewrite orb_true_iff, prefix_split, IH. split.
    + intros [(post & H) | (pre & post & ->)].
      * exists EmptyString, post. assumption.
      * exists (String c pre), post. reflexivity.
    + intros (pre & post & H). destruct pre as [|c' pre]; cbn in H.
      * left. exists post. assumption.
      * right. injection H as _ ->. exists pre, post. reflexivity.
Qed.

Local Open Scope list_scope.

Section ImageSymbolFacts.

Variable float_of_str : string -> option float.
Variable plist : list (string * json).
Variable idx : list (string * string).

Lemma image_symbols_found (names : list string) :
  forall imgs0 n2i0 imgs n2i,
    image_symbols float_of_str plist idx names imgs0 n2i0 = Ok (imgs, n2i) ->
    (forall n, In n (dict_keys n2i) ->
               In n (dict_keys n2i0) \/
               (In n names /\ exists png, find_png_for_name n idx = Some png)) /\
    (forall stem, In stem (map fst imgs) ->
                  In stem (map fst imgs0) \/
                  exists n, In n names /\ find_png_for_name n idx = Some stem) /\
    (forall n, In n names -> find_png_for_name n idx <> None -> In n (dict_keys n2i)) /\
    (forall n, In n (dict_keys n2i0) -> In n (dict_keys n2i)).
Proof.
  induction names as [|n0 names IH]; cbn [image_symbols]; intros imgs0 n2i0 imgs n2i H.
  - injection H as <- <-. repeat split; auto. intros n [].
  - destruct (find_png_for_name n0 idx) as [png|] eqn:Ef.
    + inv_binds H. destruct (IH _ _ _ _ H) as (Hk & Hi & Hc & Hm).
      split; [|split; [|split]].
      * intros n Hn. destruct (Hk n Hn) as [Hn0 | (Hin & Hpng)].
        -- apply dict_keys_sset_in in Hn0. destruct Hn0 as [-> | Hn0]; [|auto].
           right. split; [left; reflexivity | eauto].
        -- right. split; [right; assumption | assumption].
      * intros stem Hs. destruct (Hi stem Hs) as [Hs0 | (n & Hin & Hpng)].
        -- rewrite map_app, in_app_iff in Hs0. destruct Hs0 as [Hs0 | [<- | []]]; [auto|].
           right. exists n0. split; [left; reflexivity | assumption].
        -- right. exists n. split; [right; assumption | assumption].
      * intros n [<- | Hin] Hne.
        -- apply Hm. apply dict_keys_sset_in. left. reflexivity.
        -- apply Hc; assumption.
      * intros n Hn. apply Hm. apply dict_keys_sset_in. right. assumption.
    + destruct (IH _ _ _ _ H) as (Hk & Hi & Hc & Hm).
      split; [|split; [|split]].
      * intros n Hn. destruct (Hk n Hn) as [Hn0 | (Hin & Hpng)]; [auto|].
        right. split; [right; assumption | assumption].
      * intros stem Hs. destruct (Hi stem Hs) as [Hs0 | (n & Hin & Hpng)]; [auto|].
        right. exists n. split; [right; assumption | assumption].
      * intros n [<- | Hin] Hne; [contradiction | apply Hc; assumption].
      * assumption.
Qed.

End ImageSymbolFacts.

Lemma bottom_to_top_keys (order : list string) (lf : layer_table) (k : string) :
  In k (bottom_to_top order lf) -> In k (dict_keys lf).
Proof.
  unfold bottom_to_top. rewrite in_app_iff, !filter_In.
  intros [[_ H] | [H _]]; [apply smem_in|]; assumption.
Qed.

Lemma build_stage_ok (float_of_str : string -> option float) (shared : json) (depth : nat)
      (frames : list json) (plist : list (string * json)) (idx : list (string * string))
      (names : list string) (g_sx g_sy : float) (s : stage) :
  build_stage float_of_str shared depth frames plist idx names g_sx g_sy = Ok s ->
  exists n2i lf order,
    image_symbols float_of_str plist idx names [] [] = Ok (st_images s, n2i) /\
    record_frames float_of_str shared depth 0 (init_layer_frames n2i) frames = Ok lf /\
    dfs_draw_order shared depth frames = Ok order /\
    map fst (st_layers s) = rev (bottom_to_top order lf).
Proof.
  unfold build_stage. intros H. bind_inv H as syms Hsyms. destruct syms as [imgs n2i].
  bind_inv H as lf Hlf. bind_inv H as order Horder. bind_inv H as layers Hlayers.
  injection H as <-. cbn [st_images st_layers].
  exists n2i, lf, order. repeat split; try assumption.
  eapply stage_layers_names. eassumption.
Qed.

(** C10 (as amended).  When a piece name is no key of the PNG index, and
    neither its dot-to-underscore spelling nor its lower-case spelling is
    one, [find_png_for_name] falls back to substring containment: it
    returns the PNG of the first entry of the index whose lower-cased key
    contains the lower-cased name or is contained in it, and nothing when
    no entry is such.  Both sides are lower-cased: "ARM" finds
    [left_arm_01], and "arm" finds [Left_Arm_01].  So a name binds to a
    bitmap whose file name merely contains it, and two distinct names can
    resolve to one bitmap ("ARM" and "Left" both get [left_arm_01]).  In
    [main], an image symbol is written and a stage layer is built only for
    names this procedure finds a PNG for. *)
Theorem png_lookup_falls_back_to_substrings :
  (forall (name : string) (idx : list (string * string)),
      sget name idx = None ->
      sget (replace_char "."%char "_"%char name) idx = None ->
      sget (lower name) idx = None ->
      (forall p,
          find_png_for_name name idx = Some p <->
          exists pre k post,
            idx = pre ++ (k, p) :: post /\
            loosely_matches (lower name) k = true /\
            forall kp, In kp pre -> loosely_matches (lower name) (fst kp) = false) /\
      (find_png_for_name name idx = None <->
       forall kp, In kp idx -> loosely_matches (lower name) (fst kp) = false))
  /\
  (forall low k : string,
      loosely_matches low k = true <->
      (exists pre post, lower k = (pre ++ low ++ post)%string) \/
      (exists pre post, low = (pre ++ lower k ++ post)%string))
  /\
  (lower "Left_ARM.01" = "left_arm.01"%string /\
   sget "ARM" ex_idx_arm = None /\ sget "Left" ex_idx_arm = None /\
   find_png_for_name "ARM" ex_idx_arm = Some "left_arm_01"%string /\
   find_png_for_name "Left" ex_idx_arm = Some "left_arm_01"%string /\
   find_png_for_name "arm" (build_png_index ["Left_Arm_01"%string])
   = Some "Left_Arm_01"%string /\
   find_png_for_name "leg" ex_idx_arm = None)
  /\
  (forall (float_of_str : string -> option float) (shared : json) (depth : nat)
          (frames : list json) (plist : list (string * json))
          (idx : list (string * string)) (names : list string) (g_sx g_sy : float)
          (s : stage),
      main float_of_str shared depth frames plist idx names g_sx g_sy = Done s ->
      (forall stem, In stem (map fst (st_images s)) ->
                    exists n, In n names /\ find_png_for_name n idx = Some stem) /\
      (forall lname, In lname (map fst (st_layers s)) ->
                     exists n png,
                       In n names /\ find_png_for_name n idx = Some png /\
                       lname = sanitize n)).
Proof.
  split; [|split; [|split]].
  - intros name idx H1 H2 H3.
    assert (E : find_png_for_name name idx =
                option_map snd (find (fun kp => loosely_matches (lower name) (fst kp)) idx)).
    { unfold find_png_for_name. rewrite H1, H2, H3. reflexivity. }
    rewrite E. split.
    + intros p. split.
      * destruct (find _ idx) as [[k p']|] eqn:Ef; [|discriminate].
        cbn. intros H. injection H as ->.
        apply find_first in Ef. destruct Ef as (pre & post & Hidx & Hk & Hpre).
        exists pre, k, post. auto.
      * intros (pre & k & post & Hidx & Hk & Hpre).
        assert (Ef : find (fun kp => loosely_matches (lower name) (fst kp)) idx
                     = Some (k, p)).
        { apply find_first. exists pre, post. auto. }
        rewrite Ef. reflexivity.
    + rewrite <- find_none_iff.
      destruct (find _ idx); cbn; split; intros H; [discriminate H | discriminate H | |];
        reflexivity.
  - intros low k. unfold loosely_matches. rewrite orb_true_iff, !contains_split.
    reflexivity.
  - repeat split.
  - intros float_of_str shared depth frames plist idx names g_sx g_sy s Hmain.
    destruct (main_done _ _ _ _ _ _ _ _ _ _ Hmain) as (_ & Hb).
    destruct (build_stage_ok _ _ _ _ _ _ _ _ _ _ Hb) as (n2i & lf & order & Hsyms & Hlf & _ & Hl).
    destruct (image_symbols_found _ _ _ _ _ _ _ _ Hsyms) as (Hk & Hi & _ & _).
    split.
    + intros stem Hs. destruct (Hi stem Hs) as [[] | H]. exact H.
    + intros lname Hln. rewrite Hl, <- in_rev in Hln.
      apply bottom_to_top_keys in Hln.
      rewrite (record_frames_keys _ _ _ _ _ _ _ Hlf) in Hln.
      apply init_layer_frames_keys in Hln. destruct Hln as (n & Hn & ->).
      destruct (Hk n Hn) as [[] | (Hin & png & Hpng)].
      exists n, png. auto.
Qed.

(** The arm index: the lookup of "ARM" is the fallback, through the
    lower-cased name; the lookup of "arm" in the index of [Left_Arm_01]
    is the fallback through the lower-cased key; and a stage built for
    the names "arm" and "leg" has a layer for "arm" only. *)
Lemma png_lookup_falls_back_to_substrings_witness :
  find_png_for_name "ARM" ex_idx_arm = Some "left_arm_01"%string
  /\
  find_png_for_name "arm" (build_png_index ["Left_Arm_01"%string])
  = Some "Left_Arm_01"%string
  /\
  exists s,
    main no_numeric_strings (JDict []) 5 [ex_frame] [] ex_idx_arm ["arm"; "leg"] 1 1
    = Done s /\
    map fst (st_layers s) = ["arm"] /\
    forall lname, In lname (map fst (st_layers s)) ->
                  exists n png,
                    In n ["arm"; "leg"] /\ find_png_for_name n ex_idx_arm = Some png /\
                    lname = sanitize n.
Proof.
  split; [|split].
  - apply (proj1 (proj1 png_lookup_falls_back_to_substrings "ARM"%string ex_idx_arm
                        eq_refl eq_refl eq_refl)
                 "left_arm_01"%string).
    exists [], "left_arm_01"%string, (tl ex_idx_arm).
    split; [reflexivity|]. split; [reflexivity|]. intros kp [].
  - apply (proj1 (proj1 png_lookup_falls_back_to_substrings "arm"%string
                        (build_png_index ["Left_Arm_01"%string])
                        eq_refl eq_refl eq_refl)
                 "Left_Arm_01"%string).
    exists [], "Left_Arm_01"%string, (tl (build_png_index ["Left_Arm_01"%string])).
    split; [reflexivity|]. split; [reflexivity|]. intros kp [].
  - eexists. split; [vm_compute; reflexivity|]. split; [reflexivity|].
    exact (proj2 (proj2 (proj2 (proj2 png_lookup_falls_back_to_substrings))
                        no_numeric_strings (JDict []) 5%nat [ex_frame] [] ex_idx_arm
                        ["arm"; "leg"]%string 1%float 1%float _ eq_refl)).
Defined.

(** C10, counterexample: in the index of the one file [A_b], the name
    "xa.bx" is found although no key of the index contains the lower-cased
    name or is contained in it: the key "A.b" matches only once it is
    lower-cased itself. *)
Lemma key_is_lower_cased_too :
  dict_keys (build_png_index ["A_b"%string]) = ["A_b"; "a_b"; "A.b"]%string /\
  find_png_for_name "xa.bx" (build_png_index ["A_b"%string]) = Some "A_b"%string /\
  forallb (fun kp => negb (contains (lower "xa.bx") (fst kp)
                           || contains (fst kp) (lower "xa.bx")))
          (build_png_index ["A_b"%string]) = true.
Proof. repeat split. Qed.

(** *** The empty timeline *)

(** C2 (as amended).  [main] of [bbone_to_xfl_symbols.py] rejects a timeline
    with zero frames: it exits with status 3 (after the message "no frames
    in JSON") and builds no stage, and it exits so for no other input.
    [convert_bbone_to_xfl] does not reject the empty timeline: it writes the
    identity sprite, which has no labels layer and, for every piece, one
    layer holding a single frame of duration 1 with an instance of the
    piece, and it returns normally. *)
Theorem empty_timeline_handling :
  (forall (float_of_str : string -> option float) (shared : json) (depth : nat)
          (frames : list json) (plist : list (string * json))
          (idx : list (string * string)) (names : list string) (g_sx g_sy : float)
          (code : Z),
      main float_of_str shared depth frames plist idx names g_sx g_sy = Exit code <->
      frames = [] /\ code = 3%Z)
  /\
  (forall (float_of_str : string -> option float) (identity_sprite : bool)
          (piece_names : list string) (labels : list (string * Z))
          (plist : list (string * json)) (include_unused : bool)
          (only : option (list string)) (aliases : list (string * string))
          (global_scale : float),
      convert_bbone_to_xfl float_of_str identity_sprite [] piece_names labels plist
                           include_unused only aliases global_scale
      = Ok (_sprite_identity piece_names))
  /\
  (forall piece_names : list string,
      sp_labels (_sprite_identity piece_names) = None /\
      sp_layers (_sprite_identity piece_names) =
      map (fun name =>
             (name,
              [SpriteFrame 0 1
                 (Some (SpriteInstance ("image/" ++ name)%string (name ++ "_inst")%string
                          None None))]))
          piece_names).
Proof.
  split; [|split].
  - intros float_of_str shared depth frames plist idx names g_sx g_sy code.
    unfold main. destruct frames as [|f0 rest].
    + split; [intros H; injection H as <-; auto | intros [_ ->]; reflexivity].
    + destruct (build_stage float_of_str shared depth (f0 :: rest) plist idx names g_sx g_sy);
        split; intros H; try discriminate H; destruct H as [H _]; discriminate H.
  - intros. unfold convert_bbone_to_xfl. rewrite orb_true_r. reflexivity.
  - intros piece_names. split; reflexivity.
Qed.

(** C2, counterexample: for a timeline with zero frames and the single piece
    "eye", [convert_bbone_to_xfl] returns a sprite, not an error, and the
    sprite has a frame the timeline never had. *)
Lemma empty_timeline_is_not_rejected :
  convert_bbone_to_xfl no_numeric_strings false [] ["eye"] [] [] false None [] 1
  = Ok (Sprite None
          [("eye", [SpriteFrame 0 1
                      (Some (SpriteInstance "image/eye" "eye_inst" None None))])]).
Proof. reflexivity. Qed.

(* ------------------------------------------------------------------ *)
(** ** Further properties of the two scripts *)

(** *** Shared loops repeat *)

(** X1.  The children a node is walked into repeat with the length of the
    shared loop the node refers to: at the outer frames [fi] and
    [fi + k * L], [L] the length of the node's loop, they are the same (and
    a node that takes its own children has the same ones at every frame). *)
Theorem shared_substitution_is_periodic (shared node : json) (fi k : nat) :
  effective_kids shared node (fi + k * loop_length shared node) =
  effective_kids shared node fi.
Proof.
  unfold effective_kids, loop_length.
  destruct (get_or node "children" JNull) as [kids|e]; cbn [bind]; [|reflexivity].
  destruct (get_or node "references_shared_animation" JNull) as [ref|e]; cbn [bind];
    [|reflexivity].
  destruct (truthy ref); [|reflexivity].
  destruct (shared_get shared ref) as [sa|e]; cbn [bind]; [|reflexivity].
  destruct sa as [| | | |[|f0 l]|]; try reflexivity.
  rewrite Nat.Div0.mod_add. reflexivity.
Qed.

(** *** The PNG index *)

Lemma sget_app_one (k k' p : string) (idx : list (string * string)) :
  sget k' (idx ++ [(k, p)]) =
  match sget k' idx with
  | Some v => Some v
  | None => if String.eqb k k' then Some p else None
  end.
Proof.
  induction idx as [|[k0 v0] idx IH]; cbn; [reflexivity|].
  destruct (String.eqb k0 k'); [reflexivity | exact IH].
Qed.

Lemma sget_setdefault (k k' p : string) (idx : list (string * string)) :
  sget k' (setdefault k p idx) =
  match sget k' idx with
  | Some v => Some v
  | None => if String.eqb k' k then Some p else None
  end.
Proof.
  unfold setdefault, dict_mem. destruct (sget k idx) as [v|] eqn:E.
  - destruct (sget k' idx) as [v'|] eqn:E'; [reflexivity|].
    destruct (String.eqb_spec k' k) as [-> | _]; [|reflexivity].
    rewrite E in E'. discriminate E'.
  - rewrite sget_app_one, (String.eqb_sym k k'). reflexivity.
Qed.

Lemma setdefault_nodup (k p : string) (idx : list (string * string)) :
  NoDup (dict_keys idx) -> NoDup (dict_keys (setdefault k p idx)).
Proof.
  intros H. unfold setdefault. destruct (smem k idx) eqn:E; [assumption|].
  unfold dict_keys. rewrite map_app. apply NoDup_app; [assumption | |].
  - constructor; [intros [] | constructor].
  - intros x Hx [<- | []]. apply (smem_in k idx) in Hx. rewrite E in Hx. discriminate Hx.
Qed.

Lemma sget_add_spellings (s k : string) (ks : list string) :
  forall idx,
    sget k (fold_left (fun idx k' => setdefault k' s idx) ks idx) =
    match sget k idx with
    | Some v => Some v
    | None => if existsb (String.eqb k) ks then Some s else None
    end.
Proof.
  induction ks as [|k0 ks IH]; intros idx; cbn [fold_left existsb].
  - destruct (sget k idx); reflexivity.
  - rewrite IH, sget_setdefault. destruct (sget k idx); [reflexivity|].
    destruct (String.eqb k k0); reflexivity.
Qed.

Lemma nodup_add_spellings (s : string) (ks : list string) :
  forall idx,
    NoDup (dict_keys idx) ->
    NoDup (dict_keys (fold_left (fun idx k' => setdefault k' s idx) ks idx)).
Proof.
  induction ks as [|k0 ks IH]; intros idx H; cbn [fold_left]; [assumption|].
  apply IH, setdefault_nodup. assumption.
Qed.

Lemma build_png_index_from (files : list string) :
  forall idx0 : list (string * string),
    let add := fun idx s =>
                 fold_left (fun idx k => setdefault k s idx) (spellings s) idx in
    (forall k,
        sget k (fold_left add files idx0) =
        match sget k idx0 with
        | Some v => Some v
        | None => first_spelled k files
        end) /\
    (NoDup (dict_keys idx0) -> NoDup (dict_keys (fold_left add files idx0))).
Proof.
  induction files as [|s files IH]; intros idx0 add; cbn [fold_left].
  - split; [intros k; destruct (sget k idx0); reflexivity | auto].
  - destruct (IH (add idx0 s)) as [Hget Hnd]. split.
    + intros k. fold add in Hget. rewrite Hget. unfold add at 1.
      rewrite sget_add_spellings. destruct (sget k idx0); [reflexivity|].
      unfold first_spelled. cbn [find].
      destruct (existsb (String.eqb k) (spellings s)); reflexivity.
    + intros H. apply Hnd. unfold add. apply nodup_add_spellings. assumption.
Qed.

Lemma build_png_index_get (files : list string) (k : string) :
  sget k (build_png_index files) = first_spelled k files.
Proof. exact (proj1 (build_png_index_from files []) k). Qed.

(** X2.  [build_png_index] maps a key to the first listed PNG one of whose
    five spellings (the stem, its lower case, dots to underscores,
    underscores to dots, lower case with underscores) is the key, and to
    nothing when no PNG has such a spelling; no key is entered twice. *)
Theorem png_index_first_spelling_wins (files : list string) :
  (forall k, sget k (build_png_index files) = first_spelled k files) /\
  NoDup (dict_keys (build_png_index files)).
Proof.
  split.
  - intros k. apply build_png_index_get.
  - apply (proj2 (build_png_index_from files [])). constructor.
Qed.

Lemma sget_in {V : Type} (k : string) (v : V) (d : list (string * V)) :
  sget k d = Some v -> In (k, v) d.
Proof.
  induction d as [|[k0 v0] d IH]; cbn; [discriminate|].
  destruct (String.eqb_spec k0 k) as [-> | _].
  - intros H. injection H as ->. left. reflexivity.
  - intros H. right. apply IH. assumption.
Qed.

(** X3.  A name that is a spelling of some listed PNG is always found in the
    index built from the list, by the exact lookup: the result is the first
    listed PNG with that spelling, which need not be the PNG of that very
    name when an earlier one shares the spelling. *)
Theorem indexed_name_is_found (files : list string) (name s : string) :
  In s files ->
  In name (spellings s) ->
  exists p,
    find_png_for_name name (build_png_index files) = Some p /\
    first_spelled name files = Some p /\
    In p files /\ In name (spellings p).
Proof.
  intros Hs Hname.
  destruct (first_spelled name files) as [p|] eqn:E.
  - exists p. pose proof E as E'. unfold first_spelled in E'. apply find_some in E'.
    destruct E' as [Hp Hsp]. apply existsb_eqb_in in Hsp.
    unfold find_png_for_name.
    rewrite build_png_index_get, E. auto.
  - exfalso. unfold first_spelled in E.
    pose proof (find_none _ _ E s Hs) as H. cbn beta in H.
    rewrite (proj2 (existsb_eqb_in name (spellings s)) Hname) in H. discriminate.
Qed.

(** Two PNGs that differ in case only: the lookup of "arm" is served by the
    one listed first. *)
Lemma indexed_name_is_found_witness :
  exists p,
    find_png_for_name "arm" (build_png_index ["Arm"; "arm"]%string) = Some p /\
    first_spelled "arm" ["Arm"; "arm"]%string = Some p /\
    In p ["Arm"; "arm"]%string /\ In "arm"%string (spellings p).
Proof.
  apply (indexed_name_is_found ["Arm"; "arm"]%string "arm" "arm").
  - right. left. reflexivity.
  - left. reflexivity.
Defined.

Lemma contains_empty (s : string) : contains EmptyString s = true.
Proof. destruct s; reflexivity. Qed.

(** X4.  What [find_png_for_name] returns is always a PNG the index holds:
    under the name itself, its dot-to-underscore or lower-case spelling, or
    under a key that loosely matches. *)
Theorem found_png_is_indexed (name p : string) (idx : list (string * string)) :
  find_png_for_name name idx = Some p ->
  exists k,
    In (k, p) idx /\
    (k = name \/ k = replace_char "."%char "_"%char name \/ k = lower name \/
     loosely_matches (lower name) k = true).
Proof.
  unfold find_png_for_name.
  destruct (sget name idx) as [q|] eqn:E1.
  { intros H. injection H as ->. exists name. split; [apply sget_in; assumption | auto]. }
  destruct (sget (replace_char "."%char "_"%char name) idx) as [q|] eqn:E2.
  { intros H. injection H as ->. eexists. split; [apply sget_in; eassumption | auto]. }
  destruct (sget (lower name) idx) as [q|] eqn:E3.
  { intros H. injection H as ->. eexists. split; [apply sget_in; eassumption | auto]. }
  destruct (find (fun kp => loosely_matches (lower name) (fst kp)) idx) as [[k q]|] eqn:E4;
    [|discriminate].
  cbn. intros H. injection H as ->. apply find_some in E4. destruct E4 as [Hin Hm].
  exists k. auto.
Qed.

Lemma found_png_is_indexed_witness :
  exists k,
    In (k, "left_arm_01"%string) ex_idx_arm /\
    (k = "arm"%string \/ k = replace_char "."%char "_"%char "arm" \/ k = lower "arm" \/
     loosely_matches (lower "arm") k = true).
Proof. exact (found_png_is_indexed "arm" "left_arm_01" ex_idx_arm eq_refl). Defined.

(** X5.  The empty name is never without a PNG when the index has an entry:
    it gets the entry keyed by the empty string, and without such a key the
    first entry of the index, the empty string being contained in every
    key. *)
Theorem empty_name_takes_first_png (k p : string) (rest : list (string * string)) :
  find_png_for_name EmptyString ((k, p) :: rest) =
  Some (match sget EmptyString ((k, p) :: rest) with
        | Some q => q
        | None => p
        end).
Proof.
  unfold find_png_for_name. cbn [replace_char lower].
  destruct (sget EmptyString ((k, p) :: rest)) as [q|]; [reflexivity|].
  cbn [find fst]. unfold loosely_matches. rewrite contains_empty. reflexivity.
Qed.

(** *** The names [main] collects *)

Lemma own_node_tail (b : json) (l : list json) (node : json) :
  own_node (JList l) node -> own_node (JList (b :: l)) node.
Proof.
  intros H. inversion H; subst.
  - apply own_here. right. assumption.
  - eapply own_below; [right; eassumption | reflexivity | eassumption | assumption].
Qed.

Lemma own_node_cons (b : json) (l : list json) (node : json) :
  own_node (JList (b :: l)) node ->
  node = b \/
  (exists d k, b = JDict d /\ sget "children" d = Some (JList k) /\
               own_node (JList k) node) \/
  own_node (JList l) node.
Proof.
  intros H. inversion H; subst.
  - match goal with Hin : In node (b :: l) |- _ => destruct Hin as [Heq | Hin] end.
    + left. symmetry. exact Heq.
    + right. right. apply own_here. assumption.
  - match goal with Hin : In _ (b :: l) |- _ => destruct Hin as [Heq | Hin] end.
    + right. left. subst b. eauto.
    + right. right. eapply own_below; eauto.
Qed.

Lemma collect_names (depth : nat) :
  forall children names,
    collect depth children = Ok names ->
    forall n,
      In n names <->
      exists node nd,
        own_node children node /\ node = JDict nd /\
        sget "name" nd = Some n /\ truthy n = true.
Proof.
  induction depth as [|d IHd]; intros children names H; [discriminate|].
  cbn [collect] in H.
  destruct children as [| | | |l|]; cbn [as_list] in H;
    try (injection H as <-; intros n; split;
         [intros [] | intros (node & nd & Hown & _); inversion Hown]).
  revert names H. induction l as [|b l IHl]; intros names H n.
  - injection H as <-. split; [intros []|].
    intros (node & nd & Hown & _). inversion Hown; subst;
      match goal with Hin : In _ [] |- _ => destruct Hin end.
  - bind_inv H as nm Hnm. bind_inv H as own Hown. bind_inv H as kids Hkids.
    bind_inv H as below Hbelow. bind_inv H as rest Hrest. injection H as <-.
    destruct b as [| | | | |nd]; try discriminate.
    cbn [py_get] in Hnm, Hkids. injection Hnm as <-. injection Hkids as <-.
    specialize (IHl _ Hrest n).
    rewrite !in_app_iff, IHl. split.
    + intros [Hin | [Hin | (node & nd' & Ho & Hrest')]].
      * destruct (sget "name" nd) as [v|] eqn:Ev; [|injection Hown as <-; destruct Hin].
        destruct (truthy v) eqn:Et; [|injection Hown as <-; destruct Hin].
        destruct (hashable v); [|discriminate]. injection Hown as <-.
        destruct Hin as [<- | []].
        exists (JDict nd), nd. split; [apply own_here; left; reflexivity | auto].
      * destruct (sget "children" nd) as [[| | | |k|]|] eqn:Ek;
          try (injection Hbelow as <-; destruct Hin).
        apply (IHd _ _ Hbelow) in Hin. destruct Hin as (node & nd' & Ho & Hrest').
        exists node, nd'. split; [|assumption].
        eapply own_below; [left; reflexivity | reflexivity | eassumption | assumption].
      * exists node, nd'. split; [apply own_node_tail; assumption | assumption].
    + intros (node & nd' & Ho & -> & Hname & Ht).
      apply own_node_cons in Ho.
      destruct Ho as [Heq | [(d0 & k & Hb & Hk & Hbel) | Hl]].
      * injection Heq as ->. left. rewrite Hname, Ht in Hown.
        destruct (hashable n); [|discriminate]. injection Hown as <-. left. reflexivity.
      * injection Hb as <-. right. left. rewrite Hk in Hbelow.
        apply (IHd _ _ Hbelow). exists (JDict nd'), nd'. auto.
      * right. right. exists (JDict nd'), nd'. auto.
Qed.

(** X6.  The piece names [main] collects from the frames are exactly the
    truthy names of the nodes of the frames' own child lists, at any depth.
    The shared-animation table is not read: a node is collected through the
    [children] its parent holds itself, never through the children a shared
    loop substitutes. *)
Theorem collected_names_are_own_tree_names (depth : nat) (frames : list json)
        (names : list json) :
  collect_frames depth frames = Ok names ->
  forall n,
    In n names <->
    exists fr c node nd,
      In fr frames /\ get_or fr "children" (JList []) = Ok c /\
      own_node c node /\ node = JDict nd /\
      sget "name" nd = Some n /\ truthy n = true.
Proof.
  revert names. induction frames as [|fr frames IH]; cbn [collect_frames]; intros names H n.
  - injection H as <-. split; [intros [] | intros (fr & c & node & nd & [] & _)].
  - bind_inv H as c Hc. bind_inv H as here Hhere. bind_inv H as rest Hrest.
    injection H as <-. rewrite in_app_iff, (IH _ Hrest n), (collect_names _ _ _ Hhere n).
    split.
    + intros [(node & nd & Ho & Hrest') | (fr' & c' & node & nd & Hin & Hrest')].
      * exists fr, c, node, nd. split; [left; reflexivity | auto].
      * exists fr', c', node, nd. split; [right; assumption | assumption].
    + intros (fr' & c' & node & nd & [<- | Hin] & Hc' & Hrest').
      * left. rewrite Hc in Hc'. injection Hc' as <-. exists node, nd. assumption.
      * right. exists fr', c', node, nd. auto.
Qed.

(** The lid frame: the lid and its own lash are collected, the lids of the
    blink loop are not. *)
Lemma collected_names_are_own_tree_names_witness :
  collect_frames 5 [ex_lid_frame] = Ok [JStr "lid"; JStr "lash"]
  /\
  (In (JStr "lash") [JStr "lid"; JStr "lash"] <->
   exists fr c node nd,
     In fr [ex_lid_frame] /\ get_or fr "children" (JList []) = Ok c /\
     own_node c node /\ node = JDict nd /\
     sget "name" nd = Some (JStr "lash") /\ truthy (JStr "lash") = true).
Proof.
  split; [reflexivity|].
  exact (collected_names_are_own_tree_names 5 [ex_lid_frame] _ eq_refl (JStr "lash")).
Defined.

(** *** The stage timeline, frame by frame *)

(** X7.  Every layer of the stage [main] builds has one frame of duration 1
    for each frame of the timeline, in frame order.  The frame [fi] of the
    layer holds an instance exactly when a record of frame [fi] is filed
    under the layer's key; the instance then is the sprite of the key with
    the matrix of the last such record, its [a], [b], [tx] multiplied by
    the horizontal stage factor and its [c], [d], [ty] by the vertical one,
    and it has a colour only when the record's alpha is not 1.0.  A frame
    without such a record is left empty. *)
Theorem stage_tracks_follow_the_frames
        (float_of_str : string -> option float) (shared : json) (depth : nat)
        (frames : list json) (plist : list (string * json)) (idx : list (string * string))
        (names : list string) (g_sx g_sy : float) (s : stage)
        (lname : string) (fs : list stage_frame) :
  main float_of_str shared depth frames plist idx names g_sx g_sy = Done s ->
  In (lname, fs) (st_layers s) ->
  length fs = length frames /\
  forall fi fr,
    nth_error frames fi = Some fr ->
    exists flats,
      frame_flats float_of_str shared depth fi fr = Ok flats /\
      nth_error fs fi =
      Some (StageFrame fi 1
              match last_filed lname flats with
              | None => None
              | Some (_, M, alpha) =>
                  Some (StageInstance ("sprite/" ++ lname)%string
                          (Affine (m_a M * g_sx) (m_b M * g_sx) (m_c M * g_sy)
                                  (m_d M * g_sy) (m_tx M * g_sx) (m_ty M * g_sy))
                          (if PrimFloat.eqb alpha 1 then None else Some alpha))
              end).
Proof.
  intros Hmain Hin. destruct (main_done _ _ _ _ _ _ _ _ _ _ Hmain) as (_ & Hb).
  destruct (build_stage_parts _ _ _ _ _ _ _ _ _ _ Hb)
    as (n2i & lf & order & _ & _ & Hlf & _ & Hlayers).
  destruct (stage_layers_in _ _ _ _ _ _ _ _ Hlayers Hin) as (fmap & Hfmap & ->).
  split; [rewrite length_map, length_seq; reflexivity|].
  intros fi fr Hnth.
  destruct (record_frames_slot _ _ _ _ _ _ _ _ _ Hlf Hnth) as (flats & Hflats & Hslot).
  cbn [Nat.add] in *. exists flats. split; [assumption|].
  assert (Hlt : (fi < length frames)%nat).
  { apply nth_error_Some. rewrite Hnth. discriminate. }
  rewrite nth_error_map, nth_error_seq.
  destruct (Nat.ltb_spec fi (length frames)) as [_ | Hge]; [|lia].
  cbn [option_map Nat.add]. f_equal.
  assert (Hm : smem lname (init_layer_frames n2i) = true).
  { apply smem_in. rewrite <- (record_frames_keys _ _ _ _ _ _ _ Hlf).
    apply smem_in, smem_sget. eauto. }
  specialize (Hslot lname Hm). rewrite init_layer_frames_empty in Hslot.
  unfold slot in Hslot. rewrite Hfmap in Hslot.
  unfold stage_frame_of. rewrite Hslot.
  destruct (last_filed lname flats) as [[[nm M] alpha]|]; reflexivity.
Qed.

(** The frame with two eyes: the layer of the eye has one frame, and its
    instance is the second eye. *)
Lemma stage_tracks_follow_the_frames_witness :
  exists s fs,
    main no_numeric_strings (JDict []) 5 [ex_twice] [] (build_png_index ["eye"]%string)
         ["eye"]%string 1 1 = Done s /\
    In ("eye"%string, fs) (st_layers s) /\
    length fs = 1%nat /\
    forall fi fr,
      nth_error [ex_twice] fi = Some fr ->
      exists flats,
        frame_flats no_numeric_strings (JDict []) 5 fi fr = Ok flats /\
        nth_error fs fi =
        Some (StageFrame fi 1
                match last_filed "eye" flats with
                | None => None
                | Some (_, M, alpha) =>
                    Some (StageInstance ("sprite/" ++ "eye")%string
                            (Affine (m_a M * 1) (m_b M * 1) (m_c M * 1)
                                    (m_d M * 1) (m_tx M * 1) (m_ty M * 1))
                            (if PrimFloat.eqb alpha 1 then None else Some alpha))
                end).
Proof.
  do 2 eexists. split; [vm_compute; reflexivity|]. split; [left; reflexivity|].
  apply (stage_tracks_follow_the_frames no_numeric_strings (JDict []) 5%nat [ex_twice] []
           (build_png_index ["eye"]%string) ["eye"]%string 1%float 1%float _ "eye"%string _
           eq_refl (or_introl eq_refl)).
Defined.

(** *** The stage is written once the data is read *)

Lemma stage_layers_returns (g_sx g_sy : float) (n : nat) (lf : layer_table)
      (top_first : list string) :
  (forall k, In k top_first -> In k (dict_keys lf)) ->
  exists ls, stage_layers g_sx g_sy n lf top_first = Ok ls.
Proof.
  induction top_first as [|l0 rest IH]; intros Hk; cbn [stage_layers].
  - eauto.
  - assert (Hm : smem l0 lf = true) by (apply smem_in, Hk; left; reflexivity).
    apply smem_sget in Hm. destruct Hm as (fmap & ->).
    destruct IH as (ls & ->); [intros k Hin; apply Hk; right; assumption|].
    cbn [bind]. eauto.
Qed.

(** X8.  Once [main] has read its data --- the image symbols, the layer
    table and the draw order are built ---, writing the stage timeline
    cannot fail: every name of [top_first] is a key of [layer_frames], so
    the lookup [layer_frames[lname]] finds a track for each one, the
    layers are written in the order of [top_first], and [main] completes
    with them. *)
Theorem stage_layers_never_miss_a_track
        (float_of_str : string -> option float) (shared : json) (depth : nat)
        (frames : list json) (plist : list (string * json)) (idx : list (string * string))
        (names : list string) (g_sx g_sy : float)
        (imgs : list (string * affine)) (n2i : list (string * string))
        (lf : layer_table) (order : list string) :
  frames <> [] ->
  image_symbols float_of_str plist idx names [] [] = Ok (imgs, n2i) ->
  record_frames float_of_str shared depth 0 (init_layer_frames n2i) frames = Ok lf ->
  dfs_draw_order shared depth frames = Ok order ->
  (forall lname, In lname (rev (bottom_to_top order lf)) ->
                 exists fmap, sget lname lf = Some fmap) /\
  exists layers,
    stage_layers g_sx g_sy (length frames) lf (rev (bottom_to_top order lf)) = Ok layers /\
    map fst layers = rev (bottom_to_top order lf) /\
    main float_of_str shared depth frames plist idx names g_sx g_sy
    = Done (Stage imgs (map (fun kv => (sanitize (fst kv), snd kv)) n2i) layers).
Proof.
  intros Hne Himg Hlf Horder.
  assert (Hkeys : forall k, In k (rev (bottom_to_top order lf)) -> In k (dict_keys lf)).
  { intros k Hk. apply in_rev in Hk. eapply bottom_to_top_keys. eassumption. }
  split.
  - intros lname Hin. apply smem_sget, smem_in, Hkeys. assumption.
  - destruct (stage_layers_returns g_sx g_sy (length frames) lf _ Hkeys) as (layers & Hl).
    exists layers. split; [assumption|]. split.
    + eapply stage_layers_names. eassumption.
    + unfold main. destruct frames as [|f0 rest]; [contradiction Hne; reflexivity|].
      unfold build_stage. rewrite Himg. cbn [bind]. rewrite Hlf. cbn [bind].
      rewrite Horder. cbn [bind]. rewrite Hl. reflexivity.
Qed.

(** The frame with a head and its eye, of which only the eye has a PNG. *)
Lemma stage_layers_never_miss_a_track_witness :
  (forall lname, In lname ["eye"%string] ->
                 exists fmap,
                   sget lname [("eye"%string,
                                [(0%nat, Entry "sprite/eye" (Affine 1 0 0 1 5 10) 1)])]
                   = Some fmap) /\
  exists layers,
    map fst layers = ["eye"%string] /\
    main no_numeric_strings (JDict []) 5 [ex_frame] [] (build_png_index ["eye"%string])
         ["eye"; "head"]%string 1 1
    = Done (Stage [("eye"%string, Affine 1 0 0 1 0 0)]
                  [("eye"%string, "image/eye"%string)] layers).
Proof.
  destruct (stage_layers_never_miss_a_track no_numeric_strings (JDict []) 5 [ex_frame] []
              (build_png_index ["eye"%string]) ["eye"; "head"]%string 1 1
              [("eye"%string, Affine 1 0 0 1 0 0)] [("eye"%string, "image/eye"%string)]
              [("eye"%string, [(0%nat, Entry "sprite/eye" (Affine 1 0 0 1 5 10) 1)])]
              ["head"; "eye"]%string
              ltac:(discriminate) eq_refl eq_refl eq_refl)
    as (Hk & layers & _ & Hn & Hm).
  split; [exact Hk|]. exists layers. split; [exact Hn | exact Hm].
Defined.

(** *** The exceptions the two converters can end in *)

Lemma bind_raise {A B : Type} (c : result A) (k : A -> result B) (e : exn) :
  bind c k = Raise e -> c = Raise e \/ exists a, c = Ok a /\ k a = Raise e.
Proof. destruct c as [a|e']; intros H; [right; exists a; split; [reflexivity | exact H] | left; cbn in H; injection H as ->; reflexivity]. Qed.

Ltac raise_cases H :=
  repeat (match type of H with
          | bind _ _ = Raise _ => apply bind_raise in H; destruct H as [H | (? & ? & H)]
          end).

Lemma get_or_raises (o : json) (k : string) (dflt : json) (e : exn) :
  get_or o k dflt = Raise e -> e = AttributeError.
Proof. destruct o; cbn; intros H; congruence. Qed.

Lemma py_get_raises (o : json) (k : string) (e : exn) :
  py_get o k = Raise e -> e = AttributeError.
Proof. destruct o; cbn; intros H; congruence. Qed.

Lemma iterate_raises (v : json) (e : exn) : iterate v = Raise e -> e = TypeError.
Proof. destruct v; cbn; intros H; congruence. Qed.

Section SpriteRaiseFacts.

Variable float_of_str : string -> option float.
Variable aliases : list (string * string).

Lemma resolve_name_raises (raw : option json) (e : exn) :
  resolve_name aliases raw = Raise e -> e = AttributeError.
Proof.
  unfold resolve_name, norm_name_obj. destruct raw as [v|]; cbn [bind].
  - destruct (negb (truthy v)); cbn [bind].
    + destruct (negb (str_truthy EmptyString)); discriminate.
    + destruct v; cbn [bind]; try (intros H; injection H as <-; reflexivity).
      destruct (negb (str_truthy (_norm_name s))); discriminate.
  - destruct (negb (str_truthy EmptyString)); discriminate.
Qed.

Lemma file_child_raises (st : list (string * json) * list (string * nat)) (ch : json)
      (e : exn) :
  file_child aliases st ch = Raise e -> e = AttributeError.
Proof.
  unfold file_child. destruct st as [per counts]. intros H. raise_cases H.
  - eapply py_get_raises. eassumption.
  - eapply resolve_name_raises. eassumption.
  - match type of H with match ?r with _ => _ end = _ => destruct r end; discriminate H.
Qed.

Lemma file_children_raises (l : list json) :
  forall st e, file_children aliases st l = Raise e -> e = AttributeError.
Proof.
  induction l as [|ch l IH]; cbn [file_children]; intros st e H; [discriminate H|].
  raise_cases H; [eapply file_child_raises | eapply IH]; eassumption.
Qed.

Lemma frame_children_raises (f : json) (e : exn) :
  frame_children f = Raise e -> e = AttributeError \/ e = TypeError.
Proof.
  unfold frame_children. intros H. raise_cases H.
  - left. eapply py_get_raises. eassumption.
  - right. eapply iterate_raises. eassumption.
Qed.

Lemma build_fmap_raises (frames : list json) :
  forall fmap counts e,
    build_fmap aliases frames fmap counts = Raise e -> e = AttributeError \/ e = TypeError.
Proof.
  induction frames as [|f frames IH]; cbn [build_fmap]; intros fmap counts e H;
    [discriminate H|].
  raise_cases H.
  - eapply frame_children_raises. eassumption.
  - left. eapply file_children_raises. eassumption.
  - eapply IH. eassumption.
Qed.

Lemma build_fmap_length (frames : list json) (fmap : list (list (string * json)))
      (counts : list (string * nat)) :
  build_fmap aliases frames [] [] = Ok (fmap, counts) -> length fmap = length frames.
Proof.
  intros H. destruct (build_fmap_ok _ _ _ _ _ _ H) as (pers & -> & HF).
  cbn [app]. symmetry. eapply Forall2_length. eassumption.
Qed.

Lemma field_float_raises (o : json) (k : string) (dflt : float) (e : exn) :
  field_float float_of_str o k dflt = Raise e -> e = AttributeError.
Proof.
  unfold field_float. intros H. raise_cases H; [|discriminate H].
  eapply get_or_raises. eassumption.
Qed.

Lemma instance_matrix_raises (g : float) (node pinfo : json) (e : exn) :
  instance_matrix float_of_str g node pinfo = Raise e -> e = AttributeError.
Proof.
  unfold instance_matrix. intros H. raise_cases H.
  - eapply get_or_raises. eassumption.
  - unfold compose_instance_matrix in H. raise_cases H;
      try (eapply field_float_raises; eassumption).
    discriminate H.
  - discriminate H.
Qed.

Lemma _color_raises (c : json) (e : exn) : _color c = Raise e -> e = AttributeError.
Proof.
  unfold _color. destruct (negb (truthy c)); [discriminate|].
  intros H. raise_cases H; try (eapply get_or_raises; eassumption).
  discriminate H.
Qed.

Lemma sprite_frame_of_raises (g : float) (name : string) (pinfo : json)
      (fmap : list (list (string * json))) (idx : nat) (e : exn) :
  sprite_frame_of float_of_str g name pinfo fmap idx = Raise e ->
  (idx < length fmap /\ e = AttributeError) \/ (length fmap <= idx /\ e = IndexError).
Proof.
  unfold sprite_frame_of. destruct (nth_error fmap idx) as [per|] eqn:En.
  - intros H. left. split; [apply nth_error_Some; congruence|].
    destruct (sget name per) as [node|]; [|discriminate H].
    destruct (negb (truthy node)); [discriminate H|].
    raise_cases H.
    + eapply instance_matrix_raises. eassumption.
    + eapply get_or_raises. eassumption.
    + eapply _color_raises. eassumption.
    + discriminate H.
  - intros H. injection H as <-. right. split; [apply nth_error_None; assumption | reflexivity].
Qed.

Lemma sprite_frames_raises (g : float) (name : string) (pinfo : json)
      (fmap : list (list (string * json))) (idxs : list nat) (e : exn) :
  (forall idx, In idx idxs -> idx < length fmap) ->
  sprite_frames float_of_str g name pinfo fmap idxs = Raise e -> e = AttributeError.
Proof.
  induction idxs as [|idx idxs IH]; cbn [sprite_frames]; intros Hin H; [discriminate H|].
  raise_cases H.
  - destruct (sprite_frame_of_raises _ _ _ _ _ _ H) as [[_ ->] | [Hle _]]; [reflexivity|].
    specialize (Hin idx (or_introl eq_refl)). lia.
  - apply IH; [intros i Hi; apply Hin; right; assumption | assumption].
  - discriminate H.
Qed.

Lemma sprite_layers_raises (g : float) (plist : list (string * json))
      (fmap : list (list (string * json))) (total : nat) (order : list string) (e : exn) :
  total <= length fmap ->
  sprite_layers float_of_str g plist fmap total order = Raise e -> e = AttributeError.
Proof.
  intros Hlen. induction order as [|name order IH]; cbn [sprite_layers]; intros H;
    [discriminate H|].
  raise_cases H.
  - eapply sprite_frames_raises; [|eassumption].
    intros idx Hidx. apply in_seq in Hidx. lia.
  - apply IH. assumption.
  - discriminate H.
Qed.

End SpriteRaiseFacts.

(** X9.  [convert_bbone_to_xfl] fails on the sprite timeline only when a
    frame or a node of the animation data is not of the shape it reads:
    the exception is [AttributeError] or [TypeError], never the
    [IndexError] of a frame missing from [fmap]; and it can fail only on
    a timeline that has frames and is not replaced by the identity
    sprite. *)
Theorem convert_fails_on_bad_data_only
        (float_of_str : string -> option float) (identity_sprite : bool)
        (frames : list json) (piece_names : list string) (labels : list (string * Z))
        (plist : list (string * json)) (include_unused : bool)
        (only : option (list string)) (aliases : list (string * string)) (g : float)
        (e : exn) :
  convert_bbone_to_xfl float_of_str identity_sprite frames piece_names labels plist
                       include_unused only aliases g = Raise e ->
  (e = AttributeError \/ e = TypeError) /\ frames <> [] /\ identity_sprite = false.
Proof.
  unfold convert_bbone_to_xfl. intros H.
  destruct identity_sprite; [discriminate H|]. cbn [orb] in H.
  destruct frames as [|f0 rest]; [discriminate H|]. cbn [length Nat.eqb] in H.
  split; [|split; [discriminate | reflexivity]].
  unfold _sprite_symbol in H. raise_cases H.
  - eapply build_fmap_raises. eassumption.
  - match goal with
    | x : (list (list (string * json)) * list (string * nat))%type |- _ =>
        destruct x as [fmap counts]
    end.
    match goal with
    | Hb : build_fmap _ _ _ _ = Ok _ |- _ => apply build_fmap_length in Hb; rename Hb into Hlen
    end.
    raise_cases H; [|discriminate H].
    left. eapply sprite_layers_raises; [|eassumption].
    rewrite Hlen. cbn [length]. lia.
Qed.

(** A frame whose [children] is a number. *)
Lemma convert_fails_on_bad_data_only_witness :
  (TypeError = AttributeError \/ TypeError = TypeError) /\
  [JDict [("children", JNum 1)]] <> [] /\ false = false.
Proof.
  apply (convert_fails_on_bad_data_only no_numeric_strings false
           [JDict [("children", JNum 1)]] ["eye"]%string [] [] false None [] 1 TypeError).
  vm_compute. reflexivity.
Defined.

(** X10.  [_sprite_symbol] itself is not safe on an empty timeline: it
    takes the sprite to be one frame long while [fmap] is empty, so as
    soon as there is a layer to build, reading [fmap[0]] raises
    [IndexError]; with no layer to build it returns the sprite of its
    labels alone. *)
Theorem sprite_symbol_needs_a_frame
        (float_of_str : string -> option float)
        (piece_names : list string) (labels : list (string * Z))
        (plist : list (string * json)) (include_unused : bool)
        (only : option (list string)) (aliases : list (string * string)) (g : float) :
  _sprite_symbol float_of_str [] piece_names labels plist include_unused only aliases g
  = match layer_order piece_names include_unused only [] with
    | [] => Ok (Sprite (label_layer labels 1) [])
    | _ :: _ => Raise IndexError
    end.
Proof.
  unfold _sprite_symbol. cbn [build_fmap bind length Nat.max].
  destruct (layer_order piece_names include_unused only []) as [|n order]; reflexivity.
Qed.

(** *** The layers of the sprite and the frames' children *)

Local Open Scope nat_scope.

Section SpriteTrackFacts.

Variable float_of_str : string -> option float.
Variable aliases : list (string * string).

Lemma occurrences_cons (n : string) (ch : json) (l : list json) :
  occurrences aliases n (ch :: l) =
  (if files_child aliases n ch then 1 else 0) + occurrences aliases n l.
Proof.
  unfold occurrences. cbn [filter]. destruct (files_child aliases n ch); reflexivity.
Qed.

Lemma occurrences_app (n : string) (l1 l2 : list json) :
  occurrences aliases n (l1 ++ l2) = occurrences aliases n l1 + occurrences aliases n l2.
Proof.
  induction l1 as [|ch l1 IH]; cbn [app]; [reflexivity|].
  rewrite !occurrences_cons, IH. lia.
Qed.

Lemma files_child_key (n : string) (ch : json) :
  files_child aliases n ch = true <-> child_key aliases ch = Ok (Some n).
Proof.
  unfold files_child. destruct (child_key aliases ch) as [[m|]|e].
  - rewrite String.eqb_eq. split; [intros ->; reflexivity | intros H; injection H; auto].
  - split; discriminate.
  - split; discriminate.
Qed.

Lemma child_key_truthy (n : string) (node : json) :
  child_key aliases node = Ok (Some n) -> truthy node = true.
Proof.
  unfold child_key. destruct node as [| | | | |d]; try discriminate.
  destruct d as [|kv d]; [|reflexivity].
  vm_compute. discriminate.
Qed.

(** What the map of one frame holds under a name, by the children of the
    frame filed under it. *)
Lemma file_children_filed (n : string) (l : list json) :
  forall per per' counts counts',
    file_children aliases (per, counts) l = Ok (per', counts') ->
    match sget n per' with
    | None => sget n per = None /\ occurrences aliases n l = 0
    | Some node =>
        (sget n per = Some node /\ occurrences aliases n l = 0) \/
        (0 < occurrences aliases n l /\ In node l /\
         child_key aliases node = Ok (Some n))
    end.
Proof.
  induction l as [|ch l IH]; cbn [file_children]; intros per per' counts counts' H.
  - injection H as <- <-. destruct (sget n per); auto.
  - bind_inv H as st Hst. destruct st as [per0 counts0].
    specialize (IH _ _ _ _ H). rewrite occurrences_cons.
    destruct (file_child_ok _ _ _ _ _ _ Hst) as [[Hk ->] | (m & Hk & ->)].
    + assert (E : files_child aliases n ch = false).
      { unfold files_child. rewrite Hk. reflexivity. }
      rewrite E. cbn [Nat.add].
      destruct (sget n per') as [node|]; [|assumption].
      destruct IH as [IH | (H0 & Hin & Hkn)]; [left; assumption|].
      right. repeat split; [assumption | right; assumption | assumption].
    + destruct (String.eqb_spec m n) as [-> | Hne].
      * assert (E : files_child aliases n ch = true) by (apply files_child_key; assumption).
        rewrite E. rewrite sget_sset_same in IH.
        destruct (sget n per') as [node|].
        -- right. destruct IH as [[Hs _] | (H0 & Hin & Hkn)].
           ++ injection Hs as <-. repeat split; [lia | left; reflexivity | assumption].
           ++ repeat split; [lia | right; assumption | assumption].
        -- destruct IH as [Hs _]. discriminate Hs.
      * assert (E : files_child aliases n ch = false).
        { unfold files_child. rewrite Hk. apply String.eqb_neq. assumption. }
        rewrite E. cbn [Nat.add].
        rewrite sget_sset_other in IH by (intros ->; apply Hne; reflexivity).
        destruct (sget n per') as [node|]; [|assumption].
        destruct IH as [IH | (H0 & Hin & Hkn)]; [left; assumption|].
        right. repeat split; [assumption | right; assumption | assumption].
Qed.

Lemma file_children_count (n : string) (l : list json) :
  forall per per' counts counts',
    file_children aliases (per, counts) l = Ok (per', counts') ->
    match sget n counts' with Some k => k | None => 0 end =
    match sget n counts with Some k => k | None => 0 end + occurrences aliases n l.
Proof.
  induction l as [|ch l IH]; cbn [file_children]; intros per per' counts counts' H.
  - injection H as <- <-. unfold occurrences. cbn. lia.
  - bind_inv H as st Hst. destruct st as [per0 counts0].
    rewrite (IH _ _ _ _ H), occurrences_cons. clear IH H.
    unfold file_child in Hst. bind_inv Hst as raw Hraw. bind_inv Hst as r Hr.
    assert (Hk : child_key aliases ch = Ok r).
    { unfold child_key. rewrite Hraw. exact Hr. }
    unfold files_child. rewrite Hk.
    destruct r as [m|]; injection Hst as <- <-; [|lia].
    destruct (String.eqb_spec m n) as [-> | Hne].
    + rewrite sget_sset_same. lia.
    + rewrite sget_sset_other by (intros ->; apply Hne; reflexivity). lia.
Qed.

Lemma build_fmap_counts (frames : list json) :
  forall fmap0 counts0 fmap counts,
    build_fmap aliases frames fmap0 counts0 = Ok (fmap, counts) ->
    exists kidss,
      Forall2 (fun f l => frame_children f = Ok l) frames kidss /\
      forall n,
        match sget n counts with Some k => k | None => 0 end =
        match sget n counts0 with Some k => k | None => 0 end
        + occurrences aliases n (concat kidss).
Proof.
  induction frames as [|f frames IH]; cbn [build_fmap]; intros fmap0 counts0 fmap counts H.
  - injection H as <- <-. exists []. split; [constructor|].
    intros n. unfold occurrences. cbn. lia.
  - bind_inv H as l Hl. bind_inv H as st Hst. destruct st as [per c1]. cbn [fst snd] in H.
    destruct (IH _ _ _ _ H) as (kidss & HF & Hc).
    exists (l :: kidss). split; [constructor; assumption|].
    intros n. cbn [concat]. rewrite Hc, occurrences_app.
    rewrite (file_children_count n l _ _ _ _ Hst). lia.
Qed.

Lemma sprite_frame_of_shape (g : float) (name : string) (pinfo : json)
      (fmap : list (list (string * json))) (idx : nat) (f : sprite_frame) :
  sprite_frame_of float_of_str g name pinfo fmap idx = Ok f ->
  exists per,
    nth_error fmap idx = Some per /\
    pf_index f = idx /\ pf_duration f = 1 /\
    match pf_element f with
    | None => sget name per = None \/
              exists node, sget name per = Some node /\ truthy node = false
    | Some inst =>
        (exists node, sget name per = Some node /\ truthy node = true) /\
        pi_item inst = ("image/" ++ name)%string /\
        pi_name inst = (name ++ "_inst")%string
    end.
Proof.
  unfold sprite_frame_of. destruct (nth_error fmap idx) as [per|]; [|discriminate].
  intros H. exists per. split; [reflexivity|].
  destruct (sget name per) as [node|] eqn:Enode.
  - destruct (truthy node) eqn:Et; cbn [negb] in H.
    + inv_binds H. injection H as <-. cbn.
      repeat split. exists node. auto.
    + injection H as <-. cbn. repeat split. right. exists node. auto.
  - injection H as <-. cbn. auto.
Qed.

Lemma sprite_frames_nth (g : float) (name : string) (pinfo : json)
      (fmap : list (list (string * json))) (idxs : list nat) :
  forall fs,
    sprite_frames float_of_str g name pinfo fmap idxs = Ok fs ->
    length fs = length idxs /\
    forall i idx,
      nth_error idxs i = Some idx ->
      exists f, nth_error fs i = Some f /\
                sprite_frame_of float_of_str g name pinfo fmap idx = Ok f.
Proof.
  induction idxs as [|idx0 idxs IH]; cbn [sprite_frames]; intros fs H.
  - injection H as <-. split; [reflexivity|]. intros [|i] idx Hi; discriminate Hi.
  - bind_inv H as f0 Hf0. bind_inv H as fs' Hfs. injection H as <-.
    destruct (IH _ Hfs) as (Hlen & Hnth). split; [cbn [length]; congruence|].
    intros [|i] idx Hi; cbn [nth_error] in *.
    + injection Hi as <-. eauto.
    + apply Hnth. assumption.
Qed.

Lemma sprite_layers_names (g : float) (plist : list (string * json))
      (fmap : list (list (string * json))) (total : nat) (order : list string) :
  forall layers,
    sprite_layers float_of_str g plist fmap total order = Ok layers ->
    map fst layers = order.
Proof.
  induction order as [|n order IH]; cbn [sprite_layers]; intros layers H.
  - injection H as <-. reflexivity.
  - bind_inv H as fs0 Hfs0. bind_inv H as ls Hls. injection H as <-.
    cbn [map fst]. rewrite (IH _ Hls). reflexivity.
Qed.

End SpriteTrackFacts.

Lemma nth_error_seq0 (total idx : nat) :
  idx < total -> nth_error (seq 0 total) idx = Some idx.
Proof.
  intros H. rewrite (nth_error_nth' _ 0) by (rewrite length_seq; assumption).
  rewrite seq_nth by assumption. reflexivity.
Qed.

(** X11.  In the sprite [_sprite_symbol] builds, every layer has one
    frame of duration 1 per frame of the timeline, in order, and the
    frame of a layer shows the piece exactly when some child of that
    timeline frame is filed under the layer's name: the frame is empty
    when none is, and holds the instance [image/<name>], named
    [<name>_inst], when one is. *)
Theorem sprite_tracks_show_filed_children
        (float_of_str : string -> option float)
        (frames : list json) (piece_names : list string) (labels : list (string * Z))
        (plist : list (string * json)) (include_unused : bool)
        (only : option (list string)) (aliases : list (string * string)) (g : float)
        (sp : sprite) (name : string) (fs : list sprite_frame)
        (idx : nat) (fr : json) (kids : list json) :
  _sprite_symbol float_of_str frames piece_names labels plist include_unused only
                 aliases g = Ok sp ->
  In (name, fs) (sp_layers sp) ->
  nth_error frames idx = Some fr ->
  frame_children fr = Ok kids ->
  length fs = length frames /\
  exists f,
    nth_error fs idx = Some f /\ pf_index f = idx /\ pf_duration f = 1 /\
    match pf_element f with
    | None => occurrences aliases name kids = 0
    | Some inst =>
        0 < occurrences aliases name kids /\
        pi_item inst = ("image/" ++ name)%string /\
        pi_name inst = (name ++ "_inst")%string
    end.
Proof.
  intros Hsp Hlayer Hfr Hkids.
  unfold _sprite_symbol in Hsp. bind_inv Hsp as fc Hfc. destruct fc as [fmap counts].
  bind_inv Hsp as layers Hlayers. injection Hsp as <-. cbn [sp_layers] in Hlayer.
  destruct (sprite_layers_in _ _ _ _ _ _ _ _ _ Hlayers Hlayer) as (_ & Hfs).
  destruct (sprite_frames_nth _ _ _ _ _ _ _ Hfs) as (Hlen & Hnth).
  assert (Hidx : idx < length frames) by (apply nth_error_Some; congruence).
  assert (Htot : Nat.max 1 (length frames) = length frames) by lia.
  rewrite Htot in *. rewrite length_seq in Hlen. split; [assumption|].
  destruct (Hnth idx idx (nth_error_seq0 _ _ Hidx)) as (f & Hf & Hof).
  exists f. split; [assumption|].
  destruct (sprite_frame_of_shape _ _ _ _ _ _ _ Hof) as (per & Hper & Hi & Hd & Hel).
  split; [assumption|]. split; [assumption|].
  destruct (build_fmap_nth _ _ _ _ _ _ Hfc Hfr) as (per' & l & c0 & c1 & Hper' & Hl & Hc).
  rewrite Hper in Hper'. injection Hper' as <-.
  rewrite Hkids in Hl. injection Hl as <-.
  pose proof (file_children_filed aliases name kids _ _ _ _ Hc) as Hfiled.
  destruct (pf_element f) as [inst|].
  - destruct Hel as ((node & Hnode & Ht) & Hitem & Hname).
    rewrite Hnode in Hfiled. split; [|split; assumption].
    destruct Hfiled as [[Habs _] | (H0 & _)]; [discriminate Habs | assumption].
  - destruct Hel as [Hnone | (node & Hnode & Ht)].
    + rewrite Hnone in Hfiled. apply Hfiled.
    + rewrite Hnode in Hfiled.
      destruct Hfiled as [[Habs _] | (_ & _ & Hk)]; [discriminate Habs|].
      apply child_key_truthy in Hk. congruence.
Qed.

(** X12.  The layers of the sprite are catalogue pieces, in catalogue
    order: those the [only] list names when it is given and not empty,
    else all of them when unused pieces are kept, else exactly the pieces
    that some child of some frame is filed under. *)
Theorem sprite_layers_are_the_used_pieces
        (float_of_str : string -> option float)
        (frames : list json) (piece_names : list string) (labels : list (string * Z))
        (plist : list (string * json)) (include_unused : bool)
        (only : option (list string)) (aliases : list (string * string)) (g : float)
        (sp : sprite) :
  _sprite_symbol float_of_str frames piece_names labels plist include_unused only
                 aliases g = Ok sp ->
  exists kidss,
    Forall2 (fun f l => frame_children f = Ok l) frames kidss /\
    map fst (sp_layers sp) =
    match only with
    | Some ((_ :: _) as o) =>
        filter (fun n => existsb (String.eqb n) (map _norm_name o)) piece_names
    | _ =>
        if include_unused then piece_names
        else filter (fun n => (0 <? occurrences aliases n (concat kidss))%nat) piece_names
    end.
Proof.
  intros Hsp.
  unfold _sprite_symbol in Hsp. bind_inv Hsp as fc Hfc. destruct fc as [fmap counts].
  bind_inv Hsp as layers Hlayers. injection Hsp as <-. cbn [sp_layers].
  destruct (build_fmap_counts _ _ _ _ _ _ Hfc) as (kidss & HF & Hc).
  exists kidss. split; [assumption|].
  rewrite (sprite_layers_names _ _ _ _ _ _ _ Hlayers).
  unfold layer_order.
  assert (E : filter (fun n => match sget n counts with
                               | Some k => (0 <? k)%nat
                               | None => false
                               end) piece_names
              = filter (fun n => (0 <? occurrences aliases n (concat kidss))%nat)
                       piece_names).
  { apply filter_ext. intros n. specialize (Hc n). cbn in Hc.
    destruct (sget n counts) as [k|]; [rewrite Hc; reflexivity|].
    rewrite <- Hc. reflexivity. }
  destruct only as [[|o0 o]|]; try rewrite E; reflexivity.
Qed.

(** The frame with two eyes, and the layers [eye] and [arm]: the [eye]
    frame holds an instance, the [arm] layer is not built. *)
Lemma sprite_tracks_show_filed_children_witness :
  exists sp fs,
    _sprite_symbol no_numeric_strings [ex_twice] ["eye"; "arm"]%string [] [] false None [] 1
    = Ok sp /\
    In ("eye"%string, fs) (sp_layers sp) /\
    length fs = length [ex_twice] /\
    exists f,
      nth_error fs 0 = Some f /\ pf_index f = 0 /\ pf_duration f = 1 /\
      match pf_element f with
      | None => occurrences [] "eye" [ex_eye; ex_eye_again] = 0
      | Some inst =>
          0 < occurrences [] "eye" [ex_eye; ex_eye_again] /\
          pi_item inst = ("image/" ++ "eye")%string /\
          pi_name inst = ("eye" ++ "_inst")%string
      end.
Proof.
  do 2 eexists. split; [vm_compute; reflexivity|]. split; [left; reflexivity|].
  apply (sprite_tracks_show_filed_children no_numeric_strings [ex_twice]
           ["eye"; "arm"]%string [] [] false None [] 1%float _ "eye"%string _ 0 ex_twice
           [ex_eye; ex_eye_again] eq_refl (or_introl eq_refl) eq_refl eq_refl).
Defined.

Lemma sprite_layers_are_the_used_pieces_witness :
  exists kidss,
    Forall2 (fun f l => frame_children f = Ok l) [ex_twice] kidss /\
    ["eye"%string] =
    filter (fun n => (0 <? occurrences [] n (concat kidss))%nat) ["eye"; "arm"]%string.
Proof.
  apply (sprite_layers_are_the_used_pieces no_numeric_strings [ex_twice]
           ["eye"; "arm"]%string [] [] false None [] 1%float
           (Sprite None
              [("eye"%string,
                [SpriteFrame 0 1
                   (Some (SpriteInstance "image/eye" "eye_inst"
                            (Some (Affine 1 0 0 1 7 0))
                            (Some (ColorAttrs (JNum 1) (JNum 1) (JNum 1) (JNum 0.5)))))])])).
  vm_compute. reflexivity.
Defined.

(** *** The root label and the alias options *)

Lemma insert_label_cons (x : string * Z) (l : list (string * Z)) :
  exists y r, insert_label x l = y :: r.
Proof. destruct l as [|y l]; cbn; [eauto|]. destruct (snd x <=? snd y)%Z; eauto. Qed.

(** The head of the stable sort: the first of the entries with the least
    frame number. *)
Lemma sorted_labels_head (labels : list (string * Z)) (x : string * Z)
      (r : list (string * Z)) :
  sorted_labels labels = x :: r ->
  exists pre post,
    labels = pre ++ x :: post /\
    (forall y, In y pre -> (snd x < snd y)%Z) /\
    (forall y, In y post -> (snd x <= snd y)%Z).
Proof.
  revert x r. induction labels as [|a l IH]; intros x r H; [discriminate H|].
  change (sorted_labels (a :: l)) with (insert_label a (sorted_labels l)) in H.
  destruct (sorted_labels l) as [|y s] eqn:Es.
  - cbn in H. injection H as <- <-.
    destruct l as [|b l].
    + exists [], []. repeat split; intros y [].
    + exfalso. change (sorted_labels (b :: l)) with (insert_label b (sorted_labels l)) in Es.
      destruct (insert_label_cons b (sorted_labels l)) as (y & r & E). congruence.
  - destruct (IH _ _ eq_refl) as (pre & post & -> & Hpre & Hpost).
    cbn [insert_label] in H. destruct (Z.leb_spec (snd a) (snd y)) as [Hle | Hgt].
    + injection H as <- <-. exists [], (pre ++ y :: post).
      split; [reflexivity|]. split; [intros z []|].
      intros z Hz. apply in_app_iff in Hz. destruct Hz as [Hz | [<- | Hz]].
      * specialize (Hpre z Hz). lia.
      * assumption.
      * specialize (Hpost z Hz). lia.
    + injection H as <- <-. exists (a :: pre), post.
      split; [reflexivity|]. split; [|assumption].
      intros z [<- | Hz]; [assumption | apply Hpre; assumption].
Qed.

(** X13.  The label [convert_bbone_to_xfl] gives the root frame is the
    label with the least frame number, the first listed of them when
    several labels share that number ([idle] when there is no label). *)
Theorem main_label_is_the_earliest (labels : list (string * Z)) :
  match labels with
  | [] => main_label labels = "idle"%string
  | _ :: _ =>
      exists pre v post,
        labels = pre ++ (main_label labels, v) :: post /\
        (forall y, In y pre -> (v < snd y)%Z) /\
        (forall y, In y post -> (v <= snd y)%Z)
  end.
Proof.
  destruct labels as [|a l]; [reflexivity|].
  unfold main_label.
  destruct (sorted_labels (a :: l)) as [|[lbl v] r] eqn:Es.
  - exfalso. change (sorted_labels (a :: l)) with (insert_label a (sorted_labels l)) in Es.
    destruct (insert_label_cons a (sorted_labels l)) as (y & r & E). congruence.
  - destruct (sorted_labels_head _ _ _ Es) as (pre & post & E & Hpre & Hpost).
    exists pre, v, post. auto.
Qed.

Lemma find_app_first {A : Type} (f : A -> bool) (l1 l2 : list A) :
  find f (l1 ++ l2) = match find f l1 with Some x => Some x | None => find f l2 end.
Proof.
  induction l1 as [|a l1 IH]; cbn [app find]; [reflexivity|].
  destruct (f a); [reflexivity | exact IH].
Qed.

Lemma alias_fold_get (k : string) (pairs : list string) :
  forall acc,
    sget k
      (fold_left
         (fun alias_map pair =>
            if contains_char "="%char pair
            then sset (_norm_name (before_first "="%char pair))
                      (_norm_name (after_first "="%char pair)) alias_map
            else alias_map)
         pairs acc)
    = match find (fun p => contains_char "="%char p
                           && String.eqb (_norm_name (before_first "="%char p)) k)
                 (rev pairs) with
      | Some p => Some (_norm_name (after_first "="%char p))
      | None => sget k acc
      end.
Proof.
  induction pairs as [|p ps IH]; intros acc; cbn [fold_left rev]; [reflexivity|].
  rewrite IH, find_app_first. cbn [find].
  destruct (find _ (rev ps)) as [q|]; [reflexivity|].
  destruct (contains_char "="%char p); cbn [andb]; [|reflexivity].
  destruct (String.eqb_spec (_norm_name (before_first "="%char p)) k) as [<- | Hne].
  - apply sget_sset_same.
  - apply sget_sset_other. intros ->. apply Hne. reflexivity.
Qed.

(** X14.  In the alias map built from the [--alias] options, a name is
    mapped by the last option whose left side normalises to it, to the
    normalised right side of that option (all that follows its first
    [=]); options without [=] are passed over, and a name no option
    gives has no alias. *)
Theorem alias_map_last_option_wins (pairs : list string) (k : string) :
  sget k (alias_map_of pairs)
  = match find (fun p => contains_char "="%char p
                         && String.eqb (_norm_name (before_first "="%char p)) k)
               (rev pairs) with
    | Some p => Some (_norm_name (after_first "="%char p))
    | None => None
    end.
Proof. unfold alias_map_of. rewrite alias_fold_get. reflexivity. Qed.

(** *** The discovery of the frame list *)

Lemma looks_like_frames_shape (l : list json) :
  looks_like_frames l = true ->
  exists d rest, l = JDict d :: rest /\
                 (smem "children" d = true \/ smem "matrix" d = true).
Proof.
  destruct l as [|[| | | | |d] rest]; try discriminate.
  cbn. intros H. apply orb_true_iff in H. eauto.
Qed.

Lemma is_frame_list_shape (v : json) (l : list json) :
  is_frame_list v = Some l -> exists d rest, v = JList l /\ l = JDict d :: rest.
Proof.
  destruct v as [| | | |[|[| | | | |d] rest]|]; try discriminate.
  intros H. injection H as <-. eauto.
Qed.

Lemma first_frame_list_shape (paths : list (string * json)) (l : list json) (p : string) :
  first_frame_list paths = Some (l, p) ->
  In (p, JList l) paths /\ exists d rest, l = JDict d :: rest.
Proof.
  induction paths as [|[p0 v0] paths IH]; cbn [first_frame_list]; [discriminate|].
  destruct (is_frame_list v0) as [l0|] eqn:E.
  - intros H. injection H as <- <-.
    destruct (is_frame_list_shape _ _ E) as (d & rest & -> & ->).
    split; [left; reflexivity | eauto].
  - intros H. destruct (IH H) as (Hin & Hs). split; [right; assumption | assumption].
Qed.

Lemma scan_shape (depth : nat) :
  forall node trail l p,
    scan depth node trail = Ok (l, p) ->
    (l = [] /\ p = EmptyString) \/
    (exists d rest, l = JDict d :: rest /\
                    (smem "children" d = true \/ smem "matrix" d = true)).
Proof.
  induction depth as [|depth IH]; intros node trail l p H; [discriminate H|].
  cbn [scan] in H. destruct node as [| | | |l0|d0];
    try (injection H as <- <-; left; split; reflexivity).
  - destruct (looks_like_frames l0) eqn:El.
    + injection H as <- <-. right. apply looks_like_frames_shape. assumption.
    + clear El. revert H. generalize 0 at 1.
      induction l0 as [|it l0 IHl]; intros i H.
      * injection H as <- <-. left. split; reflexivity.
      * bind_inv H as r Hr. destruct r as [[|r0 rl] rp]; cbn [fst] in H.
        -- eapply IHl. eassumption.
        -- injection H as <- <-. eapply IH. eassumption.
  - revert H. induction d0 as [|[k v] d0 IHd]; intros H.
    + injection H as <- <-. left. split; reflexivity.
    + bind_inv H as r Hr. destruct r as [[|r0 rl] rp]; cbn [fst] in H.
      * apply IHd. assumption.
      * injection H as <- <-. eapply IH. eassumption.
Qed.

(** X15.  What [_discover_frames] returns is either nothing, with the
    empty path, or a list that starts with a dict: the list one of the
    four known paths holds, or else a list found by the scan, whose first
    element then has a [children] or a [matrix] field. *)
Theorem discovered_frames_start_with_a_dict
        (depth : nat) (data : json) (l : list json) (p : string) :
  _discover_frames depth data = Ok (l, p) ->
  (l = [] /\ p = EmptyString) \/
  (exists d rest,
      l = JDict d :: rest /\
      (In p ["frames"; "anims[0].frames"; "animations[0].frames"; "timeline.frames"]%string
       \/ smem "children" d = true \/ smem "matrix" d = true)).
Proof.
  unfold _discover_frames. intros H.
  bind_inv H as v1 H1. bind_inv H as v2 H2. bind_inv H as v3 H3. bind_inv H as v4 H4.
  destruct (first_frame_list _) as [[l0 p0]|] eqn:Ef.
  - injection H as <- <-. right.
    destruct (first_frame_list_shape _ _ _ Ef) as (Hin & d & rest & ->).
    exists d, rest. split; [reflexivity|]. left.
    apply (in_map fst) in Hin. exact Hin.
  - destruct (scan_shape _ _ _ _ _ H) as [Hn | (d & rest & -> & Hs)]; [left; assumption|].
    right. exists d, rest. auto.
Qed.

(** The frame list under [frames]. *)
Lemma discovered_frames_start_with_a_dict_witness :
  ([ex_frame] = [] /\ "frames"%string = EmptyString) \/
  (exists d rest,
      [ex_frame] = JDict d :: rest /\
      (In "frames"%string
          ["frames"; "anims[0].frames"; "animations[0].frames"; "timeline.frames"]%string
       \/ smem "children" d = true \/ smem "matrix" d = true)).
Proof.
  apply (discovered_frames_start_with_a_dict 3 (JDict [("frames", JList [ex_frame])])).
  vm_compute. reflexivity.
Defined.

(** X16.  [_discover_frames] reads all four known paths before it looks
    at any of them: when [anims] holds a truthy object whose element 0
    cannot be taken, the exception of that subscript comes out, whatever
    the other fields of the data hold, a usable [frames] list included. *)
Theorem discover_frames_probes_eagerly
        (depth : nat) (d : list (string * json)) (v : json) (e : exn) :
  sget "anims" d = Some v ->
  truthy v = true ->
  subscript0 v = Raise e ->
  _discover_frames depth (JDict d) = Raise e.
Proof.
  intros Hv Ht He. unfold _discover_frames, first_frames_of.
  unfold get_or at 1. unfold py_get. cbn [bind].
  unfold get_or at 1. unfold py_get. cbn [bind]. rewrite Hv, Ht, He. reflexivity.
Qed.

(** A usable [frames] list beside [anims] holding a number. *)
Lemma discover_frames_probes_eagerly_witness :
  _discover_frames 3 (JDict [("frames", JList [ex_frame]); ("anims", JNum 1)])
  = Raise TypeError.
Proof.
  apply (discover_frames_probes_eagerly 3
           [("frames", JList [ex_frame]); ("anims", JNum 1)] (JNum 1) TypeError);
    vm_compute; reflexivity.
Defined.

(** *** Paths and sizes typed by the user *)

Local Open Scope string_scope.

Lemma lstrip_spaces (pre t : string) :
  all_space pre = true -> lstrip (pre ++ t) = lstrip t.
Proof.
  induction pre as [|c pre IH]; cbn [append all_space lstrip]; [reflexivity|].
  intros H. apply andb_true_iff in H. destruct H as [Hc Hp]. rewrite Hc. auto.
Qed.

Lemma lstrip_clean (t : string) : starts_clean t = true -> lstrip t = t.
Proof.
  destruct t as [|c t]; [reflexivity|]. cbn [starts_clean lstrip].
  intros H. apply negb_true_iff in H. rewrite H. reflexivity.
Qed.

Lemma rstrip_spaces (post : string) : all_space post = true -> rstrip post = EmptyString.
Proof.
  induction post as [|c post IH]; cbn [all_space rstrip]; [reflexivity|].
  intros H. apply andb_true_iff in H. destruct H as [Hc Hp].
  rewrite (IH Hp), Hc. reflexivity.
Qed.

Lemma rstrip_clean (core post : string) :
  ends_clean core = true -> all_space post = true -> rstrip (core ++ post) = core.
Proof.
  intros Hc Hp. induction core as [|c r IH]; cbn [append rstrip].
  - apply rstrip_spaces. assumption.
  - destruct r as [|c' r'].
    + cbn [append]. rewrite (rstrip_spaces _ Hp).
      unfold ends_clean in Hc. cbn in Hc. apply negb_true_iff in Hc. rewrite Hc. reflexivity.
    + rewrite IH; [reflexivity|]. exact Hc.
Qed.

Lemma strip_core (pre core post : string) :
  all_space pre = true -> all_space post = true ->
  starts_clean core = true -> ends_clean core = true ->
  strip (pre ++ core ++ post) = core.
Proof.
  intros Hpre Hpost Hs He. unfold strip.
  rewrite (lstrip_spaces _ _ Hpre).
  destruct core as [|c r].
  - cbn [append]. destruct (lstrip_split post) as (ws & E & Hws & _).
    apply rstrip_spaces. rewrite E, all_space_app in Hpost.
    apply andb_true_iff in Hpost. apply Hpost.
  - rewrite lstrip_clean by exact Hs. apply rstrip_clean; assumption.
Qed.

(** X17.  [_strip_quotes] undoes one layer of quoting: a text between two
    apostrophes or between two double quotes, with any white space around
    the quoted form, comes back as it was, quotes and white space inside
    it included. *)
Theorem strip_quotes_unquotes (q : ascii) (s pre post : string) :
  q = squote \/ q = dquote ->
  all_space pre = true ->
  all_space post = true ->
  _strip_quotes (pre ++ String q (s ++ String q post)) = s.
Proof.
  intros Hq Hpre Hpost.
  assert (Hnsp : is_space q = false) by (destruct Hq as [-> | ->]; reflexivity).
  assert (Hqq : Ascii.eqb q squote || Ascii.eqb q dquote = true)
    by (destruct Hq as [-> | ->]; reflexivity).
  set (core := String q (s ++ String q EmptyString)).
  assert (E : pre ++ String q (s ++ String q post) = pre ++ core ++ post).
  { unfold core. cbn [append]. rewrite sapp_assoc. reflexivity. }
  assert (Hlast : last_char core = Some q).
  { unfold core. apply (last_char_snoc (String q s) q). }
  unfold _strip_quotes. rewrite E, strip_core; try assumption.
  - assert (Hlen : String.length core = S (S (String.length s))).
    { unfold core. cbn [String.length]. rewrite slength_app. cbn [String.length]. lia. }
    rewrite Hlen, Hlast. cbn [Nat.leb andb]. unfold core at 1. cbn [String.get].
    rewrite Ascii.eqb_refl, Hqq. cbn [andb].
    replace (S (S (String.length s)) - 2) with (String.length s) by lia.
    unfold core. cbn [substring]. apply substring_app_l.
  - unfold core. cbn [starts_clean]. rewrite Hnsp. reflexivity.
  - unfold ends_clean. rewrite Hlast, Hnsp. reflexivity.
Qed.

(** A quoted path with a blank inside and a blank after it. *)
Lemma strip_quotes_unquotes_witness :
  (dquote = squote \/ dquote = dquote) /\
  all_space EmptyString = true /\ all_space " " = true /\
  _strip_quotes (EmptyString ++ String dquote ("my file.bbone" ++ String dquote " "))
  = "my file.bbone".
Proof.
  split; [right; reflexivity|]. split; [reflexivity|]. split; [reflexivity|].
  apply (strip_quotes_unquotes dquote "my file.bbone" EmptyString " ");
    [right; reflexivity | reflexivity | reflexivity].
Defined.

Lemma lower_char_idem (c : ascii) : lower_char (lower_char c) = lower_char c.
Proof. destruct c as [[] [] [] [] [] [] [] []]; vm_compute; reflexivity. Qed.

Lemma lower_char_blank (c : ascii) :
  Ascii.eqb (lower_char c) " "%char = Ascii.eqb c " "%char.
Proof. destruct c as [[] [] [] [] [] [] [] []]; vm_compute; reflexivity. Qed.

Lemma lower_idem (s : string) : lower (lower s) = lower s.
Proof.
  induction s as [|c s IH]; cbn [lower]; [reflexivity|].
  rewrite lower_char_idem, IH. reflexivity.
Qed.

Lemma lower_remove_blank (s : string) :
  lower (remove_char " "%char s) = remove_char " "%char (lower s).
Proof.
  induction s as [|c s IH]; cbn [lower remove_char]; [reflexivity|].
  rewrite lower_char_blank. destruct (Ascii.eqb c " "%char); [exact IH|].
  cbn [lower]. rewrite IH. reflexivity.
Qed.

Lemma remove_char_idem (a : ascii) (s : string) :
  remove_char a (remove_char a s) = remove_char a s.
Proof.
  induction s as [|c s IH]; cbn [remove_char]; [reflexivity|].
  destruct (Ascii.eqb c a) eqn:E; [exact IH|].
  cbn [remove_char]. rewrite E, IH. reflexivity.
Qed.

Lemma contains_char_remove (a b : ascii) (s : string) :
  a <> b -> contains_char a (remove_char b s) = contains_char a s.
Proof.
  intros Hab. induction s as [|c s IH]; cbn [remove_char contains_char]; [reflexivity|].
  destruct (Ascii.eqb_spec c b) as [-> | Hcb].
  - rewrite IH. destruct (Ascii.eqb_spec b a) as [-> | _]; [contradiction Hab|]; reflexivity.
  - cbn [contains_char]. rewrite IH. reflexivity.
Qed.

Lemma contains_char_lower_x (s : string) :
  contains_char "x"%char (lower s)
  = contains_char "x"%char s || contains_char "X"%char s.
Proof.
  induction s as [|c s IH]; cbn [lower contains_char]; [reflexivity|].
  rewrite IH.
  assert (E : Ascii.eqb (lower_char c) "x"%char
              = Ascii.eqb c "x"%char || Ascii.eqb c "X"%char)
    by (destruct c as [[] [] [] [] [] [] [] []]; vm_compute; reflexivity).
  rewrite E.
  destruct (Ascii.eqb c "x"%char), (Ascii.eqb c "X"%char),
    (contains_char "x"%char s), (contains_char "X"%char s); reflexivity.
Qed.

Local Open Scope list_scope.

(** X18.  [parse_size_token] reads a size without regard to the case of
    its letters and to its blanks: the token and its lower-case form
    without blanks give the same result; and a token that holds neither
    [x] nor [X] is refused with [ValueError], whatever else it holds. *)
Theorem size_token_ignores_case_and_blanks
        (float_of_str : string -> option float) (tok : string) :
  parse_size_token float_of_str (remove_char " "%char (lower tok))
  = parse_size_token float_of_str tok
  /\ (contains_char "x"%char tok || contains_char "X"%char tok = false ->
      parse_size_token float_of_str tok = Raise ValueError).
Proof.
  split.
  - unfold parse_size_token.
    rewrite lower_remove_blank, lower_idem, remove_char_idem. reflexivity.
  - intros H. unfold parse_size_token.
    rewrite contains_char_remove by discriminate.
    rewrite contains_char_lower_x, H. reflexivity.
Qed.

(** *** The image symbols of the stage project *)

Section ImageMatrixFacts.

Variable float_of_str : string -> option float.
Variable plist : list (string * json).
Variable idx : list (string * string).

Lemma plist_float_rule (st : json) (k : string) (dflt v : float) :
  plist_float float_of_str st k dflt = Ok v ->
  exists d,
    st = JDict d /\
    match sget k d with
    | None | Some JNull => v = dflt
    | Some (JNum x) => v = if PrimFloat.eqb x 0 then dflt else x
    | Some (JBool b) => v = if b then 1%float else dflt
    | Some _ => True
    end.
Proof.
  unfold plist_float. intros H. bind_inv H as w Hw.
  destruct st as [| | | | |d]; try discriminate Hw.
  unfold get_or, py_get in Hw. cbn [bind] in Hw. injection Hw as Hw.
  exists d. split; [reflexivity|].
  destruct (sget k d) as [[|b|x|t|l|d']|]; subst w; try exact I.
  - cbn in H. injection H as <-. reflexivity.
  - unfold py_or in H. cbn [truthy] in H. destruct b; cbn in H; injection H as <-;
      reflexivity.
  - unfold py_or in H. cbn [truthy] in H. unfold float_truthy in H.
    destruct (PrimFloat.eqb x 0); cbn in H; injection H as <-; reflexivity.
  - unfold py_or in H.
    assert (Hd : truthy (JNum dflt) = true \/ truthy (JNum dflt) = false)
      by (destruct (truthy (JNum dflt)); auto).
    destruct Hd as [Hd | Hd]; rewrite Hd in H; cbn in H; injection H as <-; reflexivity.
Qed.

Lemma image_symbols_matrix (names : list string) :
  forall imgs0 n2i0 imgs n2i,
    image_symbols float_of_str plist idx names imgs0 n2i0 = Ok (imgs, n2i) ->
    forall stem M,
      In (stem, M) imgs ->
      In (stem, M) imgs0 \/
      exists n sx sy ox oy,
        In n names /\ find_png_for_name n idx = Some stem /\
        M = Affine sx 0 0 sy ox oy /\
        let st := match sget n plist with Some e => e | None => JDict [] end in
        plist_float float_of_str st "scale_x" 1 = Ok sx /\
        plist_float float_of_str st "scale_y" 1 = Ok sy /\
        plist_float float_of_str st "origin_x" 0 = Ok ox /\
        plist_float float_of_str st "origin_y" 0 = Ok oy.
Proof.
  induction names as [|n0 names IH]; cbn [image_symbols];
    intros imgs0 n2i0 imgs n2i H stem M Hin.
  - injection H as <- <-. left. assumption.
  - destruct (find_png_for_name n0 idx) as [png|] eqn:Ef.
    + bind_inv H as ox Hox. bind_inv H as oy Hoy. bind_inv H as sx Hsx.
      bind_inv H as sy Hsy.
      destruct (IH _ _ _ _ H stem M Hin) as [H0 | (n & a & b & c & d & Hn & Hrest)].
      * apply in_app_iff in H0. destruct H0 as [H0 | [E | []]]; [left; assumption|].
        injection E as <- <-. right. exists n0, sx, sy, ox, oy.
        split; [left; reflexivity|]. split; [assumption|]. split; [reflexivity|].
        cbv zeta. auto.
      * right. exists n, a, b, c, d. split; [right; assumption | assumption].
    + destruct (IH _ _ _ _ H stem M Hin) as [H0 | (n & a & b & c & d & Hn & Hrest)];
        [left; assumption|].
      right. exists n, a, b, c, d. split; [right; assumption | assumption].
Qed.

End ImageMatrixFacts.

(** X19.  The two scale factors [main] computes for an image symbol and
    hands to [image_symbol_xml] are read from the catalogue entry of a
    piece whose PNG was found, with [or 1]: a scale that is a number other
    than zero is taken as it is, and a scale given as 0, as [null] or as a
    boolean, or not given at all, is taken as 1. *)
Theorem catalogue_scale_zero_is_read_as_one
        (float_of_str : string -> option float) (shared : json) (depth : nat)
        (frames : list json) (plist : list (string * json)) (idx : list (string * string))
        (names : list string) (g_sx g_sy : float) (s : stage) (stem : string)
        (M : affine) :
  main float_of_str shared depth frames plist idx names g_sx g_sy = Done s ->
  In (stem, M) (st_images s) ->
  exists n d,
    In n names /\ find_png_for_name n idx = Some stem /\
    match sget n plist with Some e => e | None => JDict [] end = JDict d /\
    match sget "scale_x" d with
    | None | Some JNull | Some (JBool _) => m_a M = 1%float
    | Some (JNum x) => m_a M = if PrimFloat.eqb x 0 then 1%float else x
    | Some _ => True
    end /\
    match sget "scale_y" d with
    | None | Some JNull | Some (JBool _) => m_d M = 1%float
    | Some (JNum y) => m_d M = if PrimFloat.eqb y 0 then 1%float else y
    | Some _ => True
    end.
Proof.
  intros Hmain Hin.
  unfold main in Hmain. destruct frames as [|f0 rest]; [discriminate Hmain|].
  destruct (build_stage float_of_str shared depth (f0 :: rest) plist idx names g_sx g_sy)
    as [s'|e] eqn:Hb; [|discriminate Hmain].
  injection Hmain as ->.
  destruct (build_stage_parts _ _ _ _ _ _ _ _ _ _ Hb) as (n2i & lf & order & Himg & _).
  destruct (image_symbols_matrix _ _ _ _ _ _ _ _ Himg _ _ Hin)
    as [[] | (n & sx & sy & ox & oy & Hn & Hf & -> & Hsx & Hsy & _)].
  cbn [m_a m_d].
  destruct (plist_float_rule _ _ _ _ _ Hsx) as (d & Hd & Hrx).
  destruct (plist_float_rule _ _ _ _ _ Hsy) as (d' & Hd' & Hry).
  rewrite Hd in Hd'. injection Hd' as <-.
  exists n, d. repeat (split; [assumption|]). split.
  - destruct (sget "scale_x" d) as [[|b|x|t|l|d0]|]; try assumption.
    destruct b; assumption.
  - destruct (sget "scale_y" d) as [[|b|x|t|l|d0]|]; try assumption.
    destruct b; assumption.
Qed.

(** The eye whose catalogue entry gives the scale 0 across and 3 down. *)
Lemma catalogue_scale_zero_is_read_as_one_witness :
  exists s M,
    main no_numeric_strings (JDict []) 5 [ex_twice]
         [("eye"%string, JDict [("name", JStr "eye"); ("scale_x", JNum 0);
                                ("scale_y", JNum 3)])]
         (build_png_index ["eye"%string]) ["eye"%string] 1 1 = Done s /\
    In ("eye"%string, M) (st_images s) /\
    M = Affine 1 0 0 3 0 0 /\
    exists n d,
      In n ["eye"%string] /\
      find_png_for_name n (build_png_index ["eye"%string]) = Some "eye"%string /\
      match sget n [("eye"%string, JDict [("name", JStr "eye"); ("scale_x", JNum 0);
                                         ("scale_y", JNum 3)])]
      with Some e => e | None => JDict [] end = JDict d /\
      match sget "scale_x" d with
      | None | Some JNull | Some (JBool _) => m_a M = 1%float
      | Some (JNum x) => m_a M = if PrimFloat.eqb x 0 then 1%float else x
      | Some _ => True
      end /\
      match sget "scale_y" d with
      | None | Some JNull | Some (JBool _) => m_d M = 1%float
      | Some (JNum y) => m_d M = if PrimFloat.eqb y 0 then 1%float else y
      | Some _ => True
      end.
Proof.
  do 2 eexists. split; [vm_compute; reflexivity|]. split; [left; reflexivity|].
  split; [reflexivity|].
  apply (catalogue_scale_zero_is_read_as_one no_numeric_strings (JDict []) 5 [ex_twice]
           [("eye"%string, JDict [("name", JStr "eye"); ("scale_x", JNum 0);
                                  ("scale_y", JNum 3)])]
           (build_png_index ["eye"%string]) ["eye"%string] 1%float 1%float _ "eye"%string _
           eq_refl (or_introl eq_refl)).
Defined.
